(** * sn_relationships: the CMDB relationship traversal of servicenow-mcp

    A shallow embedding of [src/tools/relationships.ts] (the [handler] of the
    [sn_relationships] tool, with its local functions [getClass],
    [extractValue], [extractDisplay] and [traverse]), of the two helpers of
    [src/utils.ts] it returns through ([ok], [err]) and of [loadConfig].

    Modelling conventions.
    - JavaScript strings are Rocq [string]s; [toLowerCase] is modelled on the
      ASCII letters.
    - The [depth] argument is a JavaScript number; it is modelled as an
      integer ([Z]).
    - [client.get] is the only effect besides the mutation of the three local
      collections [visited], [classCache] and [allRels].  The remote instance
      is a value of type [Client]: one answer per request, which is a thrown
      error, no body at all ([client.get] returns [null] on HTTP 204) or the
      decoded JSON body.  A body is the envelope of the Table API: its
      [result], when present, is a record or a list of records, and a field
      of a [cmdb_ci] record is a string when present.  Any field may be
      absent, in which case the code reads [undefined].
    - An exception that no [try] of [traverse] or [getClass] catches leaves
      [handler] through its outer [catch].  There are two such exceptions
      after the root is resolved, both [TypeError]s: reading [.result] of a
      [null] response to a row fetch, and calling [.toLowerCase()] on an
      [undefined] class.  [traverse] and the functions it is made of return
      an [Outcome]: the state, or the error and the state it was raised in.
    - [rootId] is [undefined] when the record found by name has no [sys_id];
      the node being expanded ([currentId]) is therefore an [option string].
      The other endpoint of a row is always a string.
    - Every call that the code issues is recorded, in order, in an
      observation trace that the code itself never reads.
    - [traverse] recurses on the node graph; the embedding recurses on a
      [fuel] argument and returns [None] when the fuel runs out.  Lemma
      [handler_run_total] shows that fuel [5] always suffices.
    - [parseInt] and [isNaN] are parameters of the embedding of
      [loadConfig]. *)

From Stdlib Require Import ZArith Ascii String List Bool Lia.
From stdpp Require Import base decidable option list gmap strings.

Set Warnings "-register-all".

Open Scope string_scope.
Open Scope Z_scope.

(** ** JavaScript values, as far as the tool inspects them *)

Module Js.

(** The fields of a relationship row are typed [unknown] in the source and
    inspected with [typeof]; this is the part of the JSON value space the
    inspection distinguishes. *)
Inductive JsVal : Type :=
| JUndefined
| JNull
| JBool (b : bool)
| JNum (n : Z)
| JStr (s : string)
| JObj (props : list (string * JsVal)).

(** [!!v] *)
Definition truthy (v : JsVal) : bool :=
  match v with
  | JUndefined | JNull => false
  | JBool b => b
  | JNum n => negb (n =? 0)
  | JStr s => negb (String.eqb s "")
  | JObj _ => true
  end.

(** [typeof v === "string"] *)
Definition is_string (v : JsVal) : bool :=
  match v with JStr _ => true | _ => false end.

(** The string carried by a value known to be a string. *)
Definition str_of (v : JsVal) : string :=
  match v with JStr s => s | _ => "" end.

(** [f.key] on an object given by its own properties: the first binding of
    [key], [undefined] when there is none. *)
Fixpoint prop (f : list (string * JsVal)) (key : string) : JsVal :=
  match f with
  | [] => JUndefined
  | (k, v) :: rest => if String.eqb k key then v else prop rest key
  end.

(** [s || d] on strings. *)
Definition str_or (s d : string) : string :=
  if String.eqb s "" then d else s.

(** [String.prototype.toLowerCase], on ASCII. *)
Definition lower_ascii (c : ascii) : ascii :=
  let n := nat_of_ascii c in
  if (Nat.leb 65 n && Nat.leb n 90)%bool then ascii_of_nat (n + 32) else c.

Fixpoint toLowerCase (s : string) : string :=
  match s with
  | EmptyString => EmptyString
  | String c rest => String (lower_ascii c) (toLowerCase rest)
  end.

(** [s.includes(sub)] *)
Fixpoint includes (s sub : string) : bool :=
  String.prefix sub s ||
  match s with
  | EmptyString => false
  | String _ rest => includes rest sub
  end.

(** [s.split(sep)] for a one-character separator: never the empty list. *)
Fixpoint split (sep : ascii) (s : string) : list string :=
  match s with
  | EmptyString => [EmptyString]
  | String c rest =>
      if Ascii.eqb c sep then EmptyString :: split sep rest
      else match split sep rest with
           | [] => [String c EmptyString]
           | p :: ps => String c p :: ps
           end
  end.

(** [parts[parts.length - 1]] *)
Definition last_part (parts : list string) : string := List.last parts "".

(** The character class [[a-f0-9]]. *)
Definition is_lower_hex (c : ascii) : bool :=
  let n := nat_of_ascii c in
  ((Nat.leb 97 n && Nat.leb n 102) || (Nat.leb 48 n && Nat.leb n 57))%bool.

Fixpoint all_chars (p : ascii -> bool) (s : string) : bool :=
  match s with
  | EmptyString => true
  | String c rest => p c && all_chars p rest
  end.

(** [/^[a-f0-9]{32}$/.test(s)] *)
Definition is_sys_id_pattern (s : string) : bool :=
  (Nat.eqb (String.length s) 32 && all_chars is_lower_hex s)%bool.

End Js.
Import Js.

(** ** Reference Resolver: [extractValue] and [extractDisplay] *)

Definition extractValue (field : JsVal) : string :=
  if negb (truthy field) then ""
  else match field with
       | JStr s => s
       | JObj f =>
           if (truthy (prop f "value") && is_string (prop f "value"))%bool
           then str_of (prop f "value")
           else if (truthy (prop f "link") && is_string (prop f "link"))%bool
                then last_part (split "/" (str_of (prop f "link")))
                else ""
       | _ => ""
       end.

Definition extractDisplay (field : JsVal) : string :=
  if negb (truthy field) then ""
  else match field with
       | JStr s => if is_sys_id_pattern s then "" else s
       | JObj f =>
           if (truthy (prop f "display_value")
               && is_string (prop f "display_value"))%bool
           then str_of (prop f "display_value")
           else ""
       | _ => ""
       end.

(** ** Data model *)

(** A row of [cmdb_rel_ci] as requested by [traverse]
    ([sysparm_fields: "parent,child,type"]). *)
Record Rec := mkRec {
  rec_parent : JsVal;
  rec_child : JsVal;
  rec_type : JsVal;
}.

(** A record of [cmdb_ci] as requested by the root resolution
    ([sysparm_fields: "sys_id,name,sys_class_name"], display values): each
    field is a string, or is absent ([None]; the code reads [undefined]). *)
Record CiRecord := mkCi {
  ci_sys_id : option string;
  ci_name : option string;
  ci_sys_class_name : option string;
}.

(** [interface RelNode].  [class] is [otherClass], which is [undefined]
    ([None]) only when it is the class of a root whose record has none. *)
Record RelNode := mkRelNode {
  rel_name : string;
  rel_class : option string;
  rel_type : string;
  rel_direction : string;
  rel_sys_id : string;
  rel_depth : Z;
}.

(** [z.enum(["upstream", "downstream", "both"])] *)
Inductive Direction := upstream | downstream | both.

Definition dir_name (d : Direction) : string :=
  match d with
  | upstream => "upstream"
  | downstream => "downstream"
  | both => "both"
  end.

(** The tool arguments as the caller sends them, and as [schema] parses them:
    [direction] defaults to ["both"] and [impact] to [false]. *)
Record RawArgs := mkRawArgs {
  raw_ci_name : option string;
  raw_sys_id : option string;
  raw_depth : option Z;
  raw_direction : option Direction;
  raw_type : option string;
  raw_class : option string;
  raw_impact : option bool;
}.

Record Args := mkArgs {
  arg_ci_name : option string;
  arg_sys_id : option string;
  arg_depth : option Z;
  arg_direction : Direction;
  arg_type : option string;
  arg_class : option string;
  arg_impact : bool;
}.

Definition schema (raw : RawArgs) : Args :=
  {| arg_ci_name := raw_ci_name raw;
     arg_sys_id := raw_sys_id raw;
     arg_depth := raw_depth raw;
     arg_direction := default both (raw_direction raw);
     arg_type := raw_type raw;
     arg_class := raw_class raw;
     arg_impact := default false (raw_impact raw) |}.

(** [ServiceNowConfig], the one field the tool reads. *)
Record ServiceNowConfig := mkConfig { relDepth : Z }.

(** An optional string argument used as a condition: [undefined] and [""]
    are falsy. *)
Definition given (o : option string) : option string :=
  match o with
  | Some s => if String.eqb s "" then None else Some s
  | None => None
  end.

(** ** The Record Query collaborator *)

(** What [await client.get(...)] does: throw (the text is what [formatError]
    makes of the thrown value), return [null] (HTTP 204, no body) or return
    the decoded body.  A returned body is the envelope of the Table API, a
    JSON object whose [result] may be absent; the value carried here is that
    [result]. *)
Inductive Reply (A : Type) : Type :=
| Threw (error : string)
| NoBody
| Returned (result : A).
Arguments Threw {A} error.
Arguments NoBody {A}.
Arguments Returned {A} result.

(** The message of the [TypeError] for [value.property] when [value] is
    [null] or [undefined], as Node words it; [formatError] returns the
    message of an [Error] as it is. *)
Definition type_error (value property : string) : string :=
  "Cannot read properties of " ++ value ++ " (reading '" ++ property ++ "')".

(** [`${id}`] for the value of [rootId] or [currentId]. *)
Definition id_text (id : option string) : string := default "undefined" id.

(** [s === id] for a string [s] and the value [id] of [currentId]. *)
Definition is_id (s : string) (id : option string) : bool :=
  match id with
  | Some i => String.eqb s i
  | None => false
  end.

(** [a === b] for two values of [currentId]. *)
Definition same_id (a b : option string) : bool :=
  match a, b with
  | Some x, Some y => String.eqb x y
  | None, None => true
  | _, _ => false
  end.

(** One field per request shape that [handler] builds.
    - [get_ci id]: [GET /api/now/table/cmdb_ci/<id>] for the root;
      [None] when the body has no [result].
    - [find_ci name]: [GET /api/now/table/cmdb_ci?sysparm_query=name=<name>],
      limit 5; [None] when the body has no [result].
    - [get_class id]: [GET /api/now/table/cmdb_ci/<id>] with
      [sysparm_fields: "sys_class_name"]; the value is
      [resp.result?.sys_class_name], [None] when that is [undefined].
    - [query_rels id]: [GET /api/now/table/cmdb_rel_ci] with
      [parent=<id>^ORchild=<id>], limit 100, where [<id>] is the text of
      [currentId]; [None] when the body has no [result]. *)
Record Client := mkClient {
  get_ci : string -> Reply (option CiRecord);
  find_ci : string -> Reply (option (list CiRecord));
  get_class : string -> Reply (option string);
  query_rels : string -> Reply (option (list Rec));
}.

(** The observation trace: the remote calls in the order they are issued and,
    for each element appended to [allRels], the node that was being expanded.
    A row fetch is recorded with the value of [currentId] it was issued for;
    the request carries [id_text] of it. *)
Inductive Event :=
| CallGetCi (id : string)
| CallFindCi (name : string)
| CallGetClass (id : string)
| CallQueryRels (id : option string)
| Pushed (src : option string) (e : RelNode).

(** ** Results ([utils.ts]) *)

(** The object [handler] passes to [ok]; [JSON.stringify] leaves out the
    fields of [root] that are [undefined] ([None]). *)
Record Payload := mkPayload {
  root_name : option string;
  root_class : option string;
  root_sys_id : option string;
  relationships : list RelNode;
  meta_depth : Z;
  meta_direction : string;
  meta_total : nat;
}.

Inductive ToolResult :=
| Content (data : Payload)
| IsError (text : string).

Definition ok (data : Payload) : ToolResult := Content data.
Definition err (message : string) : ToolResult := IsError ("ERROR: " ++ message).

(** ** Traversal state: the three collections [handler] allocates *)

Record TState := mkState {
  visited : gset (option string);
  classCache : gmap (option string) (option string);
  allRels : list RelNode;
  trace : list Event;
}.

(** How a call of [traverse] ends: it returns, or an exception leaves it
    ([error] is what [formatError] makes of the exception). *)
Inductive Outcome :=
| Done (st : TState)
| Raised (error : string) (st : TState).

Definition state_of (out : Outcome) : TState :=
  match out with
  | Done st => st
  | Raised _ st => st
  end.

Definition observe (ev : Event) (st : TState) : TState :=
  {| visited := visited st; classCache := classCache st;
     allRels := allRels st; trace := trace st ++ [ev] |}.

Definition cache_set (id cls : option string) (st : TState) : TState :=
  {| visited := visited st; classCache := <[id := cls]> (classCache st);
     allRels := allRels st; trace := trace st |}.

Definition visited_add (id : option string) (st : TState) : TState :=
  {| visited := {[id]} ∪ visited st; classCache := classCache st;
     allRels := allRels st; trace := trace st |}.

Definition push (src : option string) (e : RelNode) (st : TState) : TState :=
  {| visited := visited st; classCache := classCache st;
     allRels := allRels st ++ [e]; trace := trace st ++ [Pushed src e] |}.

(** What lines 181-205 of [traverse] keep of a row that passes them. *)
Record Candidate := mkCandidate {
  otherId : string;
  otherName : string;
  relDir : string;
  typeName : string;
}.

Section Traversal.

Variable client : Client.
Variable maxDepth : Z.
Variable direction : Direction.
Variable typeFilter : option string.   (* [args.type] *)
Variable classFilter : option string.  (* [args.class] *)

(** [getClass]: [classCache.has(id)] holds also for a key whose value is
    [undefined].  A response without a body makes [resp.result] throw inside
    the [try]. *)
Definition getClass (id : string) (st : TState) : option string * TState :=
  match classCache st !! Some id with
  | Some cls => (cls, st)
  | None =>
      let st := observe (CallGetClass id) st in
      match get_class client id with
      | Returned r =>
          let cls := str_or (default "" r) "unknown" in
          (Some cls, cache_set (Some id) (Some cls) st)
      | Threw _ | NoBody =>
          (Some "unknown", cache_set (Some id) (Some "unknown") st)
      end
  end.

(** The head of the loop body: decode the row, find the other endpoint,
    apply the self-loop guard, the direction filter and the type filter.
    [None] is [continue]. *)
Definition candidate (currentId : option string) (rec : Rec) : option Candidate :=
  let parentId := extractValue (rec_parent rec) in
  let childId := extractValue (rec_child rec) in
  let parentName := extractDisplay (rec_parent rec) in
  let childName := extractDisplay (rec_child rec) in
  let typeName := str_or (extractDisplay (rec_type rec)) "Related to" in
  let oriented :=
    if is_id parentId currentId then Some (childId, childName, "downstream")
    else if is_id childId currentId then Some (parentId, parentName, "upstream")
    else None in
  match oriented with
  | None => None
  | Some (otherId, otherName, relDir) =>
      if is_id otherId currentId then None
      else if (negb (String.eqb (dir_name direction) "both")
               && negb (String.eqb relDir (dir_name direction)))%bool then None
      else match given typeFilter with
           | Some t =>
               if negb (includes (toLowerCase typeName) (toLowerCase t)) then None
               else Some (mkCandidate otherId otherName relDir typeName)
           | None => Some (mkCandidate otherId otherName relDir typeName)
           end
  end.

(** [`${otherId}:${relDir}`] *)
Definition pairKey (c : Candidate) : string := otherId c ++ ":" ++ relDir c.

(** [!args.class || otherClass.toLowerCase().includes(args.class.toLowerCase())];
    [None] when [otherClass] is [undefined] and [.toLowerCase()] throws. *)
Definition class_test (otherClass : option string) : option bool :=
  match given classFilter with
  | None => Some true
  | Some c =>
      match otherClass with
      | Some cls => Some (includes (toLowerCase cls) (toLowerCase c))
      | None => None
      end
  end.

Definition relNode (c : Candidate) (otherClass : option string) (currentDepth : Z)
    : RelNode :=
  {| rel_name := str_or (otherName c) (otherId c);
     rel_class := otherClass;
     rel_type := typeName c;
     rel_direction := relDir c;
     rel_sys_id := otherId c;
     rel_depth := currentDepth |}.

(** Lines 211-223: resolve the class of the other endpoint and append the
    edge to [allRels] unless the class filter hides it. *)
Definition report (currentId : option string) (currentDepth : Z) (c : Candidate)
    (st : TState) : Outcome :=
  let '(otherClass, st) := getClass (otherId c) st in
  match class_test otherClass with
  | Some true => Done (push currentId (relNode c otherClass currentDepth) st)
  | Some false => Done st
  | None => Raised (type_error "undefined" "toLowerCase") st
  end.

(** The [for (const rec of records)] loop of [traverse]; [recurse] is
    [traverse(_, currentDepth + 1)].  An exception ends the loop. *)
Fixpoint loop (recurse : option string -> TState -> option Outcome)
    (currentId : option string) (currentDepth : Z)
    (records : list Rec) (seen : gset string) (st : TState) : option Outcome :=
  match records with
  | [] => Some (Done st)
  | rec :: rest =>
      match candidate currentId rec with
      | None => loop recurse currentId currentDepth rest seen st
      | Some c =>
          if decide (pairKey c ∈ seen)
          then loop recurse currentId currentDepth rest seen st
          else
            let seen := {[pairKey c]} ∪ seen in
            match report currentId currentDepth c st with
            | Raised error st => Some (Raised error st)
            | Done st =>
                if ((currentDepth <? maxDepth)
                    && negb (bool_decide (Some (otherId c) ∈ visited st)))%bool
                then
                  match recurse (Some (otherId c))
                                (visited_add (Some (otherId c)) st) with
                  | Some (Done st) => loop recurse currentId currentDepth rest seen st
                  | Some (Raised error st) => Some (Raised error st)
                  | None => None
                  end
                else loop recurse currentId currentDepth rest seen st
            end
      end
  end.

(** [traverse]; [None] only when [fuel] is exhausted.  [relResp.result] is
    read after the [try]: a response without a body raises there. *)
Fixpoint traverse (fuel : nat) (currentId : option string) (currentDepth : Z)
    (st : TState) : option Outcome :=
  match fuel with
  | O => None
  | S fuel' =>
      if currentDepth >? maxDepth then Some (Done st)
      else
        let st := observe (CallQueryRels currentId) st in
        match query_rels client (id_text currentId) with
        | Threw _ => Some (Done st)
        | NoBody => Some (Raised (type_error "null" "result") st)
        | Returned result =>
            loop (fun id st' => traverse fuel' id (currentDepth + 1) st')
                 currentId currentDepth (default [] result) ∅ st
        end
  end.

End Traversal.

(** [Math.min(Math.max(args.depth ?? config.relDepth, 1), 5)] *)
Definition clampDepth (depth : option Z) (config : ServiceNowConfig) : Z :=
  Z.min (Z.max (default (relDepth config) depth) 1) 5.

(** [let direction = args.direction; if (args.impact) direction = "upstream"] *)
Definition effectiveDirection (args : Args) : Direction :=
  if arg_impact args then upstream else arg_direction args.

(** [visited], [classCache] and [allRels] as [handler] allocates them. *)
Definition initial_state (calls : list Event) (rootId rootClass : option string)
    : TState :=
  {| visited := {[rootId]};
     classCache := {[rootId := rootClass]};
     allRels := [];
     trace := calls |}.

(** The part of [handler] after the root is resolved: seed the collections,
    run [traverse(rootId, 1)], build the result, or the error of the outer
    [catch].  [calls] is the trace of the root resolution. *)
Definition walk (fuel : nat) (args : Args) (client : Client)
    (config : ServiceNowConfig) (calls : list Event)
    (rootId rootName rootClass : option string) : option (ToolResult * list Event) :=
  let maxDepth := clampDepth (arg_depth args) config in
  let direction := effectiveDirection args in
  match traverse client maxDepth direction (arg_type args) (arg_class args)
                 fuel rootId 1 (initial_state calls rootId rootClass) with
  | None => None
  | Some (Done st) =>
      Some (ok {| root_name := rootName; root_class := rootClass;
                  root_sys_id := rootId;
                  relationships := allRels st;
                  meta_depth := maxDepth;
                  meta_direction := dir_name direction;
                  meta_total := List.length (allRels st) |},
            trace st)
  | Some (Raised error st) => Some (err error, trace st)
  end.

(** [handler], paired with the observation trace. *)
Definition handler_run (fuel : nat) (args : Args) (client : Client)
    (config : ServiceNowConfig) : option (ToolResult * list Event) :=
  match given (arg_ci_name args), given (arg_sys_id args) with
  | None, None => Some (err "Either ci_name or sys_id is required", [])
  | _, Some sys_id =>
      match get_ci client sys_id with
      | Threw e => Some (err e, [CallGetCi sys_id])
      | NoBody => Some (err (type_error "null" "result"), [CallGetCi sys_id])
      | Returned r =>
          match r with
          | Some ci =>
              match given (ci_name ci) with
              | None =>
                  Some (err ("CI not found with sys_id: " ++ sys_id), [CallGetCi sys_id])
              | Some _ =>
                  walk fuel args client config [CallGetCi sys_id]
                       (Some sys_id) (ci_name ci) (ci_sys_class_name ci)
              end
          | None => Some (err ("CI not found with sys_id: " ++ sys_id), [CallGetCi sys_id])
          end
      end
  | Some name, None =>
      match find_ci client name with
      | Threw e => Some (err e, [CallFindCi name])
      | NoBody => Some (err (type_error "null" "result"), [CallFindCi name])
      | Returned r =>
          match default [] r with
          | [] => Some (err ("CI not found: " ++ name), [CallFindCi name])
          | ci :: _ =>
              walk fuel args client config [CallFindCi name]
                   (ci_sys_id ci) (ci_name ci) (ci_sys_class_name ci)
          end
      end
  end.

Definition handler (fuel : nat) (args : Args) (client : Client)
    (config : ServiceNowConfig) : option ToolResult :=
  fst <$> handler_run fuel args client config.

(** ** Observations on a trace *)

(** The nodes whose relationship rows were fetched, in order. *)
Definition queried (tr : list Event) : list (option string) :=
  omap (fun ev => match ev with CallQueryRels id => Some id | _ => None end) tr.

(** The nodes whose class was looked up remotely, in order. *)
Definition class_lookups (tr : list Event) : list string :=
  omap (fun ev => match ev with CallGetClass id => Some id | _ => None end) tr.

(** The edges reported while [src] was being expanded, in order. *)
Definition pushed_from (src : option string) (tr : list Event) : list RelNode :=
  omap (fun ev => match ev with
                  | Pushed s e => if same_id s src then Some e else None
                  | _ => None
                  end) tr.

(** All reported edges, in order. *)
Definition pushes (tr : list Event) : list RelNode :=
  omap (fun ev => match ev with Pushed _ e => Some e | _ => None end) tr.

(** The key under which [traverse] deduplicates an edge. *)
Definition edge_key (e : RelNode) : string := rel_sys_id e ++ ":" ++ rel_direction e.

(** The class [getClass] computes for a node that is not in the cache. *)
Definition class_of (client : Client) (id : string) : string :=
  match get_class client id with
  | Returned r => str_or (default "" r) "unknown"
  | Threw _ | NoBody => "unknown"
  end.

(** The class filter shows an edge of class [otherClass]: the test of line
    214 evaluates to [true]. *)
Definition class_shown (classFilter : option string) (otherClass : option string) : bool :=
  default false (class_test classFilter otherClass).

(** The state [report] leaves behind, whether it returns or raises. *)
Definition reported (client : Client) (classFilter : option string)
    (currentId : option string) (currentDepth : Z) (c : Candidate) (st : TState)
    : TState :=
  state_of (report client classFilter currentId currentDepth c st).

(** The candidates of the rows of one response, in row order. *)
Definition candidates (direction : Direction) (typeFilter : option string)
    (currentId : option string) (rows : list Rec) : list Candidate :=
  omap (candidate direction typeFilter currentId) rows.

(** The first candidate of a response that has a given dedup key. *)
Definition first_with_key (direction : Direction) (typeFilter : option string)
    (currentId : option string) (key : string) (rows : list Rec) : option Candidate :=
  List.find (fun c => String.eqb (pairKey c) key)
            (candidates direction typeFilter currentId rows).

(** The rows [traverse] iterates over when it expands [id]. *)
Definition rows_of (client : Client) (id : option string) : list Rec :=
  match query_rels client (id_text id) with
  | Returned result => default [] result
  | Threw _ | NoBody => []
  end.

(** ** Invariants of the traversal state *)

(** Every node whose rows were fetched is in [visited], and no node was
    fetched twice. *)
Definition expanded_once (st : TState) : Prop :=
  (forall id, id ∈ queried (trace st) -> id ∈ visited st)
  /\ NoDup (queried (trace st)).

(** Every node whose class was looked up is in the cache, and no class was
    looked up twice. *)
Definition class_once (st : TState) : Prop :=
  (forall id, id ∈ class_lookups (trace st) -> is_Some (classCache st !! Some id))
  /\ NoDup (class_lookups (trace st)).

(** Every cached class is the root's, as resolved, or the one [getClass]
    computes from the remote lookup. *)
Definition cache_sound (client : Client) (root rootClass : option string)
    (st : TState) : Prop :=
  forall id cls, classCache st !! Some id = Some cls ->
    (Some id = root /\ cls = rootClass) \/ cls = Some (class_of client id).

(** An edge reported while [src] was expanded is built from the first row of
    the response for [src] that passes the filters with the edge's key. *)
Definition edge_origin (client : Client) (direction : Direction)
    (typeFilter : option string) (root rootClass : option string)
    (src : option string) (e : RelNode) : Prop :=
  exists c,
    first_with_key direction typeFilter src (edge_key e) (rows_of client src) = Some c
    /\ e = relNode c (rel_class e) (rel_depth e)
    /\ ((Some (rel_sys_id e) = root /\ rel_class e = rootClass)
        \/ rel_class e = Some (class_of client (rel_sys_id e))).

Definition provenance (client : Client) (direction : Direction)
    (typeFilter : option string) (root rootClass : option string) (st : TState) : Prop :=
  cache_sound client root rootClass st
  /\ allRels st = pushes (trace st)
  /\ forall src e, Pushed src e ∈ trace st ->
       edge_origin client direction typeFilter root rootClass src e.

(** Edges are reported only from nodes whose rows were fetched, and the edges
    reported from one node have pairwise different keys. *)
Definition dedup (st : TState) : Prop :=
  (forall src, src ∉ queried (trace st) -> pushed_from src (trace st) = [])
  /\ (forall src, NoDup (edge_key <$> pushed_from src (trace st))).

(** From [st] to [st'], no node that was already fetched is fetched again or
    reports another edge. *)
Definition frame (st st' : TState) : Prop :=
  forall src, src ∈ queried (trace st) ->
    src ∈ queried (trace st')
    /\ pushed_from src (trace st') = pushed_from src (trace st).

(** ** Requests that differ in one argument *)

Definition with_ci_name (v : option string) (args : Args) : Args :=
  {| arg_ci_name := v; arg_sys_id := arg_sys_id args; arg_depth := arg_depth args;
     arg_direction := arg_direction args; arg_type := arg_type args;
     arg_class := arg_class args; arg_impact := arg_impact args |}.

Definition with_depth (v : option Z) (args : Args) : Args :=
  {| arg_ci_name := arg_ci_name args; arg_sys_id := arg_sys_id args; arg_depth := v;
     arg_direction := arg_direction args; arg_type := arg_type args;
     arg_class := arg_class args; arg_impact := arg_impact args |}.

Definition with_direction (v : Direction) (args : Args) : Args :=
  {| arg_ci_name := arg_ci_name args; arg_sys_id := arg_sys_id args;
     arg_depth := arg_depth args; arg_direction := v; arg_type := arg_type args;
     arg_class := arg_class args; arg_impact := arg_impact args |}.

Definition with_class (v : option string) (args : Args) : Args :=
  {| arg_ci_name := arg_ci_name args; arg_sys_id := arg_sys_id args;
     arg_depth := arg_depth args; arg_direction := arg_direction args;
     arg_type := arg_type args; arg_class := v; arg_impact := arg_impact args |}.

Definition with_impact (v : bool) (args : Args) : Args :=
  {| arg_ci_name := arg_ci_name args; arg_sys_id := arg_sys_id args;
     arg_depth := arg_depth args; arg_direction := arg_direction args;
     arg_type := arg_type args; arg_class := arg_class args; arg_impact := v |}.

(** The call that resolves the root. *)
Definition is_root_call (ev : Event) : bool :=
  match ev with CallGetCi _ | CallFindCi _ => true | _ => false end.

(** ** A stub instance for the examples

    [stub cis rows] answers from a table of configuration items
    (sys_id, class) and a table of relationship rows; a configuration item is
    named after its sys_id. *)

Definition ref (id : string) : JsVal :=
  JObj [("display_value", JStr id); ("value", JStr id)].

Definition row (parent child type : string) : Rec :=
  {| rec_parent := ref parent; rec_child := ref child;
     rec_type := JObj [("display_value", JStr type); ("value", JStr type)] |}.

Definition touches (id : string) (r : Rec) : bool :=
  (String.eqb (extractValue (rec_parent r)) id
   || String.eqb (extractValue (rec_child r)) id)%bool.

Fixpoint class_in (cis : list (string * string)) (id : string) : option string :=
  match cis with
  | [] => None
  | (i, cls) :: rest => if String.eqb i id then Some cls else class_in rest id
  end.

Definition stub (cis : list (string * string)) (rows : list Rec) : Client :=
  {| get_ci := fun id =>
       Returned (option_map (fun cls => mkCi (Some id) (Some id) (Some cls))
                            (class_in cis id));
     find_ci := fun name =>
       Returned (Some match class_in cis name with
                      | Some cls => [mkCi (Some name) (Some name) (Some cls)]
                      | None => []
                      end);
     get_class := fun id =>
       match class_in cis id with
       | Some cls => Returned (Some cls)
       | None => Threw "No Record found (HTTP 404)"
       end;
     query_rels := fun id => Returned (Some (List.filter (touches id) rows)) |}.

Definition request (sys_id : string) (depth : Z) (direction : Direction) : Args :=
  {| arg_ci_name := None; arg_sys_id := Some sys_id; arg_depth := Some depth;
     arg_direction := direction; arg_type := None; arg_class := None;
     arg_impact := false |}.

Definition default_config : ServiceNowConfig := {| relDepth := 3 |}.

(** The cycle A -> B -> C -> A. *)
Definition cycle : Client :=
  stub [("A", "cmdb_ci_server"); ("B", "cmdb_ci_server"); ("C", "cmdb_ci_server")]
       [row "A" "B" "Depends on::Used by"; row "B" "C" "Depends on::Used by";
        row "C" "A" "Depends on::Used by"].

(** The first candidate of a response whose other endpoint is [oid] in
    direction [dir]. *)
Definition first_with (direction : Direction) (typeFilter : option string)
    (currentId : option string) (oid dir : string) (rows : list Rec) : option Candidate :=
  List.find (fun c => (String.eqb (otherId c) oid && String.eqb (relDir c) dir)%bool)
            (candidates direction typeFilter currentId rows).

(** The (other endpoint, direction) pair of a reported edge. *)
Definition edge_pair (e : RelNode) : string * string := (rel_sys_id e, rel_direction e).

(** Two relationship rows of different types from A to B, and C below both
    A and B. *)
Definition parallel : Client :=
  stub [("A", "cmdb_ci_service"); ("B", "cmdb_ci_server"); ("C", "cmdb_ci_database")]
       [row "A" "B" "Runs on::Runs"; row "A" "B" "Depends on::Used by";
        row "A" "C" "Depends on::Used by"; row "B" "C" "Depends on::Used by"].

Definition parallel_run : ToolResult * list Event :=
  Eval vm_compute in
    default (IsError "", []) (handler_run 5 (request "A" 2 downstream) parallel default_config).

(** The payload of a result, empty for an error. *)
Definition payload (r : ToolResult) : Payload :=
  match r with
  | Content p => p
  | IsError _ => mkPayload None None None [] 0 "" 0
  end.

(** A relationship row whose child is a bare 32-character sys_id. *)
Definition bare_id : string := "0123456789abcdef0123456789abcdef".

Definition bare : Client :=
  stub [("A", "cmdb_ci_server")]
       [{| rec_parent := ref "A"; rec_child := JStr bare_id;
           rec_type := JStr "Depends on::Used by" |}].

Definition bare_run : ToolResult * list Event :=
  Eval vm_compute in
    default (IsError "", []) (handler_run 5 (request "A" 1 both) bare default_config).

(** The instance that treats every failed row fetch as an empty response. *)
Definition absorb (client : Client) : Client :=
  {| get_ci := get_ci client;
     find_ci := find_ci client;
     get_class := get_class client;
     query_rels := fun id =>
       match query_rels client id with
       | Threw _ => Returned (Some [])
       | reply => reply
       end |}.

(** A -> B -> C where the rows of B cannot be fetched and no class lookup
    succeeds. *)
Definition flaky : Client :=
  {| get_ci := fun id =>
       Returned (Some (mkCi (Some id) (Some id) (Some "cmdb_ci_service")));
     find_ci := fun name =>
       Returned (Some [mkCi (Some name) (Some name) (Some "cmdb_ci_service")]);
     get_class := fun id => Threw "Request failed with HTTP 500";
     query_rels := fun id =>
       if String.eqb id "B" then Threw "Request failed with HTTP 500"
       else Returned (Some (List.filter (touches id)
                              [row "A" "B" "Depends on::Used by";
                               row "B" "C" "Depends on::Used by";
                               row "A" "C" "Depends on::Used by"])) |}.

(** ** What a class filter shows of an unfiltered run *)

(** [otherClass.toLowerCase().includes(c.toLowerCase())] on a reported edge
    that has a class. *)
Definition class_matches (c : string) (e : RelNode) : bool :=
  match rel_class e with
  | Some cls => includes (toLowerCase cls) (toLowerCase c)
  | None => false
  end.

Definition keep_event (c : string) (ev : Event) : bool :=
  match ev with
  | Pushed _ e => class_matches c e
  | _ => true
  end.

(** The state, and the result, of the unfiltered run with the edges of other
    classes removed; the remote calls are kept. *)
Definition view_state (c : string) (st : TState) : TState :=
  {| visited := visited st;
     classCache := classCache st;
     allRels := List.filter (class_matches c) (allRels st);
     trace := List.filter (keep_event c) (trace st) |}.

Definition class_view (c : string) (out : ToolResult * list Event)
    : ToolResult * list Event :=
  (match fst out with
   | Content p =>
       Content {| root_name := root_name p; root_class := root_class p;
                  root_sys_id := root_sys_id p;
                  relationships := List.filter (class_matches c) (relationships p);
                  meta_depth := meta_depth p;
                  meta_direction := meta_direction p;
                  meta_total := List.length (List.filter (class_matches c) (relationships p)) |}
   | IsError text => IsError text
   end,
   List.filter (keep_event c) (snd out)).

(** The chain R -> B -> C with B a switch and C a server. *)
Definition chain : Client :=
  stub [("R", "Router"); ("B", "Switch"); ("C", "Server")]
       [row "R" "B" "Connects to::Connected by"; row "B" "C" "Connects to::Connected by"].

(** A request that names the root both by [ci_name] and by [sys_id]. *)
Definition both_given : Args :=
  {| arg_ci_name := Some "B"; arg_sys_id := Some "A"; arg_depth := Some 1;
     arg_direction := both; arg_type := None; arg_class := None;
     arg_impact := false |}.

(** A string without the character [sep]. *)
Definition free_of (sep : ascii) (s : string) : bool :=
  all_chars (fun ch => negb (Ascii.eqb ch sep)) s.

(** The reported edges in direction [d]. *)
Definition shows (d : Direction) (e : RelNode) : bool :=
  String.eqb (rel_direction e) (dir_name d).

(** The chain X -> A -> Y. *)
Definition line : Client :=
  stub [("X", "cmdb_ci_service"); ("A", "cmdb_ci_server"); ("Y", "cmdb_ci_database")]
       [row "X" "A" "Depends on::Used by"; row "A" "Y" "Depends on::Used by"].

(** Outside the node being expanded, the cache agrees with the remote
    lookup. *)
Definition cache_ok (client : Client) (currentId : option string) (st : TState) : Prop :=
  forall id cls, classCache st !! Some id = Some cls -> Some id <> currentId ->
                 cls = Some (class_of client id).

(** Runs used as instances of the general statements. *)
Definition cycle_run : ToolResult * list Event :=
  Eval vm_compute in
    default (IsError "", []) (handler_run 5 (request "A" 9 both) cycle default_config).

Definition flaky_run : ToolResult * list Event :=
  Eval vm_compute in
    default (IsError "", []) (handler_run 5 (request "A" 3 both) flaky default_config).

Definition impact_run : ToolResult * list Event :=
  Eval vm_compute in
    default (IsError "", [])
            (handler_run 5 (with_impact true (request "A" 2 downstream)) line
                         default_config).

(** ** Further invariants of the traversal state *)

(** The class [handler] reports for a node: the root's as resolved, any other
    node's as [getClass] computes it from the remote lookup. *)
Definition node_class (client : Client) (root rootClass : option string)
    (id : string) : option string :=
  if is_id id root then rootClass else Some (class_of client id).

(** The cache still holds the root's class, every cached or reported class is
    the node's class, and the root's class was never looked up. *)
Definition classes_exact (client : Client) (root rootClass : option string)
    (st : TState) : Prop :=
  classCache st !! root = Some rootClass
  /\ (forall id cls, classCache st !! Some id = Some cls ->
        cls = node_class client root rootClass id)
  /\ (forall e, e ∈ allRels st ->
        rel_class e = node_class client root rootClass (rel_sys_id e))
  /\ (forall id, root = Some id -> id ∉ class_lookups (trace st)).

(** [level d id]: [id] is reached from the root in [d - 1] steps, each along
    a row of the response for the previous node that passes the self-loop
    guard and the direction and type filters. *)
Inductive level (client : Client) (direction : Direction)
    (typeFilter : option string) (root : option string) : Z -> option string -> Prop :=
| level_root : level client direction typeFilter root 1 root
| level_step d src c :
    level client direction typeFilter root d src ->
    c ∈ candidates direction typeFilter src (rows_of client src) ->
    level client direction typeFilter root (d + 1) (Some (otherId c)).

(** Every fetched node is fetched at one of its levels, and every edge is
    reported at a level of the node that was being expanded. *)
Definition levels_ok (client : Client) (maxDepth : Z) (direction : Direction)
    (typeFilter : option string) (root : option string) (st : TState) : Prop :=
  (forall id, id ∈ queried (trace st) ->
     exists d, 1 <= d <= maxDepth /\ level client direction typeFilter root d id)
  /\ (forall src e, Pushed src e ∈ trace st ->
        1 <= rel_depth e <= maxDepth
        /\ level client direction typeFilter root (rel_depth e) src).

(** Every reported edge passed the class filter. *)
Definition shown_only (classFilter : option string) (st : TState) : Prop :=
  forall e, e ∈ allRels st -> class_shown classFilter (rel_class e) = true.

(** ** What one expansion reports *)

(** The candidates that survive the dedup set, in order: the first candidate
    with each key that is not yet in [seen]. *)
Fixpoint fresh (seen : gset string) (cands : list Candidate) : list Candidate :=
  match cands with
  | [] => []
  | c :: rest =>
      if decide (pairKey c ∈ seen) then fresh seen rest
      else c :: fresh ({[pairKey c]} ∪ seen) rest
  end.

(** The edges for a list of candidates at level [d]: one per candidate whose
    class passes the class filter. *)
Definition edges_of (client : Client) (classFilter : option string)
    (root rootClass : option string) (d : Z) (cands : list Candidate) : list RelNode :=
  omap (fun c =>
          let cls := node_class client root rootClass (otherId c) in
          if class_shown classFilter cls then Some (relNode c cls d) else None)
       cands.

(** The edges the expansion of [src] at level [d] reports. *)
Definition expansion (client : Client) (direction : Direction)
    (typeFilter classFilter : option string) (root rootClass : option string)
    (src : option string) (d : Z) : list RelNode :=
  edges_of client classFilter root rootClass d
           (fresh ∅ (candidates direction typeFilter src (rows_of client src))).

(** A request on [parallel] with a type filter and a class filter. *)
Definition filtered_request : Args :=
  {| arg_ci_name := None; arg_sys_id := Some "A"; arg_depth := Some 2;
     arg_direction := both; arg_type := Some "DEPENDS"; arg_class := Some "Server";
     arg_impact := false |}.

Definition filtered_run : ToolResult * list Event :=
  Eval vm_compute in
    default (IsError "", []) (handler_run 5 filtered_request parallel default_config).

(** The instance that lists only the first record of a lookup by name. *)
Definition first_only (client : Client) : Client :=
  {| get_ci := get_ci client;
     find_ci := fun name =>
       match find_ci client name with
       | Returned (Some (ci :: _)) => Returned (Some [ci])
       | reply => reply
       end;
     get_class := get_class client;
     query_rels := query_rels client |}.

(** The request with every empty string argument removed. *)
Definition blank_as_absent (args : Args) : Args :=
  {| arg_ci_name := given (arg_ci_name args);
     arg_sys_id := given (arg_sys_id args);
     arg_depth := arg_depth args;
     arg_direction := arg_direction args;
     arg_type := given (arg_type args);
     arg_class := given (arg_class args);
     arg_impact := arg_impact args |}.

(** The record [handler] resolves the root from, if it finds one (lines
    85-110). *)
Definition root_record (args : Args) (client : Client) : option CiRecord :=
  match given (arg_sys_id args) with
  | Some sys_id =>
      match get_ci client sys_id with
      | Returned (Some ci) => Some ci
      | _ => None
      end
  | None =>
      match given (arg_ci_name args) with
      | Some name =>
          match find_ci client name with
          | Returned r => head (default [] r)
          | _ => None
          end
      | None => None
      end
  end.

(** Every class in the cache is a string. *)
Definition classes_defined (st : TState) : Prop :=
  forall id cls, classCache st !! id = Some cls -> is_Some cls.

(** [view_state] on the outcome of a traversal. *)
Definition view_outcome (c : string) (out : Outcome) : Outcome :=
  match out with
  | Done st => Done (view_state c st)
  | Raised error st => Raised error (view_state c st)
  end.

(** A -> B where the record of the root carries no class. *)
Definition classless : Client :=
  {| get_ci := fun id => Returned (Some (mkCi (Some id) (Some id) None));
     find_ci := fun name => Returned (Some [mkCi (Some name) (Some name) None]);
     get_class := fun id => Returned (Some "cmdb_ci_server");
     query_rels := fun id =>
       Returned (Some (List.filter (touches id) [row "A" "B" "Depends on::Used by"])) |}.

(** [flaky], except that the fetch of the rows of B is answered without a
    body. *)
Definition silent : Client :=
  {| get_ci := get_ci flaky;
     find_ci := find_ci flaky;
     get_class := get_class flaky;
     query_rels := fun id =>
       if String.eqb id "B" then NoBody else query_rels flaky id |}.

(** ** Configuration ([loadConfig])

    [process.env] as far as [loadConfig] reads it. *)

Record Env := mkEnv {
  SN_INSTANCE : option string;
  SN_USER : option string;
  SN_PASSWORD : option string;
  SN_DISPLAY_VALUE : option string;
  SN_REL_DEPTH : option string;
}.

(** [interface ServiceNowConfig], all five fields; [Number] is the type of
    the JavaScript numbers. *)
Record LoadedConfig (Number : Type) := mkLoaded {
  cfg_instance : string;
  cfg_user : string;
  cfg_password : string;
  cfg_displayValue : string;
  cfg_relDepth : Number;
}.
Arguments mkLoaded {Number} _ _ _ _ _.
Arguments cfg_instance {Number} _.
Arguments cfg_user {Number} _.
Arguments cfg_password {Number} _.
Arguments cfg_displayValue {Number} _.
Arguments cfg_relDepth {Number} _.

(** [s.replace(/\/+$/, "")] *)
Fixpoint strip_trailing_slashes (s : string) : string :=
  match s with
  | EmptyString => EmptyString
  | String c rest =>
      match strip_trailing_slashes rest with
      | EmptyString => if Ascii.eqb c "/" then EmptyString else String c EmptyString
      | stripped => String c stripped
      end
  end.

(** [parts.join(sep)] *)
Fixpoint join (sep : string) (parts : list string) : string :=
  match parts with
  | [] => ""
  | [p] => p
  | p :: rest => p ++ sep ++ join sep rest
  end.

Definition newline : string := String (ascii_of_nat 10) EmptyString.

(** The names pushed to [missing], in order. *)
Definition missing_variables (env : Env) : list string :=
  (match given (SN_INSTANCE env) with Some _ => [] | None => ["SN_INSTANCE"] end
   ++ match given (SN_USER env) with Some _ => [] | None => ["SN_USER"] end
   ++ match given (SN_PASSWORD env) with Some _ => [] | None => ["SN_PASSWORD"] end)%list.

Definition missing_help : string :=
  newline ++ newline
  ++ "Set them in your MCP client configuration:" ++ newline
  ++ "  SN_INSTANCE  — ServiceNow instance URL (e.g. https://yourinstance.service-now.com)"
  ++ newline
  ++ "  SN_USER      — ServiceNow username" ++ newline
  ++ "  SN_PASSWORD  — ServiceNow password" ++ newline.

Section LoadConfig.

(** The built-ins that compute [relDepth], and the literal [3]. *)
Variable Number : Type.
Variable parseInt10 : string -> Number.  (* [parseInt(s, 10)] *)
Variable isNaN : Number -> bool.
Variable three : Number.

(** [loadConfig]: the message of the thrown error, or the configuration. *)
Definition loadConfig (env : Env) : string + LoadedConfig Number :=
  let displayValue := default "true" (SN_DISPLAY_VALUE env) in
  let relDepth := parseInt10 (default "3" (SN_REL_DEPTH env)) in
  let missing := missing_variables env in
  if negb (Nat.eqb (List.length missing) 0)
  then inl ("Missing required environment variable(s): " ++ join ", " missing
            ++ missing_help)
  else
    let stripped := strip_trailing_slashes (default "" (SN_INSTANCE env)) in
    let normalizedInstance :=
      if negb (String.prefix "http" stripped) then "https://" ++ stripped
      else stripped in
    inr {| cfg_instance := normalizedInstance;
           cfg_user := default "" (SN_USER env);
           cfg_password := default "" (SN_PASSWORD env);
           cfg_displayValue := displayValue;
           cfg_relDepth := if isNaN relDepth then three else relDepth |}.

End LoadConfig.

(** An environment for the examples, and a reading of the built-ins that
    does not tell numbers apart. *)
Definition example_env : Env :=
  {| SN_INSTANCE := Some "dev12345.service-now.com//";
     SN_USER := Some "admin";
     SN_PASSWORD := Some "secret";
     SN_DISPLAY_VALUE := None;
     SN_REL_DEPTH := None |}.

Definition example_load (env : Env) : string + LoadedConfig unit :=
  loadConfig unit (fun _ => tt) (fun _ => false) tt env.

(** The number of nodes in a tree of [levels] levels in which every node has
    at most [n] children: [1 + n + n^2 + ...]. *)
Fixpoint fetch_bound (n levels : nat) : nat :=
  match levels with
  | O => O
  | S k => S (n * fetch_bound n k)
  end.

(* ===================================================================== *)
(** * Properties *)
(* ===================================================================== *)

(** ** Strings and identifiers *)

Lemma includes_empty (s : string) : includes s "" = true.
Proof. destruct s; reflexivity. Qed.

Lemma given_Some (o : option string) (s : string) :
  given o = Some s <-> o = Some s /\ s <> "".
Proof.
  unfold given. destruct o as [t|]; [|split; [discriminate | intros [? _]; discriminate]].
  destruct (String.eqb t "") eqn:E.
  - apply String.eqb_eq in E. subst. split; [discriminate|].
    intros [H Hne]. inversion H. subst. contradiction.
  - apply String.eqb_neq in E. split.
    + intros H. inversion H. subst. split; [reflexivity | assumption].
    + intros [H _]. inversion H. reflexivity.
Qed.

Lemma is_id_eq (s : string) (id : option string) : is_id s id = true <-> id = Some s.
Proof.
  destruct id as [i|]; simpl; [|split; discriminate].
  rewrite String.eqb_eq. split; [by intros -> | by intros [= ->]].
Qed.

Lemma is_id_neq (s : string) (id : option string) : is_id s id = false <-> id <> Some s.
Proof.
  rewrite <- is_id_eq. destruct (is_id s id); split; try done; intros H; by destruct H.
Qed.

Lemma is_id_refl (s : string) : is_id s (Some s) = true.
Proof. by apply is_id_eq. Qed.

Lemma same_id_eq (a b : option string) : same_id a b = true <-> a = b.
Proof.
  destruct a as [x|], b as [y|]; simpl.
  - rewrite String.eqb_eq. split; [by intros -> | by intros [= ->]].
  - split; discriminate.
  - split; discriminate.
  - by split.
Qed.

Lemma same_id_neq (a b : option string) : same_id a b = false <-> a <> b.
Proof.
  rewrite <- same_id_eq. destruct (same_id a b); split; try done; intros H; by destruct H.
Qed.

Lemma same_id_refl (a : option string) : same_id a a = true.
Proof. by apply same_id_eq. Qed.

(** ** Termination: the fuel *)

Section Fuel.

Variable client : Client.
Variable maxDepth : Z.
Variable direction : Direction.
Variable typeFilter classFilter : option string.

Abbreviation loop := (loop client maxDepth direction typeFilter classFilter).
Abbreviation traverse := (traverse client maxDepth direction typeFilter classFilter).

(** The loop returns or raises when every recursive call it can make does. *)
Lemma loop_returns recurse currentId currentDepth :
  (currentDepth < maxDepth -> forall id st, is_Some (recurse id st)) ->
  forall records seen st,
    is_Some (loop recurse currentId currentDepth records seen st).
Proof.
  intros Hrec records. induction records as [|rec rest IH]; intros seen st; simpl.
  - eauto.
  - destruct (candidate _ _ _ _) as [c|]; [|apply IH].
    destruct (decide _); [apply IH|].
    destruct (report _ _ _ _ _ _) as [st1|error st1]; [|eauto].
    destruct (currentDepth <? maxDepth) eqn:Hd; simpl; [|apply IH].
    destruct (bool_decide _); simpl; [apply IH|].
    apply Z.ltb_lt in Hd.
    destruct (Hrec Hd (Some (otherId c)) (visited_add (Some (otherId c)) st1))
      as [[st'|error st'] ->]; [apply IH | eauto].
Qed.

(** [traverse] returns or raises as soon as the fuel covers the levels that
    remain below [maxDepth]. *)
Lemma traverse_returns fuel :
  forall currentId currentDepth st,
    (1 <= fuel)%nat ->
    maxDepth - currentDepth < Z.of_nat fuel ->
    is_Some (traverse fuel currentId currentDepth st).
Proof.
  induction fuel as [|fuel IH]; intros currentId currentDepth st H1 Hfuel; [lia|].
  simpl. destruct (currentDepth >? maxDepth); [eauto|].
  destruct (query_rels client (id_text currentId)); [eauto | eauto |].
  apply loop_returns. intros Hd id st'. apply IH; lia.
Qed.

(** More fuel does not change how the loop and [traverse] end. *)
Lemma loop_mono recurse1 recurse2 currentId currentDepth :
  (forall id st out, recurse1 id st = Some out -> recurse2 id st = Some out) ->
  forall records seen st out,
    loop recurse1 currentId currentDepth records seen st = Some out ->
    loop recurse2 currentId currentDepth records seen st = Some out.
Proof.
  intros Hrec records. induction records as [|rec rest IH]; intros seen st out; simpl.
  - auto.
  - destruct (candidate _ _ _ _) as [c|]; [|apply IH].
    destruct (decide _); [apply IH|].
    destruct (report _ _ _ _ _ _) as [st1|error st1]; [|auto].
    destruct (_ && _)%bool; [|apply IH].
    destruct (recurse1 _ _) as [out1|] eqn:E1; [|discriminate].
    rewrite (Hrec _ _ _ E1). destruct out1; [apply IH | auto].
Qed.

Lemma traverse_mono fuel :
  forall fuel' currentId currentDepth st out,
    (fuel <= fuel')%nat ->
    traverse fuel currentId currentDepth st = Some out ->
    traverse fuel' currentId currentDepth st = Some out.
Proof.
  induction fuel as [|fuel IH]; intros fuel' currentId currentDepth st out Hle;
    [discriminate|].
  destruct fuel' as [|fuel']; [lia|]. simpl.
  destruct (currentDepth >? maxDepth); [auto|].
  destruct (query_rels client (id_text currentId)); [auto | auto |].
  apply loop_mono. intros id s s'. apply IH. lia.
Qed.

End Fuel.

Lemma clampDepth_range depth config : 1 <= clampDepth depth config <= 5.
Proof. unfold clampDepth. lia. Qed.

Lemma walk_returns fuel args client config calls rootId rootName rootClass :
  (5 <= fuel)%nat ->
  is_Some (walk fuel args client config calls rootId rootName rootClass).
Proof.
  intros Hfuel. unfold walk.
  pose proof (clampDepth_range (arg_depth args) config) as Hc.
  match goal with |- context [traverse ?c ?m ?d ?t ?k ?f ?i ?n ?s] =>
    destruct (traverse_returns c m d t k f i n s) as [[st|error st] ->];
      [lia | lia | eauto | eauto]
  end.
Qed.

(** [handler] returns a result for every request, on every instance: fuel [5]
    is enough, and more fuel gives the same result. *)
Lemma handler_run_total fuel args client config :
  (5 <= fuel)%nat ->
  is_Some (handler_run fuel args client config).
Proof.
  intros Hfuel. unfold handler_run.
  destruct (given (arg_ci_name args)), (given (arg_sys_id args)); eauto.
  - destruct (get_ci client s0) as [| |[ci|]]; eauto.
    destruct (given (ci_name ci)); eauto. by apply walk_returns.
  - destruct (find_ci client s) as [| |r]; eauto.
    destruct (default [] r); eauto. by apply walk_returns.
  - destruct (get_ci client s) as [| |[ci|]]; eauto.
    destruct (given (ci_name ci)); eauto. by apply walk_returns.
Qed.

Lemma walk_mono fuel fuel' args client config calls rootId rootName rootClass r :
  (fuel <= fuel')%nat ->
  walk fuel args client config calls rootId rootName rootClass = Some r ->
  walk fuel' args client config calls rootId rootName rootClass = Some r.
Proof.
  intros Hle. unfold walk.
  destruct (traverse _ _ _ _ _ fuel _ _ _) as [out|] eqn:E; [|discriminate].
  by rewrite (traverse_mono _ _ _ _ _ _ _ _ _ _ _ Hle E).
Qed.

Lemma handler_run_mono fuel fuel' args client config r :
  (fuel <= fuel')%nat ->
  handler_run fuel args client config = Some r ->
  handler_run fuel' args client config = Some r.
Proof.
  intros Hle. unfold handler_run.
  destruct (given (arg_ci_name args)), (given (arg_sys_id args)); auto.
  - destruct (get_ci client s0) as [| |[ci|]]; auto.
    destruct (given (ci_name ci)); auto. by apply walk_mono.
  - destruct (find_ci client s) as [| |res]; auto.
    destruct (default [] res); auto. by apply walk_mono.
  - destruct (get_ci client s) as [| |[ci|]]; auto.
    destruct (given (ci_name ci)); auto. by apply walk_mono.
Qed.

(** ** The state operations, seen through the observations *)

Section Operations.

Variable client : Client.
Variable classFilter : option string.

Lemma getClass_cases id st :
  (exists cls, classCache st !! Some id = Some cls /\ getClass client id st = (cls, st))
  \/ (classCache st !! Some id = None
      /\ getClass client id st
         = (Some (class_of client id),
            cache_set (Some id) (Some (class_of client id))
                      (observe (CallGetClass id) st))).
Proof.
  unfold getClass, class_of. destruct (classCache st !! Some id) as [cls|]; [left; eauto|].
  right. split; [reflexivity|]. destruct (get_class client id); reflexivity.
Qed.

(** [report] raises exactly when the class test does, in the state [getClass]
    left. *)
Lemma report_outcome currentId currentDepth c st :
  report client classFilter currentId currentDepth c st
  = match class_test classFilter (fst (getClass client (otherId c) st)) with
    | Some _ => Done (reported client classFilter currentId currentDepth c st)
    | None => Raised (type_error "undefined" "toLowerCase")
                     (reported client classFilter currentId currentDepth c st)
    end.
Proof.
  unfold reported, report. destruct (getClass client (otherId c) st) as [cls st1]. simpl.
  by destruct (class_test classFilter cls) as [[|]|].
Qed.

(** [report] looks the class up at most once and appends at most one edge,
    from the node being expanded. *)
Lemma report_cases currentId currentDepth c st :
  exists cls st1,
    getClass client (otherId c) st = (cls, st1)
    /\ reported client classFilter currentId currentDepth c st
       = if class_shown classFilter cls
         then push currentId (relNode c cls currentDepth) st1
         else st1.
Proof.
  unfold reported, report, class_shown.
  destruct (getClass client (otherId c) st) as [cls st1].
  exists cls, st1. split; [reflexivity|].
  by destruct (class_test classFilter cls) as [[|]|].
Qed.

Lemma report_done currentId currentDepth c st st1 :
  report client classFilter currentId currentDepth c st = Done st1 ->
  reported client classFilter currentId currentDepth c st = st1.
Proof. unfold reported. by intros ->. Qed.

Lemma report_raised currentId currentDepth c st error st1 :
  report client classFilter currentId currentDepth c st = Raised error st1 ->
  reported client classFilter currentId currentDepth c st = st1.
Proof. unfold reported. by intros ->. Qed.

Lemma report_visited currentId currentDepth c st :
  visited (reported client classFilter currentId currentDepth c st) = visited st.
Proof.
  destruct (report_cases currentId currentDepth c st) as (cls & st1 & Hg & ->).
  destruct (getClass_cases (otherId c) st) as [(cls' & _ & Hg')|[_ Hg']];
    rewrite Hg' in Hg; inversion Hg; subst; destruct (class_shown _ _); reflexivity.
Qed.

Lemma report_queried currentId currentDepth c st :
  queried (trace (reported client classFilter currentId currentDepth c st))
  = queried (trace st).
Proof.
  destruct (report_cases currentId currentDepth c st) as (cls & st1 & Hg & ->).
  destruct (getClass_cases (otherId c) st) as [(cls' & _ & Hg')|[_ Hg']];
    rewrite Hg' in Hg; inversion Hg; subst; destruct (class_shown _ _); simpl;
    unfold queried; rewrite ?omap_app; simpl; rewrite ?app_nil_r; reflexivity.
Qed.

End Operations.

(** ** Proof rules for the loop of [traverse]

    An invariant [I rows seen st] of the rows still to be processed, the dedup
    set and the state holds when the loop returns if each of the four ways
    through the loop body that lead on to the next row keeps it; [J] holds
    of the state in which the loop raises if it holds where [report] or the
    recursive call raise. *)

Section LoopRule.

Variable client : Client.
Variable maxDepth : Z.
Variable direction : Direction.
Variable typeFilter classFilter : option string.
Variable recurse : option string -> TState -> option Outcome.
Variable currentId : option string.
Variable currentDepth : Z.
Variable I : list Rec -> gset string -> TState -> Prop.
Variable J : TState -> Prop.

Abbreviation report' := (report client classFilter currentId currentDepth).

Hypothesis I_skip : forall rec rest seen st,
  I (rec :: rest) seen st ->
  candidate direction typeFilter currentId rec = None ->
  I rest seen st.

Hypothesis I_dup : forall rec rest seen st c,
  I (rec :: rest) seen st ->
  candidate direction typeFilter currentId rec = Some c ->
  pairKey c ∈ seen ->
  I rest seen st.

Hypothesis I_leaf : forall rec rest seen st c st1,
  I (rec :: rest) seen st ->
  candidate direction typeFilter currentId rec = Some c ->
  pairKey c ∉ seen ->
  report' c st = Done st1 ->
  ~ (currentDepth < maxDepth /\ Some (otherId c) ∉ visited st1) ->
  I rest ({[pairKey c]} ∪ seen) st1.

Hypothesis I_rec : forall rec rest seen st c st1 st',
  I (rec :: rest) seen st ->
  candidate direction typeFilter currentId rec = Some c ->
  pairKey c ∉ seen ->
  report' c st = Done st1 ->
  currentDepth < maxDepth ->
  Some (otherId c) ∉ visited st1 ->
  recurse (Some (otherId c)) (visited_add (Some (otherId c)) st1) = Some (Done st') ->
  I rest ({[pairKey c]} ∪ seen) st'.

Hypothesis J_report : forall rec rest seen st c error st1,
  I (rec :: rest) seen st ->
  candidate direction typeFilter currentId rec = Some c ->
  pairKey c ∉ seen ->
  report' c st = Raised error st1 ->
  J st1.

Hypothesis J_rec : forall rec rest seen st c st1 error st',
  I (rec :: rest) seen st ->
  candidate direction typeFilter currentId rec = Some c ->
  pairKey c ∉ seen ->
  report' c st = Done st1 ->
  currentDepth < maxDepth ->
  Some (otherId c) ∉ visited st1 ->
  recurse (Some (otherId c)) (visited_add (Some (otherId c)) st1)
    = Some (Raised error st') ->
  J st'.

Lemma loop_rule records :
  forall seen st out,
    I records seen st ->
    loop client maxDepth direction typeFilter classFilter
         recurse currentId currentDepth records seen st = Some out ->
    match out with
    | Done st' => exists seen', I [] seen' st'
    | Raised _ st' => J st'
    end.
Proof.
  induction records as [|rec rest IH]; intros seen st out HI Hrun; simpl in Hrun.
  - inversion Hrun; subst. eauto.
  - destruct (candidate direction typeFilter currentId rec) as [c|] eqn:Hc;
      [|eapply IH; eauto].
    destruct (decide (pairKey c ∈ seen)) as [Hin|Hnin]; [eapply IH; eauto|].
    destruct (report' c st) as [st1|error st1] eqn:Hreport;
      [|inversion Hrun; subst; eauto].
    destruct (currentDepth <? maxDepth) eqn:Hd; simpl in Hrun.
    + apply Z.ltb_lt in Hd.
      destruct (bool_decide (Some (otherId c) ∈ visited st1)) eqn:Hv; simpl in Hrun.
      * apply bool_decide_eq_true in Hv.
        eapply IH; [|exact Hrun]. eapply I_leaf; eauto. tauto.
      * apply bool_decide_eq_false in Hv.
        destruct (recurse _ _) as [[st2|error st2]|] eqn:Hr; [| |discriminate].
        -- eapply IH; [|exact Hrun]. eapply I_rec; eauto.
        -- inversion Hrun; subst. eauto.
    + apply Z.ltb_ge in Hd.
      eapply IH; [|exact Hrun]. eapply I_leaf; eauto. lia.
Qed.

End LoopRule.

(** The rule for an invariant that [report] and the recursive call keep
    whether they return or raise: it holds of the state in which the loop
    ends, for the rows that were left. *)

Section LoopInvariant.

Variable client : Client.
Variable maxDepth : Z.
Variable direction : Direction.
Variable typeFilter classFilter : option string.
Variable recurse : option string -> TState -> option Outcome.
Variable currentId : option string.
Variable currentDepth : Z.
Variable I : list Rec -> gset string -> TState -> Prop.

Abbreviation reported' := (reported client classFilter currentId currentDepth).

Hypothesis I_skip : forall rec rest seen st,
  I (rec :: rest) seen st ->
  candidate direction typeFilter currentId rec = None ->
  I rest seen st.

Hypothesis I_dup : forall rec rest seen st c,
  I (rec :: rest) seen st ->
  candidate direction typeFilter currentId rec = Some c ->
  pairKey c ∈ seen ->
  I rest seen st.

Hypothesis I_report : forall rec rest seen st c,
  I (rec :: rest) seen st ->
  candidate direction typeFilter currentId rec = Some c ->
  pairKey c ∉ seen ->
  I rest ({[pairKey c]} ∪ seen) (reported' c st).

Hypothesis I_rec : forall rec rest seen st c out,
  I (rec :: rest) seen st ->
  candidate direction typeFilter currentId rec = Some c ->
  pairKey c ∉ seen ->
  currentDepth < maxDepth ->
  Some (otherId c) ∉ visited (reported' c st) ->
  recurse (Some (otherId c)) (visited_add (Some (otherId c)) (reported' c st))
    = Some out ->
  I rest ({[pairKey c]} ∪ seen) (state_of out).

Lemma loop_invariant records :
  forall seen st out,
    I records seen st ->
    loop client maxDepth direction typeFilter classFilter
         recurse currentId currentDepth records seen st = Some out ->
    exists rest' seen',
      I rest' seen' (state_of out) /\ (forall st', out = Done st' -> rest' = []).
Proof.
  intros seen st out HI Hrun.
  pose (J := fun s : TState => exists rest' seen', I rest' seen' s).
  pose proof (loop_rule client maxDepth direction typeFilter classFilter recurse
                currentId currentDepth I J) as Hrule.
  specialize (Hrule I_skip I_dup).
  assert (match out with
          | Done st' => exists seen', I [] seen' st'
          | Raised _ st' => J st'
          end) as Hout.
  { eapply Hrule; [ | | | | exact HI | exact Hrun].
    - intros rec rest seen0 s c s1 Hs Hc Hnew Hrep _.
      rewrite <- (report_done _ _ _ _ _ _ _ Hrep). by eapply I_report.
    - intros rec rest seen0 s c s1 s' Hs Hc Hnew Hrep Hd Hnv Hrec.
      rewrite <- (report_done _ _ _ _ _ _ _ Hrep) in Hnv, Hrec.
      exact (I_rec _ _ _ _ _ _ Hs Hc Hnew Hd Hnv Hrec).
    - intros rec rest seen0 s c error s1 Hs Hc Hnew Hrep.
      rewrite <- (report_raised _ _ _ _ _ _ _ _ Hrep). eexists. eexists.
      by eapply I_report.
    - intros rec rest seen0 s c s1 error s' Hs Hc Hnew Hrep Hd Hnv Hrec.
      rewrite <- (report_done _ _ _ _ _ _ _ Hrep) in Hnv, Hrec.
      eexists. eexists. exact (I_rec _ _ _ _ _ _ Hs Hc Hnew Hd Hnv Hrec). }
  destruct out as [st'|error st']; simpl.
  - destruct Hout as (seen' & H). exists [], seen'. by split.
  - destruct Hout as (rest' & seen' & H). exists rest', seen'. split; [exact H|].
    intros ? [=].
Qed.

End LoopInvariant.

(** ** Each node is expanded at most once, each class looked up at most once *)

Section Once.

Variable client : Client.
Variable maxDepth : Z.
Variable direction : Direction.
Variable typeFilter classFilter : option string.

Abbreviation traverse := (traverse client maxDepth direction typeFilter classFilter).

Lemma expanded_once_report currentId currentDepth c st :
  expanded_once st ->
  expanded_once (reported client classFilter currentId currentDepth c st).
Proof.
  intros [Hv Hn]. split; rewrite report_queried; [|assumption].
  intros id Hid. rewrite report_visited. auto.
Qed.

Lemma expanded_once_enter id st :
  expanded_once st -> id ∉ visited st ->
  expanded_once (visited_add id st) /\ id ∉ queried (trace (visited_add id st)).
Proof.
  intros [Hv Hn] Hid. split; [split|]; simpl; [|assumption|].
  - intros i Hi. apply elem_of_union_r. auto.
  - intros Hq. apply Hid. auto.
Qed.

Lemma expanded_once_query id st :
  expanded_once st -> id ∈ visited st -> id ∉ queried (trace st) ->
  expanded_once (observe (CallQueryRels id) st).
Proof.
  intros [Hv Hn] Hid Hq. unfold expanded_once, queried. simpl.
  rewrite omap_app. simpl. fold (queried (trace st)). split.
  - intros i Hi. apply elem_of_app in Hi as [Hi|Hi]; [auto|].
    apply list_elem_of_singleton in Hi. by subst.
  - apply NoDup_app. split; [assumption|]. split; [|apply NoDup_singleton].
    intros i Hi Hi'. apply list_elem_of_singleton in Hi'. by subst.
Qed.

Lemma traverse_expanded_once fuel :
  forall id currentDepth st out,
    expanded_once st -> id ∈ visited st -> id ∉ queried (trace st) ->
    traverse fuel id currentDepth st = Some out ->
    expanded_once (state_of out).
Proof.
  induction fuel as [|fuel IH]; intros id currentDepth st out Hst Hv Hq Hrun;
    [discriminate|].
  simpl in Hrun. destruct (currentDepth >? maxDepth); [by inversion Hrun; subst|].
  pose proof (expanded_once_query _ _ Hst Hv Hq) as Hst1.
  destruct (query_rels client (id_text id)) as [| |result];
    [by inversion Hrun; subst | by inversion Hrun; subst |].
  eapply (loop_invariant _ _ _ _ _ _ _ _ (fun _ _ s => expanded_once s)) in Hrun;
    [by destruct Hrun as (? & ? & ? & _) | | | | | exact Hst1]; simpl.
  - auto.
  - auto.
  - intros. by apply expanded_once_report.
  - intros rec rest seen s c out' Hs _ _ _ Hnv Hrec.
    destruct (expanded_once_enter (Some (otherId c)) _
                (expanded_once_report id currentDepth c s Hs) Hnv) as [H1 H2].
    eapply IH; [exact H1 | | exact H2 | exact Hrec].
    simpl. apply elem_of_union_l, elem_of_singleton. reflexivity.
Qed.

Lemma class_once_report currentId currentDepth c st :
  class_once st ->
  class_once (reported client classFilter currentId currentDepth c st).
Proof.
  intros [Hc Hn].
  destruct (report_cases client classFilter currentId currentDepth c st)
    as (cls & st1 & Hg & ->).
  assert (class_once st1) as [Hc1 Hn1].
  { destruct (getClass_cases client (otherId c) st) as [(cls' & _ & Hg')|[Hnone Hg']];
      rewrite Hg' in Hg; inversion Hg; subst; [by split|].
    unfold class_once, class_lookups. simpl. rewrite omap_app. simpl.
    fold (class_lookups (trace st)). split.
    - intros i Hi. destruct (decide (i = otherId c)) as [->|Hne].
      + rewrite lookup_insert_eq. eauto.
      + rewrite lookup_insert_ne by congruence.
        apply elem_of_app in Hi as [Hi|Hi]; [auto|].
        apply list_elem_of_singleton in Hi. contradiction.
    - apply NoDup_app. split; [assumption|]. split; [|apply NoDup_singleton].
      intros i Hi Hi'. apply list_elem_of_singleton in Hi'. subst.
      apply Hc in Hi. rewrite Hnone in Hi. by destruct Hi. }
  destruct (class_shown _ _); [|by split].
  unfold class_once, class_lookups. simpl. rewrite omap_app. simpl.
  rewrite app_nil_r. by split.
Qed.

Lemma class_once_query id st :
  class_once st -> class_once (observe (CallQueryRels id) st).
Proof.
  intros [Hc Hn]. unfold class_once, class_lookups. simpl.
  rewrite omap_app. simpl. rewrite app_nil_r. by split.
Qed.

Lemma traverse_class_once fuel :
  forall id currentDepth st out,
    class_once st ->
    traverse fuel id currentDepth st = Some out ->
    class_once (state_of out).
Proof.
  induction fuel as [|fuel IH]; intros id currentDepth st out Hst Hrun; [discriminate|].
  simpl in Hrun. destruct (currentDepth >? maxDepth); [by inversion Hrun; subst|].
  pose proof (class_once_query id _ Hst) as Hst1.
  destruct (query_rels client (id_text id)) as [| |result];
    [by inversion Hrun; subst | by inversion Hrun; subst |].
  eapply (loop_invariant _ _ _ _ _ _ _ _ (fun _ _ s => class_once s)) in Hrun;
    [by destruct Hrun as (? & ? & ? & _) | | | | | exact Hst1]; simpl.
  - auto.
  - auto.
  - intros. by apply class_once_report.
  - intros rec rest seen s c out' Hs _ _ _ _ Hrec.
    eapply IH; [|exact Hrec].
    pose proof (class_once_report id currentDepth c s Hs) as [H1 H2]. by split.
Qed.

End Once.

(** ** Where a reported edge comes from *)

Lemma find_app_skip {A} (f : A -> bool) (l1 l2 : list A) :
  (forall x, x ∈ l1 -> f x = false) -> List.find f (l1 ++ l2) = List.find f l2.
Proof.
  induction l1 as [|a l1 IH]; intros H; simpl; [reflexivity|].
  rewrite (H a) by apply list_elem_of_here.
  apply IH. intros x Hx. apply H. by apply list_elem_of_further.
Qed.

Lemma edge_key_relNode c cls d : edge_key (relNode c cls d) = pairKey c.
Proof. reflexivity. Qed.

Section Provenance.

Variable client : Client.
Variable maxDepth : Z.
Variable direction : Direction.
Variable typeFilter classFilter : option string.
Variable root rootClass : option string.

Abbreviation traverse := (traverse client maxDepth direction typeFilter classFilter).
Abbreviation provenance' := (provenance client direction typeFilter root rootClass).

Lemma provenance_query id st :
  provenance' st -> provenance' (observe (CallQueryRels id) st).
Proof.
  intros (Hc & Hr & Hp). split; [exact Hc|]. split; simpl.
  - unfold pushes. rewrite omap_app. simpl. rewrite app_nil_r. exact Hr.
  - intros src e He. apply elem_of_app in He as [He|He]; [auto|].
    apply list_elem_of_singleton in He. discriminate.
Qed.

Lemma provenance_report currentId currentDepth c st :
  provenance' st ->
  first_with_key direction typeFilter currentId (pairKey c) (rows_of client currentId)
    = Some c ->
  provenance' (reported client classFilter currentId currentDepth c st).
Proof.
  intros (Hc & Hr & Hp) Hfirst.
  destruct (report_cases client classFilter currentId currentDepth c st)
    as (cls & st1 & Hg & ->).
  assert (provenance' st1
          /\ ((Some (otherId c) = root /\ cls = rootClass)
              \/ cls = Some (class_of client (otherId c)))) as [(Hc1 & Hr1 & Hp1) Hcls].
  { destruct (getClass_cases client (otherId c) st) as [(cls' & Hl & Hg')|[Hnone Hg']];
      rewrite Hg' in Hg; inversion Hg; subst.
    - split; [by repeat split|]. by apply Hc.
    - split; [|by right]. split; [|split]; simpl.
      + intros id k Hk. simpl in Hk.
        destruct (decide (id = otherId c)) as [->|Hne].
        * rewrite lookup_insert_eq in Hk. inversion Hk. by right.
        * rewrite lookup_insert_ne in Hk by congruence. by apply Hc.
      + unfold pushes. rewrite omap_app. simpl. rewrite app_nil_r. exact Hr.
      + intros src e He. apply elem_of_app in He as [He|He]; [auto|].
        apply list_elem_of_singleton in He. discriminate. }
  destruct (class_shown _ _); [|by repeat split].
  split; [exact Hc1|]. split; simpl.
  - unfold pushes. rewrite omap_app. simpl. fold (pushes (trace st1)). by rewrite Hr1.
  - intros src e He. apply elem_of_app in He as [He|He]; [auto|].
    apply list_elem_of_singleton in He. inversion He; subst.
    exists c. rewrite edge_key_relNode. by repeat split.
Qed.

Lemma traverse_provenance fuel :
  forall id currentDepth st out,
    provenance' st ->
    traverse fuel id currentDepth st = Some out ->
    provenance' (state_of out).
Proof.
  induction fuel as [|fuel IH]; intros id currentDepth st out Hst Hrun; [discriminate|].
  simpl in Hrun. destruct (currentDepth >? maxDepth); [by inversion Hrun; subst|].
  pose proof (provenance_query id _ Hst) as Hst1.
  destruct (query_rels client (id_text id)) as [| |result] eqn:Hq;
    [by inversion Hrun; subst | by inversion Hrun; subst |].
  assert (rows_of client id = default [] result) as Hrows
    by (unfold rows_of; by rewrite Hq).
  set (I := fun (rest : list Rec) (seen : gset string) (s : TState) =>
              provenance' s
              /\ exists past : list Rec, rows_of client id = (past ++ rest)%list
                   /\ forall k, k ∈ candidates direction typeFilter id past ->
                                pairKey k ∈ seen).
  assert (forall rec rest seen s c,
             I (rec :: rest) seen s ->
             candidate direction typeFilter id rec = Some c ->
             pairKey c ∉ seen ->
             I rest ({[pairKey c]} ∪ seen)
               (reported client classFilter id currentDepth c s)) as Hkeep.
  { intros rec rest seen s c (Hs & past & Hd & Hseen) Hcand Hnew. split.
    - apply provenance_report; [exact Hs|].
      unfold first_with_key, candidates. rewrite Hd, omap_app. simpl. rewrite Hcand.
      rewrite find_app_skip.
      + simpl. by rewrite String.eqb_refl.
      + intros k Hk. apply String.eqb_neq. intros Heq.
        apply Hnew. rewrite <- Heq. by apply Hseen.
    - exists (past ++ [rec])%list. split; [by rewrite <- app_assoc|].
      intros k Hk. unfold candidates in Hk. rewrite omap_app in Hk. simpl in Hk.
      rewrite Hcand in Hk. apply elem_of_app in Hk as [Hk|Hk].
      + apply elem_of_union_r. by apply Hseen.
      + apply list_elem_of_singleton in Hk. subst.
        apply elem_of_union_l, elem_of_singleton. reflexivity. }
  eapply (loop_invariant _ _ _ _ _ _ _ _ I) in Hrun.
  - by destruct Hrun as (rest' & seen' & (Hs & _) & _).
  - intros rec rest seen s (Hs & past & Hd & Hseen) Hcand. split; [exact Hs|].
    exists (past ++ [rec])%list. split; [by rewrite <- app_assoc|].
    intros k Hk. unfold candidates in Hk. rewrite omap_app in Hk. simpl in Hk.
    rewrite Hcand in Hk. rewrite app_nil_r in Hk. by apply Hseen.
  - intros rec rest seen s c (Hs & past & Hd & Hseen) Hcand Hin. split; [exact Hs|].
    exists (past ++ [rec])%list. split; [by rewrite <- app_assoc|].
    intros k Hk. unfold candidates in Hk. rewrite omap_app in Hk. simpl in Hk.
    rewrite Hcand in Hk. apply elem_of_app in Hk as [Hk|Hk]; [by apply Hseen|].
    apply list_elem_of_singleton in Hk. by subst.
  - intros rec rest seen s c HI Hcand Hnew. by eapply Hkeep.
  - intros rec rest seen s c out' HI Hcand Hnew _ _ Hrec.
    destruct (Hkeep _ _ _ _ _ HI Hcand Hnew) as (Hs2 & Hdone). split; [|exact Hdone].
    eapply IH; [|exact Hrec]. destruct Hs2 as (H1 & H2 & H3). by repeat split.
  - split; [exact Hst1|]. exists []. split; [by rewrite Hrows|].
    intros k Hk. by apply elem_of_nil in Hk.
Qed.

End Provenance.

(** ** Deduplication within one expansion *)

Section Dedup.

Variable client : Client.
Variable maxDepth : Z.
Variable direction : Direction.
Variable typeFilter classFilter : option string.

Abbreviation traverse := (traverse client maxDepth direction typeFilter classFilter).

Lemma report_pushed_from currentId currentDepth c st :
  exists l,
    (l = [] \/ exists cls, l = [relNode c cls currentDepth])
    /\ forall src,
         pushed_from src (trace (reported client classFilter currentId currentDepth c st))
         = (pushed_from src (trace st)
            ++ if same_id currentId src then l else [])%list.
Proof.
  destruct (report_cases client classFilter currentId currentDepth c st)
    as (cls & st1 & Hg & ->).
  assert (forall src, pushed_from src (trace st1) = pushed_from src (trace st)) as H1.
  { intros src.
    destruct (getClass_cases client (otherId c) st) as [(cls' & _ & Hg')|[_ Hg']];
      rewrite Hg' in Hg; inversion Hg; subst; [reflexivity|].
    simpl. unfold pushed_from. rewrite omap_app. simpl. by rewrite app_nil_r. }
  destruct (class_shown _ _).
  - exists [relNode c cls currentDepth]. split; [right; eauto|].
    intros src. simpl. unfold pushed_from at 1. rewrite omap_app. simpl.
    fold (pushed_from src (trace st1)). rewrite H1.
    by destruct (same_id currentId src).
  - exists []. split; [by left|]. intros src. rewrite H1.
    destruct (same_id currentId src); by rewrite app_nil_r.
Qed.

Lemma dedup_query id st :
  dedup st -> dedup (observe (CallQueryRels id) st).
Proof.
  intros [Hq Hn].
  assert (forall src, pushed_from src (trace (observe (CallQueryRels id) st))
                      = pushed_from src (trace st)) as Hsame.
  { intros src. simpl. unfold pushed_from. rewrite omap_app. simpl.
    by rewrite app_nil_r. }
  split; intros src; rewrite Hsame; [|apply Hn].
  intros Hsrc. apply Hq. intros Hin. apply Hsrc. simpl. unfold queried.
  rewrite omap_app. apply elem_of_app. by left.
Qed.

Lemma traverse_dedup fuel :
  forall id currentDepth st out,
    expanded_once st -> dedup st ->
    id ∈ visited st -> id ∉ queried (trace st) ->
    traverse fuel id currentDepth st = Some out ->
    dedup (state_of out) /\ frame st (state_of out).
Proof.
  induction fuel as [|fuel IH]; intros id currentDepth st out Hex Hst Hv Hnq Hrun;
    [discriminate|].
  simpl in Hrun.
  destruct (currentDepth >? maxDepth);
    [inversion Hrun; subst; split; [assumption | by intros src Hsrc]|].
  pose proof (expanded_once_query _ _ Hex Hv Hnq) as Hex1.
  pose proof (dedup_query id _ Hst) as Hst1.
  assert (frame st (observe (CallQueryRels id) st)) as Hfr1.
  { intros src Hsrc. simpl. unfold queried, pushed_from. rewrite !omap_app. simpl.
    rewrite app_nil_r. split; [|reflexivity]. apply elem_of_app. by left. }
  assert (id ∈ queried (trace (observe (CallQueryRels id) st))) as Hid1.
  { simpl. unfold queried. rewrite omap_app. simpl. apply elem_of_app. right.
    apply list_elem_of_here. }
  destruct (query_rels client (id_text id)) as [| |result];
    [inversion Hrun; subst; by split | inversion Hrun; subst; by split |].
  set (I := fun (_ : list Rec) (seen : gset string) (s : TState) =>
              expanded_once s /\ dedup s /\ id ∈ queried (trace s)
              /\ (forall e, e ∈ pushed_from id (trace s) -> edge_key e ∈ seen)
              /\ frame st s).
  assert (forall rec rest seen s c,
             I (rec :: rest) seen s ->
             pairKey c ∉ seen ->
             I rest ({[pairKey c]} ∪ seen)
               (reported client classFilter id currentDepth c s)) as Hkeep.
  { intros rec rest seen s c (Hes & [Hds1 Hds2] & Hids & Hkeys & Hfr) Hnew.
    destruct (report_pushed_from id currentDepth c s) as (l & Hl & Hpf).
    split; [by apply expanded_once_report|].
    split; [split|split; [|split]].
    - intros src Hsrc. rewrite report_queried in Hsrc. rewrite Hpf, (Hds1 _ Hsrc).
      destruct (same_id id src) eqn:E; [|reflexivity].
      apply same_id_eq in E. subst. contradiction.
    - intros src. rewrite Hpf. destruct (same_id id src) eqn:E;
        [|rewrite app_nil_r; apply Hds2].
      apply same_id_eq in E. subst src.
      destruct Hl as [->|[cls ->]]; [rewrite app_nil_r; apply Hds2|].
      rewrite fmap_app. apply NoDup_app. split; [apply Hds2|].
      split; [|apply NoDup_singleton].
      intros k Hk Hk'. apply list_elem_of_singleton in Hk'. subst k.
      apply list_elem_of_fmap in Hk as (e & He & Hin).
      apply Hnew. rewrite <- edge_key_relNode with (cls := cls) (d := currentDepth).
      rewrite He. by apply Hkeys.
    - by rewrite report_queried.
    - intros e He. rewrite Hpf, same_id_refl in He.
      apply elem_of_app in He as [He|He]; [apply elem_of_union_r; by apply Hkeys|].
      destruct Hl as [->|[cls ->]]; [by apply elem_of_nil in He|].
      apply list_elem_of_singleton in He. subst e.
      apply elem_of_union_l, elem_of_singleton. reflexivity.
    - intros src Hsrc. destruct (Hfr src Hsrc) as [Hq Hp].
      rewrite report_queried. split; [exact Hq|].
      rewrite Hpf, Hp. destruct (same_id id src) eqn:E; [|by rewrite app_nil_r].
      apply same_id_eq in E. subst. contradiction. }
  eapply (loop_invariant _ _ _ _ _ _ _ _ I) in Hrun.
  - destruct Hrun as (rest' & seen' & (_ & Hd' & _ & _ & Hfr') & _). by split.
  - intros rec rest seen s HI _. exact HI.
  - intros rec rest seen s c HI _ _. exact HI.
  - intros rec rest seen s c HI _ Hnew. by eapply Hkeep.
  - intros rec rest seen s c out' HI Hcand Hnew _ Hnv Hrec.
    destruct (Hkeep _ _ _ _ _ HI Hnew) as (Hes & Hds & Hids & Hkeys & Hfr).
    destruct (expanded_once_enter (Some (otherId c)) _ Hes Hnv) as [Hex2 Hnq2].
    assert (Some (otherId c) ∈ visited (visited_add (Some (otherId c))
              (reported client classFilter id currentDepth c s))) as Hv2
      by (simpl; apply elem_of_union_l, elem_of_singleton; reflexivity).
    destruct (IH _ _ _ _ Hex2 Hds Hv2 Hnq2 Hrec) as [Hd' Hfr'].
    pose proof (traverse_expanded_once _ _ _ _ _ _ _ _ _ _ Hex2 Hv2 Hnq2 Hrec) as Hex'.
    split; [exact Hex'|]. split; [exact Hd'|].
    destruct (Hfr' id Hids) as [Hq' Hp']. split; [exact Hq'|]. split.
    + intros e He. rewrite Hp' in He. by apply Hkeys.
    + intros src Hsrc. destruct (Hfr src Hsrc) as [Hq2 Hp2].
      destruct (Hfr' src Hq2) as [Hq3 Hp3]. split; [exact Hq3|].
      by rewrite Hp3.
  - split; [exact Hex1|]. split; [exact Hst1|]. split; [exact Hid1|].
    split; [|exact Hfr1].
    intros e He. destruct Hst as [Hq _]. simpl in He.
    unfold pushed_from in He. rewrite omap_app in He. simpl in He.
    rewrite app_nil_r in He. fold (pushed_from id (trace st)) in He.
    rewrite (Hq id Hnq) in He. by apply elem_of_nil in He.
Qed.

End Dedup.

(** ** From the result of [handler] to the traversal that produced it *)

Lemma handler_run_cases fuel args client config r tr :
  handler_run fuel args client config = Some (r, tr) ->
  (exists text, r = IsError text /\ (tr = [] \/ exists call, tr = [call] /\ is_root_call call = true))
  \/ (exists call rootId rootName rootClass out,
        is_root_call call = true
        /\ traverse client (clampDepth (arg_depth args) config) (effectiveDirection args)
                    (arg_type args) (arg_class args) fuel rootId 1
                    (initial_state [call] rootId rootClass) = Some out
        /\ tr = trace (state_of out)
        /\ match out with
           | Done st =>
               r = ok {| root_name := rootName; root_class := rootClass;
                         root_sys_id := rootId;
                         relationships := allRels st;
                         meta_depth := clampDepth (arg_depth args) config;
                         meta_direction := dir_name (effectiveDirection args);
                         meta_total := List.length (allRels st) |}
           | Raised error _ => r = err error
           end).
Proof.
  assert (forall call rootId rootName rootClass,
             is_root_call call = true ->
             walk fuel args client config [call] rootId rootName rootClass = Some (r, tr) ->
             exists call rootId rootName rootClass out,
               is_root_call call = true
               /\ traverse client (clampDepth (arg_depth args) config)
                    (effectiveDirection args) (arg_type args) (arg_class args)
                    fuel rootId 1 (initial_state [call] rootId rootClass) = Some out
               /\ tr = trace (state_of out)
               /\ match out with
                  | Done st =>
                      r = ok {| root_name := rootName; root_class := rootClass;
                                root_sys_id := rootId;
                                relationships := allRels st;
                                meta_depth := clampDepth (arg_depth args) config;
                                meta_direction := dir_name (effectiveDirection args);
                                meta_total := List.length (allRels st) |}
                  | Raised error _ => r = err error
                  end) as Hwalk.
  { intros call rootId rootName rootClass Hcall Hw. unfold walk in Hw.
    destruct (traverse _ _ _ _ _ _ _ _ _) as [[st|error st]|] eqn:E; [| |discriminate];
      inversion Hw; subst; eexists call, rootId, rootName, rootClass, _;
      (split; [exact Hcall|]); (split; [exact E|]); by split. }
  assert (forall text call, is_root_call call = true ->
             Some (IsError text, [call]) = Some (r, tr) ->
             exists text, r = IsError text
               /\ (tr = [] \/ exists call, tr = [call] /\ is_root_call call = true)) as Herr.
  { intros text call Hcall H. inversion H; subst. exists text. split; [reflexivity|].
    right. eauto. }
  unfold handler_run, err.
  destruct (given (arg_ci_name args)) as [name|], (given (arg_sys_id args)) as [id|].
  - destruct (get_ci client id) as [e| |[ci|]]; intros H;
      try (left; eapply Herr; [|exact H]; reflexivity).
    destruct (given (ci_name ci)); [|left; eapply Herr; [|exact H]; reflexivity].
    right. eapply Hwalk; [|exact H]; reflexivity.
  - destruct (find_ci client name) as [e| |res]; intros H;
      try (left; eapply Herr; [|exact H]; reflexivity).
    destruct (default [] res) as [|ci ?]; [left; eapply Herr; [|exact H]; reflexivity|].
    right. eapply Hwalk; [|exact H]; reflexivity.
  - destruct (get_ci client id) as [e| |[ci|]]; intros H;
      try (left; eapply Herr; [|exact H]; reflexivity).
    destruct (given (ci_name ci)); [|left; eapply Herr; [|exact H]; reflexivity].
    right. eapply Hwalk; [|exact H]; reflexivity.
  - intros H. inversion H; subst. left. eexists. split; [reflexivity|]. by left.
Qed.

(** A result with content comes from a traversal that returned. *)
Lemma handler_run_content fuel args client config p tr :
  handler_run fuel args client config = Some (Content p, tr) ->
  exists call rootId rootName rootClass st,
    is_root_call call = true
    /\ traverse client (clampDepth (arg_depth args) config) (effectiveDirection args)
                (arg_type args) (arg_class args) fuel rootId 1
                (initial_state [call] rootId rootClass) = Some (Done st)
    /\ p = {| root_name := rootName; root_class := rootClass;
              root_sys_id := rootId;
              relationships := allRels st;
              meta_depth := clampDepth (arg_depth args) config;
              meta_direction := dir_name (effectiveDirection args);
              meta_total := List.length (allRels st) |}
    /\ tr = trace st.
Proof.
  intros Hrun.
  destruct (handler_run_cases _ _ _ _ _ _ Hrun)
    as [(text & Habs & _)
       |(call & rootId & rootName & rootClass & [st|error st] & Hcall & Htr & -> & Hr)];
    [discriminate | | discriminate].
  inversion Hr. by exists call, rootId, rootName, rootClass, st.
Qed.

Lemma root_call_observations call :
  is_root_call call = true ->
  queried [call] = [] /\ class_lookups [call] = [] /\ pushes [call] = []
  /\ (forall src, pushed_from src [call] = [])
  /\ (forall src e, Pushed src e ∉ [call]).
Proof.
  intros H. destruct call; try discriminate; repeat split; try reflexivity;
    intros src e He; apply list_elem_of_singleton in He; discriminate.
Qed.

Lemma initial_expanded_once call rootId rootClass :
  is_root_call call = true ->
  expanded_once (initial_state [call] rootId rootClass)
  /\ rootId ∈ visited (initial_state [call] rootId rootClass)
  /\ rootId ∉ queried (trace (initial_state [call] rootId rootClass)).
Proof.
  intros H. destruct (root_call_observations call H) as (Hq & _).
  unfold initial_state, expanded_once. cbn [trace visited]. rewrite Hq.
  repeat split.
  - intros id Hid. by apply elem_of_nil in Hid.
  - apply NoDup_nil_2.
  - by apply elem_of_singleton.
  - apply not_elem_of_nil.
Qed.

Lemma initial_class_once call rootId rootClass :
  is_root_call call = true ->
  class_once (initial_state [call] rootId rootClass).
Proof.
  intros H. destruct (root_call_observations call H) as (_ & Hc & _).
  unfold class_once, initial_state. cbn [trace classCache]. rewrite Hc. split.
  - intros id Hid. by apply elem_of_nil in Hid.
  - apply NoDup_nil_2.
Qed.

Lemma initial_provenance client direction typeFilter call rootId rootClass :
  is_root_call call = true ->
  provenance client direction typeFilter rootId rootClass
             (initial_state [call] rootId rootClass).
Proof.
  intros H. destruct (root_call_observations call H) as (_ & _ & Hp & _ & Hn).
  split; [|split]; unfold initial_state; cbn [trace classCache allRels].
  - intros id cls Hl. cbn [classCache] in Hl.
    destruct (decide (Some id = rootId)) as [<-|Hne].
    + rewrite lookup_singleton_eq in Hl. inversion Hl. by left.
    + rewrite lookup_singleton_ne in Hl by congruence. discriminate.
  - by rewrite Hp.
  - intros src e He. by apply Hn in He.
Qed.

Lemma initial_dedup call rootId rootClass :
  is_root_call call = true ->
  dedup (initial_state [call] rootId rootClass).
Proof.
  intros H. destruct (root_call_observations call H) as (_ & _ & _ & Hp & _).
  split; intros src; unfold initial_state; cbn [trace]; rewrite Hp;
    [reflexivity | apply NoDup_nil_2].
Qed.

(** The invariants of a run, whether it returned content or an error. *)
Lemma handler_run_invariants fuel args client config r tr :
  handler_run fuel args client config = Some (r, tr) ->
  NoDup (queried tr) /\ NoDup (class_lookups tr).
Proof.
  intros Hrun.
  destruct (handler_run_cases _ _ _ _ _ _ Hrun)
    as [(text & _ & [->|(call & -> & Hcall)])
       |(call & rootId & rootName & rootClass & out & Hcall & Htr & -> & _)].
  - split; apply NoDup_nil_2.
  - destruct (root_call_observations call Hcall) as (-> & -> & _).
    split; apply NoDup_nil_2.
  - destruct (initial_expanded_once call rootId rootClass Hcall) as (H1 & H2 & H3).
    split.
    + by destruct (traverse_expanded_once _ _ _ _ _ _ _ _ _ _ H1 H2 H3 Htr).
    + pose proof (initial_class_once call rootId rootClass Hcall) as Hc.
      by destruct (traverse_class_once _ _ _ _ _ _ _ _ _ _ Hc Htr).
Qed.

(** ** At-most-once expansion and termination *)

(** C4. On every instance and for every request [handler] returns (fuel [5]
    is enough and more fuel gives the same result), and in the trace of the
    run no node has its relationship rows fetched twice.  On the cycle
    A -> B -> C -> A, a traversal from A with depth 5 returns a result and
    fetches the rows of A, B and C exactly once each. *)
Theorem expansion_at_most_once :
  (forall args client config,
     exists r tr,
       handler_run 5 args client config = Some (r, tr)
       /\ (forall fuel, (5 <= fuel)%nat ->
             handler_run fuel args client config = Some (r, tr))
       /\ NoDup (queried tr))
  /\ (exists p tr,
        handler_run 5 (request "A" 5 both) cycle default_config = Some (Content p, tr)
        /\ queried tr = [Some "A"; Some "B"; Some "C"]).
Proof.
  split.
  - intros args client config.
    destruct (handler_run_total 5 args client config) as [[r tr] Hrun]; [lia|].
    exists r, tr. split; [exact Hrun|]. split.
    + intros fuel Hfuel. by eapply handler_run_mono.
    + by destruct (handler_run_invariants _ _ _ _ _ _ Hrun).
  - eexists. eexists. split; [vm_compute; reflexivity|]. vm_compute. reflexivity.
Qed.

(** ** Per-expansion deduplication *)

Lemma length_app (s1 s2 : string) :
  String.length (s1 ++ s2) = (String.length s1 + String.length s2)%nat.
Proof. induction s1 as [|c s1 IH]; simpl; [reflexivity | by rewrite IH]. Qed.

Lemma app_cons (c : ascii) (a s : string) : String c a ++ s = String c (a ++ s).
Proof. reflexivity. Qed.

Lemma app_inv_tail (a b s : string) : a ++ s = b ++ s -> a = b.
Proof.
  revert b. induction a as [|c a IH]; intros [|c' b] H.
  - reflexivity.
  - apply (f_equal String.length) in H. rewrite !length_app in H. simpl in H. lia.
  - apply (f_equal String.length) in H. rewrite !length_app in H. simpl in H. lia.
  - rewrite !app_cons in H. injection H as -> H. f_equal. by apply IH.
Qed.

(** No key of a downstream edge is the key of an upstream edge. *)
Lemma key_dirs_differ (a b : string) : a ++ ":downstream" <> b ++ ":upstream".
Proof.
  revert b. induction a as [|c a IH]; intros b H.
  - destruct b as [|c0 [|c1 [|c2 b]]]; try discriminate.
    apply (f_equal String.length) in H. rewrite !length_app in H. simpl in H. lia.
  - destruct b as [|c0 b].
    + apply (f_equal String.length) in H. rewrite !length_app in H. simpl in H. lia.
    + rewrite !app_cons in H. injection H as _ H. by apply IH in H.
Qed.

Lemma candidate_relDir direction typeFilter currentId rec c :
  candidate direction typeFilter currentId rec = Some c ->
  relDir c = "downstream" \/ relDir c = "upstream".
Proof.
  unfold candidate.
  destruct (is_id (extractValue (rec_parent rec)) currentId);
    [|destruct (is_id (extractValue (rec_child rec)) currentId); [|discriminate]];
    (destruct (is_id _ currentId); [discriminate|]);
    (destruct (_ && _)%bool; [discriminate|]);
    (destruct (given typeFilter);
       [destruct (negb _); [discriminate|]|]);
    intros H; inversion H; simpl; auto.
Qed.

(** The dedup key identifies the (other endpoint, direction) pair. *)
Lemma pairKey_inj (c1 c2 : Candidate) :
  (relDir c1 = "downstream" \/ relDir c1 = "upstream") ->
  (relDir c2 = "downstream" \/ relDir c2 = "upstream") ->
  pairKey c1 = pairKey c2 ->
  otherId c1 = otherId c2 /\ relDir c1 = relDir c2.
Proof.
  unfold pairKey. intros [H1|H1] [H2|H2] H; rewrite H1, H2 in *.
  - split; [|reflexivity]. by apply app_inv_tail in H.
  - by apply key_dirs_differ in H.
  - symmetry in H. by apply key_dirs_differ in H.
  - split; [|reflexivity]. by apply app_inv_tail in H.
Qed.

Lemma find_ext_in {A} (f g : A -> bool) (l : list A) :
  (forall x, x ∈ l -> f x = g x) -> List.find f l = List.find g l.
Proof.
  induction l as [|a l IH]; intros H; simpl; [reflexivity|].
  rewrite <- (H a) by apply list_elem_of_here. destruct (f a); [reflexivity|].
  apply IH. intros x Hx. apply H. by apply list_elem_of_further.
Qed.

Lemma candidates_relDir direction typeFilter currentId rows c :
  c ∈ candidates direction typeFilter currentId rows ->
  relDir c = "downstream" \/ relDir c = "upstream".
Proof.
  unfold candidates. intros Hc. apply list_elem_of_omap in Hc as (rec & _ & Hc).
  by eapply candidate_relDir.
Qed.

Lemma first_with_key_pair direction typeFilter currentId rows c :
  first_with_key direction typeFilter currentId (pairKey c) rows = Some c ->
  first_with direction typeFilter currentId (otherId c) (relDir c) rows = Some c.
Proof.
  unfold first_with_key, first_with. intros H. rewrite <- H. apply find_ext_in.
  apply List.find_some in H as [Hin _]. apply list_elem_of_In in Hin.
  pose proof (candidates_relDir _ _ _ _ _ Hin) as Hc.
  intros x Hx. pose proof (candidates_relDir _ _ _ _ _ Hx) as Hd.
  destruct (String.eqb (pairKey x) (pairKey c)) eqn:E.
  - apply String.eqb_eq in E. destruct (pairKey_inj x c Hd Hc E) as [-> ->].
    by rewrite !String.eqb_refl.
  - apply String.eqb_neq in E. apply andb_false_iff.
    destruct (String.eqb (otherId x) (otherId c)) eqn:E1; [|by left]. right.
    apply String.eqb_neq. intros E2. apply String.eqb_eq in E1. apply E.
    unfold pairKey. by rewrite E1, E2.
Qed.

Lemma pushed_from_elem src e tr : e ∈ pushed_from src tr <-> Pushed src e ∈ tr.
Proof.
  unfold pushed_from. rewrite list_elem_of_omap. split.
  - intros (ev & Hev & H). destruct ev as [| | | |s e']; try discriminate.
    destruct (same_id s src) eqn:E; [|discriminate].
    apply same_id_eq in E. inversion H. by subst.
  - intros H. exists (Pushed src e). split; [exact H|]. by rewrite same_id_refl.
Qed.

Lemma pushes_elem e tr : e ∈ pushes tr <-> exists src, Pushed src e ∈ tr.
Proof.
  unfold pushes. rewrite list_elem_of_omap. split.
  - intros (ev & Hev & H). destruct ev as [| | | |s e']; try discriminate.
    inversion H. subst. eauto.
  - intros (src & H). exists (Pushed src e). by split.
Qed.

(** What the invariants say about the result of [handler]. *)
Lemma handler_run_sound fuel args client config p tr :
  handler_run fuel args client config = Some (Content p, tr) ->
  exists st,
    expanded_once st /\ class_once st /\ dedup st
    /\ provenance client (effectiveDirection args) (arg_type args)
                  (root_sys_id p) (root_class p) st
    /\ relationships p = allRels st /\ tr = trace st
    /\ meta_depth p = clampDepth (arg_depth args) config
    /\ meta_direction p = dir_name (effectiveDirection args)
    /\ meta_total p = List.length (allRels st).
Proof.
  intros Hrun.
  destruct (handler_run_content _ _ _ _ _ _ Hrun)
    as (call & rootId & rootName & rootClass & st & Hcall & Htr & -> & ->).
  simpl. exists st.
  destruct (initial_expanded_once call rootId rootClass Hcall) as (H1 & H2 & H3).
  split; [exact (traverse_expanded_once _ _ _ _ _ _ _ _ _ _ H1 H2 H3 Htr)|].
  split; [exact (traverse_class_once _ _ _ _ _ _ _ _ _ _
                   (initial_class_once call rootId rootClass Hcall) Htr)|].
  split; [exact (proj1 (traverse_dedup _ _ _ _ _ _ _ _ _ _ H1
                          (initial_dedup call rootId rootClass Hcall) H2 H3 Htr))|].
  split; [exact (traverse_provenance _ _ _ _ _ _ _ _ _ _ _ _
                   (initial_provenance _ _ _ call rootId rootClass Hcall) Htr)|].
  by repeat split.
Qed.

(** C5. In the result of [handler], the edges reported while one node was
    being expanded have pairwise different (other endpoint, direction) pairs,
    and each of them is built from the first row, among the rows of that
    node's response that pass the self-loop guard and the direction and type
    filters, with that pair: it carries that row's type text.  The reported
    edge list is the concatenation, in order, of what the expansions
    reported, so a pair may be reported again from another node: on the
    instance [parallel], expanding A reports B once, with the type of the
    first of the two rows between A and B, and the pair (C, downstream) is
    reported both from A and from B. *)
Theorem dedup_per_expansion :
  (forall fuel args client config p tr,
     handler_run fuel args client config = Some (Content p, tr) ->
     relationships p = pushes tr
     /\ forall src,
          NoDup (edge_pair <$> pushed_from src tr)
          /\ forall e, e ∈ pushed_from src tr ->
               exists c,
                 first_with (effectiveDirection args) (arg_type args) src
                            (rel_sys_id e) (rel_direction e) (rows_of client src) = Some c
                 /\ rel_type e = typeName c)
  /\ (exists p tr,
        handler_run 5 (request "A" 2 downstream) parallel default_config
          = Some (Content p, tr)
        /\ (edge_pair <$> pushed_from (Some "A") tr)
           = [("B", "downstream"); ("C", "downstream")]
        /\ (rel_type <$> pushed_from (Some "A") tr)
           = ["Runs on::Runs"; "Depends on::Used by"]
        /\ (edge_pair <$> pushed_from (Some "B") tr) = [("C", "downstream")]
        /\ (edge_pair <$> relationships p)
           = [("B", "downstream"); ("C", "downstream"); ("C", "downstream")]).
Proof.
  split; [|eexists; eexists; split; [vm_compute; reflexivity | by vm_compute]].
  intros fuel args client config p tr Hrun.
  destruct (handler_run_sound _ _ _ _ _ _ Hrun)
    as (st & _ & _ & [_ Hd] & (_ & Hrels & Hp) & Hr & -> & _).
  split; [by rewrite Hr|]. intros src. split.
  - specialize (Hd src). revert Hd. generalize (pushed_from src (trace st)).
    intros l. induction l as [|e l IH]; intros Hn; [apply NoDup_nil_2|].
    rewrite fmap_cons in Hn. apply NoDup_cons in Hn as [Hnin Hn].
    rewrite fmap_cons. apply NoDup_cons. split; [|by apply IH].
    intros Hin. apply Hnin. apply list_elem_of_fmap in Hin as (e' & He' & Hin).
    apply list_elem_of_fmap. exists e'. split; [|exact Hin].
    unfold edge_pair in He'. inversion He' as [[H1 H2]]. unfold edge_key.
    by rewrite H1, H2.
  - intros e He. apply pushed_from_elem in He.
    destruct (Hp src e He) as (c & Hfirst & He' & _).
    exists c. rewrite He' in Hfirst |- *. rewrite edge_key_relNode in Hfirst.
    simpl. split; [|reflexivity]. by apply first_with_key_pair.
Qed.

(** The general statement at the run on [parallel]. *)
Lemma dedup_per_expansion_witness :
  relationships (payload (fst parallel_run)) = pushes (snd parallel_run)
  /\ forall src,
       NoDup (edge_pair <$> pushed_from src (snd parallel_run))
       /\ forall e, e ∈ pushed_from src (snd parallel_run) ->
            exists c,
              first_with downstream None src (rel_sys_id e) (rel_direction e)
                         (rows_of parallel src) = Some c
              /\ rel_type e = typeName c.
Proof.
  apply (proj1 dedup_per_expansion 5%nat (request "A" 2 downstream) parallel
           default_config).
  vm_compute. reflexivity.
Defined.

(** ** The name of a reported edge *)

Lemma candidate_endpoint direction typeFilter currentId rec c :
  candidate direction typeFilter currentId rec = Some c ->
  exists field,
    (field = rec_parent rec \/ field = rec_child rec)
    /\ otherId c = extractValue field
    /\ otherName c = extractDisplay field
    /\ Some (otherId c) <> currentId.
Proof.
  unfold candidate.
  destruct (is_id (extractValue (rec_parent rec)) currentId);
    [exists (rec_child rec)
    |destruct (is_id (extractValue (rec_child rec)) currentId);
       [exists (rec_parent rec)|discriminate]];
    (destruct (is_id _ currentId) eqn:E; [discriminate|]);
    apply is_id_neq in E;
    (destruct (_ && _)%bool; [discriminate|]);
    (destruct (given typeFilter);
       [destruct (negb _); [discriminate|]|]);
    inversion H; simpl; repeat split; auto.
Qed.

Lemma first_with_key_row direction typeFilter currentId key rows c :
  first_with_key direction typeFilter currentId key rows = Some c ->
  exists rec, rec ∈ rows /\ candidate direction typeFilter currentId rec = Some c.
Proof.
  unfold first_with_key, candidates. intros H.
  apply List.find_some in H as [Hin _]. apply list_elem_of_In in Hin.
  by apply list_elem_of_omap in Hin.
Qed.

(** C10. Every reported edge is built from an endpoint field of a row of the
    response for the node that was being expanded: its [sys_id] is the id
    decoded from that field, and its [name] is the display name decoded from
    that field or, when that is empty, the [sys_id]. *)
Theorem name_falls_back_to_sys_id fuel args client config p tr
    (Hrun : handler_run fuel args client config = Some (Content p, tr)) :
  forall e, e ∈ relationships p ->
    exists src rec field,
      rec ∈ rows_of client src
      /\ (field = rec_parent rec \/ field = rec_child rec)
      /\ rel_sys_id e = extractValue field
      /\ rel_name e = (if String.eqb (extractDisplay field) "" then rel_sys_id e
                       else extractDisplay field).
Proof.
  destruct (handler_run_sound _ _ _ _ _ _ Hrun)
    as (st & _ & _ & _ & (_ & Hrels & Hp) & Hr & -> & _).
  intros e He. rewrite Hr, Hrels in He. apply pushes_elem in He as (src & He).
  destruct (Hp src e He) as (c & Hfirst & He' & _).
  destruct (first_with_key_row _ _ _ _ _ _ Hfirst) as (rec & Hrec & Hc).
  destruct (candidate_endpoint _ _ _ _ _ Hc) as (field & Hf & Hid & Hname & _).
  exists src, rec, field. rewrite He'. simpl. unfold str_or.
  rewrite <- Hid, <- Hname. by repeat split.
Qed.

(** On the instance [bare] the child of the only row is a bare sys_id: the
    edge is reported under that sys_id as its name. *)
Lemma name_falls_back_to_sys_id_witness :
  (forall e, e ∈ relationships (payload (fst bare_run)) ->
     exists src rec field,
       rec ∈ rows_of bare src
       /\ (field = rec_parent rec \/ field = rec_child rec)
       /\ rel_sys_id e = extractValue field
       /\ rel_name e = (if String.eqb (extractDisplay field) "" then rel_sys_id e
                        else extractDisplay field))
  /\ extractDisplay (JStr bare_id) = ""
  /\ (rel_name <$> relationships (payload (fst bare_run))) = [bare_id].
Proof.
  split; [|by vm_compute].
  apply (name_falls_back_to_sys_id 5 (request "A" 1 both) bare default_config _
           (snd bare_run)).
  vm_compute. reflexivity.
Defined.

(** ** Remote failures during the traversal *)

Section Absorb.

Variable client client' : Client.
Variable maxDepth : Z.
Variable direction : Direction.
Variable typeFilter classFilter : option string.
Hypothesis same_class : forall id, get_class client id = get_class client' id.

Lemma report_ext currentId currentDepth c st :
  report client classFilter currentId currentDepth c st
  = report client' classFilter currentId currentDepth c st.
Proof. unfold report, getClass. by rewrite same_class. Qed.

Lemma loop_ext recurse recurse' currentId currentDepth :
  (forall id st, recurse id st = recurse' id st) ->
  forall records seen st,
    loop client maxDepth direction typeFilter classFilter
         recurse currentId currentDepth records seen st
    = loop client' maxDepth direction typeFilter classFilter
           recurse' currentId currentDepth records seen st.
Proof.
  intros Hrec records. induction records as [|rec rest IH]; intros seen st; simpl;
    [reflexivity|].
  destruct (candidate _ _ _ _); [|apply IH].
  destruct (decide _); [apply IH|].
  rewrite report_ext. destruct (report client' _ _ _ _ _) as [st1|error st1];
    [|reflexivity].
  destruct (_ && _)%bool; [|apply IH].
  rewrite Hrec. destruct (recurse' _ _) as [[st2|error st2]|];
    [apply IH | reflexivity | reflexivity].
Qed.

End Absorb.

Lemma traverse_absorb client maxDepth direction typeFilter classFilter fuel :
  forall id currentDepth st,
    traverse client maxDepth direction typeFilter classFilter fuel id currentDepth st
    = traverse (absorb client) maxDepth direction typeFilter classFilter
               fuel id currentDepth st.
Proof.
  induction fuel as [|fuel IH]; intros id currentDepth st; simpl; [reflexivity|].
  destruct (currentDepth >? maxDepth); [reflexivity|].
  destruct (query_rels client (id_text id)) as [e| |result]; simpl;
    [reflexivity | reflexivity |].
  apply loop_ext; [reflexivity|]. intros. apply IH.
Qed.

Lemma class_of_unknown client id :
  (exists e, get_class client id = Threw e)
  \/ get_class client id = NoBody
  \/ get_class client id = Returned None
  \/ get_class client id = Returned (Some "") ->
  class_of client id = "unknown".
Proof.
  unfold class_of. intros [[e ->]|[->|[->| ->]]]; reflexivity.
Qed.

(** C7. A failed row fetch is an empty response: [handler] returns the same
    result, after the same calls, as on the instance that answers every
    failed row fetch with no rows, so the traversal goes on past the node
    whose rows could not be fetched.  No class is looked up twice, and every
    reported edge to a node other than the root carries the class [getClass]
    computes from the one lookup, which is ["unknown"] when the lookup
    failed, had no body or returned no class.  On the instance [flaky], where
    the rows of B cannot be fetched and every class lookup fails, the result
    has the edges found from A and from C, with class ["unknown"] for B and
    C, and B and C are looked up once each. *)
Theorem remote_failures_degrade :
  (forall fuel args client config,
     handler_run fuel args client config = handler_run fuel args (absorb client) config)
  /\ (forall fuel args client config r tr,
        handler_run fuel args client config = Some (r, tr) ->
        NoDup (class_lookups tr))
  /\ (forall fuel args client config p tr,
        handler_run fuel args client config = Some (Content p, tr) ->
        forall e, e ∈ relationships p -> Some (rel_sys_id e) <> root_sys_id p ->
          rel_class e = Some (class_of client (rel_sys_id e)))
  /\ (forall client id,
        (exists e, get_class client id = Threw e)
        \/ get_class client id = NoBody
        \/ get_class client id = Returned None
        \/ get_class client id = Returned (Some "") ->
        class_of client id = "unknown")
  /\ (exists p tr,
        handler_run 5 (request "A" 3 both) flaky default_config = Some (Content p, tr)
        /\ ((fun e => (rel_sys_id e, rel_class e, rel_depth e)) <$> relationships p)
           = [("B", Some "unknown", 1); ("C", Some "unknown", 1);
              ("B", Some "unknown", 2); ("A", Some "cmdb_ci_service", 2)]
        /\ queried tr = [Some "A"; Some "B"; Some "C"]
        /\ class_lookups tr = ["B"; "C"]).
Proof.
  split; [|split; [|split; [|split]]].
  - intros fuel args client config. unfold handler_run, walk.
    destruct (given (arg_ci_name args)), (given (arg_sys_id args));
      simpl; try reflexivity;
      repeat match goal with
             | |- context [match ?x with _ => _ end] =>
                 lazymatch x with
                 | traverse _ _ _ _ _ _ _ _ _ => fail
                 | _ => destruct x eqn:?; try reflexivity
                 end
             end;
      by rewrite traverse_absorb.
  - intros fuel args client config r tr Hrun.
    by destruct (handler_run_invariants _ _ _ _ _ _ Hrun).
  - intros fuel args client config p tr Hrun.
    destruct (handler_run_sound _ _ _ _ _ _ Hrun)
      as (st & _ & _ & _ & (_ & Hrels & Hp) & Hr & -> & _).
    intros e He Hne.
    rewrite Hr, Hrels in He. apply pushes_elem in He as (src & He).
    destruct (Hp src e He) as (c & _ & _ & [[Hroot _]|Hcls]); [contradiction|exact Hcls].
  - apply class_of_unknown.
  - eexists. eexists. split; [vm_compute; reflexivity|]. by vm_compute.
Qed.

(** ** Class filtering is display-only *)

Section ClassesDefined.

Variable client : Client.
Variable maxDepth : Z.
Variable direction : Direction.
Variable typeFilter classFilter : option string.

Lemma getClass_defined id st :
  classes_defined st ->
  is_Some (fst (getClass client id st))
  /\ classes_defined (snd (getClass client id st)).
Proof.
  intros Hst.
  destruct (getClass_cases client id st) as [(cls & Hl & ->)|[_ ->]]; simpl.
  - split; [by eapply Hst | exact Hst].
  - split; [eauto|]. intros i k Hk. simpl in Hk.
    destruct (decide (i = Some id)) as [->|Hne].
    + rewrite lookup_insert_eq in Hk. inversion Hk. eauto.
    + rewrite lookup_insert_ne in Hk by congruence. by eapply Hst.
Qed.

Lemma reported_defined currentId currentDepth c st :
  classes_defined st ->
  classes_defined (reported client classFilter currentId currentDepth c st).
Proof.
  intros Hst.
  destruct (report_cases client classFilter currentId currentDepth c st)
    as (cls & st1 & Hg & ->).
  destruct (getClass_defined (otherId c) st Hst) as [_ H1]. rewrite Hg in H1.
  by destruct (class_shown _ _).
Qed.

(** Without an undefined class in the cache, [report] does not raise. *)
Lemma report_defined currentId currentDepth c st :
  classes_defined st ->
  report client classFilter currentId currentDepth c st
  = Done (reported client classFilter currentId currentDepth c st).
Proof.
  intros Hst. rewrite report_outcome.
  destruct (getClass_defined (otherId c) st Hst) as [[cls ->] _].
  unfold class_test. by destruct (given classFilter).
Qed.

Lemma traverse_defined fuel :
  forall id currentDepth st out,
    classes_defined st ->
    traverse client maxDepth direction typeFilter classFilter fuel id currentDepth st
      = Some out ->
    classes_defined (state_of out).
Proof.
  induction fuel as [|fuel IH]; intros id currentDepth st out Hst Hrun; [discriminate|].
  simpl in Hrun. destruct (currentDepth >? maxDepth); [by inversion Hrun; subst|].
  destruct (query_rels client (id_text id)) as [| |result];
    [by inversion Hrun; subst | by inversion Hrun; subst |].
  eapply (loop_invariant _ _ _ _ _ _ _ _ (fun _ _ s => classes_defined s)) in Hrun;
    [by destruct Hrun as (? & ? & ? & _) | | | | | exact Hst]; simpl.
  - auto.
  - auto.
  - intros. by apply reported_defined.
  - intros rec rest seen s c out' Hs _ _ _ _ Hrec.
    eapply IH; [|exact Hrec]. by apply reported_defined.
Qed.

End ClassesDefined.

Section ClassView.

Variable client : Client.
Variable maxDepth : Z.
Variable direction : Direction.
Variable typeFilter : option string.
Variable c : string.

Lemma view_observe ev st :
  keep_event c ev = true ->
  view_state c (observe ev st) = observe ev (view_state c st).
Proof.
  intros Hev. unfold view_state, observe. simpl.
  rewrite List.filter_app. simpl. by rewrite Hev.
Qed.

Lemma view_push src e st :
  view_state c (push src e st)
  = if class_matches c e then push src e (view_state c st) else view_state c st.
Proof.
  unfold view_state, push. simpl. rewrite !List.filter_app. simpl.
  destruct (class_matches c e); [reflexivity | by rewrite !app_nil_r].
Qed.

Lemma class_test_matches cand cls d :
  class_test (Some c) (Some cls) = Some (class_matches c (relNode cand (Some cls) d)).
Proof.
  unfold class_test, class_matches, given. simpl.
  destruct (String.eqb c "") eqn:E; [|reflexivity].
  apply String.eqb_eq in E. subst. simpl. by rewrite includes_empty.
Qed.

Lemma getClass_view id st :
  getClass client id (view_state c st)
  = (fst (getClass client id st), view_state c (snd (getClass client id st))).
Proof.
  unfold getClass. change (classCache (view_state c st)) with (classCache st).
  destruct (classCache st !! Some id); [reflexivity|].
  destruct (get_class client id); cbn [fst snd];
    rewrite <- view_observe by reflexivity; reflexivity.
Qed.

Lemma report_view currentId currentDepth cand st :
  classes_defined st ->
  report client (Some c) currentId currentDepth cand (view_state c st)
  = view_outcome c (report client None currentId currentDepth cand st).
Proof.
  intros Hst. unfold report. rewrite getClass_view.
  destruct (getClass_defined client (otherId cand) st Hst) as [[cls Hcls] _].
  destruct (getClass client (otherId cand) st) as [k st1]. simpl in Hcls. subst k.
  cbn [fst snd]. rewrite (class_test_matches cand cls currentDepth).
  change (class_test None (Some cls)) with (Some true). cbn [view_outcome].
  rewrite view_push. by destruct (class_matches c _).
Qed.

Lemma loop_view recurse recurse' currentId currentDepth :
  (forall id st, classes_defined st ->
     recurse id (view_state c st) = view_outcome c <$> recurse' id st) ->
  (forall id st out, classes_defined st -> recurse' id st = Some out ->
     classes_defined (state_of out)) ->
  forall records seen st,
    classes_defined st ->
    loop client maxDepth direction typeFilter (Some c)
         recurse currentId currentDepth records seen (view_state c st)
    = view_outcome c <$> loop client maxDepth direction typeFilter None
                              recurse' currentId currentDepth records seen st.
Proof.
  intros Hrec Hdef records. induction records as [|rec rest IH]; intros seen st Hst; simpl;
    [reflexivity|].
  destruct (candidate _ _ _ _) as [cand|]; [|by apply IH].
  destruct (decide _); [by apply IH|].
  rewrite (report_view _ _ _ _ Hst).
  rewrite (report_defined client None currentId currentDepth cand st Hst).
  pose proof (reported_defined client None currentId currentDepth cand st Hst) as Hst1.
  cbn [view_outcome].
  change (visited (view_state c ?s)) with (visited s).
  destruct (_ && _)%bool; [|by apply IH].
  change (visited_add ?i (view_state c ?s)) with (view_state c (visited_add i s)).
  assert (classes_defined
            (visited_add (Some (otherId cand))
               (reported client None currentId currentDepth cand st))) as Hst2
    by exact Hst1.
  rewrite (Hrec _ _ Hst2).
  destruct (recurse' _ _) as [[st2|error st2]|] eqn:Hr; simpl;
    [|reflexivity | reflexivity].
  apply IH. exact (Hdef _ _ _ Hst2 Hr).
Qed.

Lemma traverse_view fuel :
  forall id currentDepth st,
    classes_defined st ->
    traverse client maxDepth direction typeFilter (Some c) fuel id currentDepth
             (view_state c st)
    = view_outcome c <$> traverse client maxDepth direction typeFilter None
                                  fuel id currentDepth st.
Proof.
  induction fuel as [|fuel IH]; intros id currentDepth st Hst; simpl; [reflexivity|].
  destruct (currentDepth >? maxDepth); [reflexivity|].
  rewrite <- view_observe by reflexivity.
  destruct (query_rels client (id_text id)) as [e| |result]; [reflexivity | reflexivity |].
  apply loop_view; [intros; by apply IH | | exact Hst].
  intros i s out Hs Hrun. by eapply traverse_defined.
Qed.

End ClassView.

Lemma walk_view fuel args client config call rootId rootName rootClass c :
  is_root_call call = true -> is_Some rootClass ->
  walk fuel (with_class (Some c) args) client config [call] rootId rootName rootClass
  = class_view c <$> walk fuel (with_class None args) client config [call]
                          rootId rootName rootClass.
Proof.
  intros Hcall Hclass. unfold walk. simpl.
  replace (initial_state [call] rootId rootClass)
    with (view_state c (initial_state [call] rootId rootClass)) at 1
    by (unfold view_state, initial_state; simpl; destruct call; try discriminate;
        reflexivity).
  rewrite traverse_view.
  - by destruct (traverse _ _ _ _ _ _ _ _ _) as [[st|error st]|].
  - intros id cls Hl. unfold initial_state in Hl. cbn [classCache] in Hl.
    destruct (decide (id = rootId)) as [->|Hne].
    + rewrite lookup_singleton_eq in Hl. by inversion Hl; subst.
    + rewrite lookup_singleton_ne in Hl by congruence. discriminate.
Qed.

Lemma class_view_queried c out : queried (snd (class_view c out)) = queried (snd out).
Proof.
  destruct out as [r tr]. simpl. induction tr as [|ev tr IH]; [reflexivity|].
  simpl. destruct ev; simpl; unfold queried in *; simpl; try exact IH;
    [by rewrite IH|].
  destruct (class_matches c e); simpl; exact IH.
Qed.

(** C2, where the code breaks it.  On the instance [classless] the record of
    the root A has no class and the row A -> B leads back to A when B is
    expanded.  Without a class filter [handler] reports the edge to B and the
    edge back to A.  With the class filter "server" it expands A and B as
    before and then fails: the test of line 214 calls [toLowerCase] on the
    undefined class of A, and the edge to B, which passes the filter, is
    lost with the result. *)
Theorem class_filter_raises_on_classless_root :
  (exists p tr,
     handler_run 5 (request "A" 2 both) classless default_config = Some (Content p, tr)
     /\ root_class p = None
     /\ ((fun e => (rel_sys_id e, rel_class e, rel_depth e)) <$> relationships p)
        = [("B", Some "cmdb_ci_server", 1); ("A", None, 2)]
     /\ queried tr = [Some "A"; Some "B"])
  /\ (exists text tr,
        handler_run 5 (with_class (Some "server") (request "A" 2 both)) classless
                    default_config = Some (IsError text, tr)
        /\ text = "ERROR: " ++ type_error "undefined" "toLowerCase"
        /\ queried tr = [Some "A"; Some "B"]
        /\ ((fun e => (rel_sys_id e, rel_class e, rel_depth e)) <$> pushes tr)
           = [("B", Some "cmdb_ci_server", 1)]).
Proof.
  split; eexists; eexists; (split; [vm_compute; reflexivity|]); by vm_compute.
Qed.

(** X15. When the record that resolves the root carries a class, the class
    filter [c] is display-only: [handler] returns what it returns without
    the filter, except that the edges whose class does not contain [c]
    (case-insensitively) are left out of the edge list and of its total; the
    remote calls, and so the nodes expanded, are the same, in the same
    order. *)
Theorem class_filter_is_display_only fuel args client config c
    (Hclass : forall ci, root_record args client = Some ci ->
                         is_Some (ci_sys_class_name ci)) :
  handler_run fuel (with_class (Some c) args) client config
  = class_view c <$> handler_run fuel (with_class None args) client config
  /\ forall out, queried (snd (class_view c out)) = queried (snd out).
Proof.
  split; [|apply class_view_queried].
  revert Hclass. unfold root_record, handler_run. simpl.
  destruct (given (arg_ci_name args)) as [name|], (given (arg_sys_id args)) as [id|];
    intros Hclass; try reflexivity.
  - destruct (get_ci client id) as [e| |[ci|]]; try reflexivity.
    destruct (given (ci_name ci)); [|reflexivity].
    apply walk_view; [reflexivity | by apply Hclass].
  - destruct (find_ci client name) as [e| |res]; try reflexivity.
    destruct (default [] res) as [|ci ?]; [reflexivity|].
    apply walk_view; [reflexivity | by apply Hclass].
  - destruct (get_ci client id) as [e| |[ci|]]; try reflexivity.
    destruct (given (ci_name ci)); [|reflexivity].
    apply walk_view; [reflexivity | by apply Hclass].
Qed.

(** On the chain R -> B (a switch) -> C (a server), depth 2 and class filter
    "Server" report the edge to C and not the edge to B, and B is expanded. *)
Lemma class_filter_is_display_only_witness :
  (handler_run 5 (with_class (Some "Server") (request "R" 2 both)) chain default_config
   = class_view "Server"
       <$> handler_run 5 (with_class None (request "R" 2 both)) chain default_config
   /\ forall out, queried (snd (class_view "Server" out)) = queried (snd out))
  /\ exists p tr,
       handler_run 5 (with_class (Some "Server") (request "R" 2 both)) chain
                   default_config = Some (Content p, tr)
       /\ ((fun e => (rel_sys_id e, rel_class e)) <$> relationships p)
          = [("C", Some "Server")]
       /\ queried tr = [Some "R"; Some "B"].
Proof.
  split.
  - apply (class_filter_is_display_only 5%nat (request "R" 2 both) chain default_config
             "Server").
    intros ci Hci. vm_compute in Hci. inversion Hci. simpl. eauto.
  - eexists. eexists. split; [vm_compute; reflexivity|]. by vm_compute.
Defined.

(** ** Depth clamping *)

Section DepthBound.

Variable client : Client.
Variable maxDepth : Z.
Variable direction : Direction.
Variable typeFilter classFilter : option string.

(** Every reported edge was found at a level between 1 and [maxDepth]. *)
Lemma traverse_depth_bound fuel :
  forall id currentDepth st out,
    (forall e, e ∈ allRels st -> 1 <= rel_depth e <= maxDepth) ->
    1 <= currentDepth ->
    traverse client maxDepth direction typeFilter classFilter fuel id currentDepth st
      = Some out ->
    forall e, e ∈ allRels (state_of out) -> 1 <= rel_depth e <= maxDepth.
Proof.
  induction fuel as [|fuel IH]; intros id currentDepth st out Hst Hd Hrun; [discriminate|].
  simpl in Hrun. destruct (currentDepth >? maxDepth) eqn:Hgt; [by inversion Hrun; subst|].
  assert (currentDepth <= maxDepth) as Hle by lia.
  destruct (query_rels client (id_text id)) as [| |result];
    [by inversion Hrun; subst | by inversion Hrun; subst |].
  assert (forall c s,
             (forall e, e ∈ allRels s -> 1 <= rel_depth e <= maxDepth) ->
             forall e, e ∈ allRels (reported client classFilter id currentDepth c s) ->
                       1 <= rel_depth e <= maxDepth) as Hreport.
  { intros c s Hs e He.
    destruct (report_cases client classFilter id currentDepth c s)
      as (cls & s1 & Hg & Hr). rewrite Hr in He.
    assert (allRels s1 = allRels s) as Hsame.
    { destruct (getClass_cases client (otherId c) s) as [(cls' & _ & Hg')|[_ Hg']];
        rewrite Hg' in Hg; by inversion Hg. }
    destruct (class_shown _ _); simpl in He; rewrite Hsame in He; [|by apply Hs].
    apply elem_of_app in He as [He|He]; [by apply Hs|].
    apply list_elem_of_singleton in He. subst. simpl. lia. }
  eapply (loop_invariant _ _ _ _ _ _ _ _
            (fun _ _ s => forall e, e ∈ allRels s -> 1 <= rel_depth e <= maxDepth))
    in Hrun; [by destruct Hrun as (? & ? & ? & _) | | | | | exact Hst]; simpl.
  - auto.
  - auto.
  - intros rec rest seen s c Hs _ _. by apply Hreport.
  - intros rec rest seen s c out' Hs _ _ _ _ Hrec.
    eapply IH; [| | exact Hrec]; [|lia]. simpl. by apply Hreport.
Qed.

End DepthBound.

Lemma handler_run_depth fuel args client config d d' :
  clampDepth (Some d) config = clampDepth (Some d') config ->
  handler_run fuel (with_depth (Some d) args) client config
  = handler_run fuel (with_depth (Some d') args) client config.
Proof.
  intros H. unfold handler_run, walk. simpl. by rewrite H.
Qed.

(** Every edge of a result was found at a level between 1 and the depth
    [handler] uses. *)
Lemma handler_run_depth_bound fuel args client config p tr :
  handler_run fuel args client config = Some (Content p, tr) ->
  forall e, e ∈ relationships p ->
    1 <= rel_depth e <= clampDepth (arg_depth args) config.
Proof.
  intros Hrun.
  destruct (handler_run_content _ _ _ _ _ _ Hrun)
    as (call & rootId & rootName & rootClass & st & Hcall & Htr & -> & ->).
  simpl.
  eapply (traverse_depth_bound _ _ _ _ _ _ _ _ _ (Done st)); [| |exact Htr]; [|lia].
  intros e He. simpl in He. by apply elem_of_nil in He.
Qed.

(** C3. The depth [handler] uses is the requested depth (the configured
    default when none is requested) clamped into [1, 5]: it is what
    [meta.depth] reports, every reported edge was found at a level between 1
    and it, and a request gets the result of the same request with the depth
    replaced by its clamp; so depth 0 gets the result of depth 1, and depth 9
    that of depth 5, on every instance. *)
Theorem depth_is_clamped :
  (forall depth config, 1 <= clampDepth depth config <= 5)
  /\ (forall d config,
        clampDepth (Some d) config = if d <? 1 then 1 else if 5 <? d then 5 else d)
  /\ (forall fuel args client config d,
        handler_run fuel (with_depth (Some d) args) client config
        = handler_run fuel (with_depth (Some (clampDepth (Some d) config)) args)
                      client config)
  /\ (forall fuel args client config,
        handler_run fuel (with_depth (Some 0) args) client config
        = handler_run fuel (with_depth (Some 1) args) client config)
  /\ (forall fuel args client config,
        handler_run fuel (with_depth (Some 9) args) client config
        = handler_run fuel (with_depth (Some 5) args) client config)
  /\ (forall fuel args client config p tr,
        handler_run fuel args client config = Some (Content p, tr) ->
        meta_depth p = clampDepth (arg_depth args) config
        /\ forall e, e ∈ relationships p ->
             1 <= rel_depth e <= clampDepth (arg_depth args) config).
Proof.
  split; [apply clampDepth_range|].
  split; [intros d config; unfold clampDepth; simpl;
          destruct (d <? 1) eqn:E1; [lia|]; destruct (5 <? d) eqn:E2; lia|].
  split; [intros; apply handler_run_depth; unfold clampDepth; simpl; lia|].
  split; [intros; by apply handler_run_depth|].
  split; [intros; by apply handler_run_depth|].
  intros fuel args client config p tr Hrun.
  destruct (handler_run_content _ _ _ _ _ _ Hrun)
    as (call & rootId & rootName & rootClass & st & Hcall & Htr & -> & ->).
  simpl. split; [reflexivity|].
  eapply (traverse_depth_bound _ _ _ _ _ _ _ _ _ (Done st)); [| |exact Htr]; [|lia].
  intros e He. simpl in He. by apply elem_of_nil in He.
Qed.

(** ** Impact mode *)

Lemma candidate_direction direction typeFilter currentId rec c :
  candidate direction typeFilter currentId rec = Some c ->
  direction <> both ->
  relDir c = dir_name direction.
Proof.
  unfold candidate. intros H Hdir. revert H.
  destruct (is_id (extractValue (rec_parent rec)) currentId);
    [|destruct (is_id (extractValue (rec_child rec)) currentId)];
    try (intros H; discriminate H).
  all: destruct (is_id _ currentId); try (intros H; discriminate H).
  all: destruct direction; [| |congruence].
  all: destruct (_ && _)%bool eqn:E; try (intros H; discriminate H).
  all: vm_compute in E; try discriminate E.
  all: destruct (given typeFilter); [destruct (negb _)|];
    try (intros H; discriminate H).
  all: intros H; inversion H; reflexivity.
Qed.

(** C9. With [impact] set, [handler] returns, for any supplied direction,
    what it returns for direction upstream without [impact]: [meta.direction]
    is "upstream" and every reported edge is an upstream edge.  Without
    [impact] the supplied direction, "both" when none is supplied, is the one
    used and reported. *)
Theorem impact_forces_upstream :
  (forall fuel args client config d,
     handler_run fuel (with_impact true (with_direction d args)) client config
     = handler_run fuel (with_impact false (with_direction upstream args)) client config)
  /\ (forall fuel args client config p tr,
        handler_run fuel args client config = Some (Content p, tr) ->
        meta_direction p
        = (if arg_impact args then "upstream" else dir_name (arg_direction args))
        /\ (arg_impact args = true ->
            forall e, e ∈ relationships p -> rel_direction e = "upstream"))
  /\ (forall raw,
        effectiveDirection (schema raw)
        = match raw_impact raw with
          | Some true => upstream
          | _ => default both (raw_direction raw)
          end).
Proof.
  split; [reflexivity|]. split.
  - intros fuel args client config p tr Hrun.
    destruct (handler_run_sound _ _ _ _ _ _ Hrun)
      as (st & _ & _ & _ & (_ & Hrels & Hp) & Hr & -> & _ & Hdir & _).
    split; [rewrite Hdir; unfold effectiveDirection; by destruct (arg_impact args)|].
    intros Himpact e He. rewrite Hr, Hrels in He. apply pushes_elem in He as (src & He).
    destruct (Hp src e He) as (c & Hfirst & He' & _).
    destruct (first_with_key_row _ _ _ _ _ _ Hfirst) as (rec & _ & Hc).
    rewrite He'. simpl. unfold effectiveDirection in Hc. rewrite Himpact in Hc.
    by apply candidate_direction in Hc.
  - intros raw. unfold effectiveDirection, schema. simpl.
    by destruct (raw_impact raw) as [[|]|].
Qed.

(** ** Root resolution: which of [ci_name] and [sys_id] is used *)

(** C1, as the code has it.  When neither [ci_name] nor [sys_id] is supplied
    (absent or empty), [handler] fails with the validation error before any
    remote call.  When [sys_id] is supplied, [ci_name] is not looked at: the
    result is that of the same request without [ci_name]. *)
Theorem root_validation :
  (forall fuel args client config,
     given (arg_ci_name args) = None -> given (arg_sys_id args) = None ->
     handler_run fuel args client config
     = Some (err "Either ci_name or sys_id is required", []))
  /\ (forall fuel args client config id,
        given (arg_sys_id args) = Some id ->
        handler_run fuel args client config
        = handler_run fuel (with_ci_name None args) client config).
Proof.
  split.
  - intros fuel args client config Hn Hi. unfold handler_run. by rewrite Hn, Hi.
  - intros fuel args client config id Hi. unfold handler_run. simpl. rewrite Hi.
    by destruct (given (arg_ci_name args)).
Qed.

(** A request with both [ci_name] ("B") and [sys_id] ("A") is not rejected:
    the root is resolved by [sys_id] and the traversal runs. *)
Lemma root_validation_counterexample :
  given (arg_ci_name both_given) = Some "B"
  /\ given (arg_sys_id both_given) = Some "A"
  /\ exists p tr,
       handler_run 5 both_given cycle default_config = Some (Content p, tr)
       /\ root_sys_id p = Some "A"
       /\ tr <> []
       /\ queried tr = [Some "A"].
Proof.
  split; [reflexivity|]. split; [reflexivity|].
  eexists. eexists. split; [vm_compute; reflexivity|]. by vm_compute.
Qed.

Lemma root_validation_witness :
  handler_run 0 (with_ci_name (Some "") (request "" 1 both)) cycle default_config
  = Some (err "Either ci_name or sys_id is required", [])
  /\ handler_run 5 both_given cycle default_config
     = handler_run 5 (with_ci_name None both_given) cycle default_config.
Proof.
  split.
  - apply (proj1 root_validation); reflexivity.
  - apply (proj2 root_validation 5%nat both_given cycle default_config "A"). reflexivity.
Defined.

(** ** Reference Resolver *)

Lemma split_nonempty sep s : split sep s <> [].
Proof.
  destruct s as [|ch s]; simpl; [discriminate|].
  destruct (Ascii.eqb ch sep); [discriminate|]. by destruct (split sep s).
Qed.

Lemma split_free sep s : free_of sep s = true -> split sep s = [s].
Proof.
  unfold free_of. induction s as [|ch s IH]; simpl; [reflexivity|].
  intros H. apply andb_true_iff in H as [Hc Hs].
  apply negb_true_iff in Hc. rewrite Hc, (IH Hs). reflexivity.
Qed.

(** Splitting around one separator. *)
Lemma split_app sep (a b : string) :
  split sep (a ++ String sep b) = (split sep a ++ split sep b)%list.
Proof.
  induction a as [|ch a IH].
  - change ("" ++ String sep b) with (String sep b). simpl.
    by rewrite Ascii.eqb_refl.
  - rewrite app_cons. simpl. rewrite IH. destruct (Ascii.eqb ch sep); [reflexivity|].
    pose proof (split_nonempty sep a) as Hne. by destruct (split sep a).
Qed.

(** The last part of a link is what follows its last slash. *)
Lemma last_part_split (a b : string) :
  free_of "/" b = true -> last_part (split "/" (a ++ String "/" b)) = b.
Proof.
  intros Hb. unfold last_part. rewrite split_app, (split_free _ _ Hb).
  apply List.last_last.
Qed.

Lemma all_chars_spec p s :
  all_chars p s = true <-> forall n ch, String.get n s = Some ch -> p ch = true.
Proof.
  induction s as [|c0 s IH]; simpl.
  - split; [intros _ n ch H; destruct n; discriminate | reflexivity].
  - rewrite andb_true_iff, IH. split.
    + intros [H0 Hs] [|n] ch H; [by inversion H; subst | by eapply Hs].
    + intros H. split; [by apply (H O) | intros n ch Hn; by apply (H (S n))].
Qed.

(** C6. [extractValue] returns a bare string as it is, the [value] of a
    structure that has one, the part after the last slash of the [link] of a
    structure that has no [value] but a [link], and the empty string for
    anything else.  [extractDisplay] returns the [display_value] of a
    structure that has one, a bare string as it is unless it consists of
    exactly 32 characters among [0-9a-f], for which it returns the empty
    string, and the empty string for anything else.  In particular the four
    fields of the specification decode to the ids id1, id2, id3 and to an
    empty display name (with a non-empty id). *)
Theorem reference_resolver :
  (forall s, extractValue (JStr s) = s)
  /\ (forall f v, prop f "value" = JStr v -> v <> "" -> extractValue (JObj f) = v)
  /\ (forall f l,
        (forall v, prop f "value" = JStr v -> v = "") ->
        prop f "link" = JStr l -> l <> "" ->
        extractValue (JObj f) = last_part (split "/" l))
  /\ (forall a b, free_of "/" b = true -> last_part (split "/" (a ++ String "/" b)) = b)
  /\ (forall field,
        is_string field = false ->
        (forall f, field = JObj f ->
           (forall v, prop f "value" = JStr v -> v = "")
           /\ (forall l, prop f "link" = JStr l -> l = "")) ->
        extractValue field = "")
  /\ (forall f d, prop f "display_value" = JStr d -> extractDisplay (JObj f) = d)
  /\ (forall s, extractDisplay (JStr s) = if is_sys_id_pattern s then "" else s)
  /\ (forall field,
        is_string field = false ->
        (forall f d, field = JObj f -> prop f "display_value" = JStr d -> d = "") ->
        extractDisplay field = "")
  /\ (forall s,
        is_sys_id_pattern s = true
        <-> String.length s = 32%nat
            /\ forall n ch, String.get n s = Some ch -> is_lower_hex ch = true)
  /\ extractValue (JObj [("value", JStr "id1")]) = "id1"
  /\ extractValue (JObj [("link", JStr "https://x/y/id2")]) = "id2"
  /\ extractValue (JStr "id3") = "id3"
  /\ extractValue (JStr "aaaaaaaaaaaaaaaaaaaaaaaaaaaaaaaa") = "aaaaaaaaaaaaaaaaaaaaaaaaaaaaaaaa"
  /\ extractDisplay (JStr "aaaaaaaaaaaaaaaaaaaaaaaaaaaaaaaa") = "".
Proof.
  split.
  { intros s. unfold extractValue. simpl. destruct (String.eqb s "") eqn:E; [|reflexivity].
    apply String.eqb_eq in E. by subst. }
  split.
  { intros f v Hv Hne. unfold extractValue. simpl. rewrite Hv. simpl.
    apply String.eqb_neq in Hne. by rewrite Hne. }
  split.
  { intros f l Hv Hl Hne. unfold extractValue. simpl. rewrite Hl. simpl.
    apply String.eqb_neq in Hne. rewrite Hne. simpl.
    destruct (prop f "value") as [| | | |v|]; simpl; rewrite ?andb_false_r;
      try reflexivity.
    by rewrite (Hv v eq_refl). }
  split; [apply last_part_split|].
  split.
  { intros field Hs Hobj. unfold extractValue.
    destruct field as [| |b|n|s|f]; simpl; try reflexivity;
      [by destruct b | by destruct (n =? 0) | discriminate |].
    destruct (Hobj f eq_refl) as [Hv Hl].
    assert ((if (truthy (prop f "link") && is_string (prop f "link"))%bool
             then last_part (split "/" (str_of (prop f "link"))) else "") = "") as Hlink.
    { destruct (prop f "link") as [| | | |l|]; simpl; rewrite ?andb_false_r;
        try reflexivity. by rewrite (Hl l eq_refl). }
    destruct (prop f "value") as [| | | |v|]; simpl; rewrite ?andb_false_r;
      try exact Hlink.
    rewrite (Hv v eq_refl). simpl. exact Hlink. }
  split.
  { intros f d Hd. unfold extractDisplay. simpl. rewrite Hd. simpl.
    destruct (String.eqb d "") eqn:E; [|reflexivity].
    apply String.eqb_eq in E. by subst. }
  split.
  { intros s. unfold extractDisplay. simpl.
    destruct (String.eqb s "") eqn:E; [|reflexivity].
    apply String.eqb_eq in E. by subst. }
  split.
  { intros field Hs Hobj. unfold extractDisplay.
    destruct field as [| |b|n|s|f]; simpl; try reflexivity;
      [by destruct b | by destruct (n =? 0) | discriminate |].
    destruct (prop f "display_value") as [| | | |d|] eqn:Hd; simpl;
      rewrite ?andb_false_r; try reflexivity.
    by rewrite (Hobj f d eq_refl Hd). }
  split.
  { intros s. unfold is_sys_id_pattern. rewrite andb_true_iff, Nat.eqb_eq.
    by rewrite all_chars_spec. }
  by vm_compute.
Qed.

(** ** One direction against both directions *)

Section SingleDirection.

Variable client : Client.
Variable maxDepth : Z.
Variable typeFilter classFilter : option string.
Variable d : Direction.
Hypothesis d_single : d <> both.

(** The rows a single direction keeps are those that both directions keep
    and that run in that direction. *)
Lemma candidate_single currentId rec :
  candidate d typeFilter currentId rec
  = match candidate both typeFilter currentId rec with
    | Some c => if String.eqb (relDir c) (dir_name d) then Some c else None
    | None => None
    end.
Proof.
  unfold candidate.
  destruct (is_id (extractValue (rec_parent rec)) currentId);
    [|destruct (is_id (extractValue (rec_child rec)) currentId)];
    try reflexivity.
  all: destruct (is_id _ currentId); try reflexivity.
  all: destruct d; [| |congruence]; cbn.
  all: destruct (given typeFilter); [destruct (negb _)|]; reflexivity.
Qed.

Lemma report_single currentId currentDepth c st :
  cache_ok client currentId st -> Some (otherId c) <> currentId ->
  report client classFilter currentId currentDepth c st
  = Done (reported client classFilter currentId currentDepth c st)
  /\ cache_ok client currentId (reported client classFilter currentId currentDepth c st)
  /\ allRels (reported client classFilter currentId currentDepth c st)
     = (allRels st
        ++ if class_shown classFilter (Some (class_of client (otherId c)))
           then [relNode c (Some (class_of client (otherId c))) currentDepth]
           else [])%list.
Proof.
  intros Hok Hne.
  assert (fst (getClass client (otherId c) st) = Some (class_of client (otherId c)))
    as Hfst.
  { destruct (getClass_cases client (otherId c) st) as [(cls' & Hl & ->)|[_ ->]];
      [by eapply Hok | reflexivity]. }
  split.
  { rewrite report_outcome, Hfst. unfold class_test. by destruct (given classFilter). }
  destruct (report_cases client classFilter currentId currentDepth c st)
    as (cls & st1 & Hg & ->).
  rewrite Hg in Hfst. simpl in Hfst. subst cls.
  assert (cache_ok client currentId st1 /\ allRels st1 = allRels st) as (Hok1 & Hrels).
  { destruct (getClass_cases client (otherId c) st) as [(cls' & Hl & Hg')|[Hnone Hg']];
      rewrite Hg' in Hg; inversion Hg; subst.
    - by split.
    - split; [|reflexivity].
      intros id k Hk Hid. simpl in Hk.
      destruct (decide (id = otherId c)) as [->|Hd].
      + rewrite lookup_insert_eq in Hk. by inversion Hk.
      + rewrite lookup_insert_ne in Hk by congruence. by eapply Hok. }
  destruct (class_shown _ _); simpl; [|by rewrite app_nil_r].
  split; [exact Hok1 | by rewrite Hrels].
Qed.

Lemma foreign_key c oid :
  (relDir c = "downstream" \/ relDir c = "upstream") ->
  String.eqb (relDir c) (dir_name d) = false ->
  pairKey c <> oid ++ ":" ++ dir_name d.
Proof.
  intros Hc Hdir Heq. apply String.eqb_neq in Hdir. apply Hdir.
  assert (relDir (mkCandidate oid "" (dir_name d) "") = "downstream"
          \/ relDir (mkCandidate oid "" (dir_name d) "") = "upstream") as Hd
    by (simpl; destruct d; [by right | by left | congruence]).
  by destruct (pairKey_inj c (mkCandidate oid "" (dir_name d) "") Hc Hd Heq).
Qed.

Lemma loop_single recurse recurse' currentId currentDepth :
  (currentDepth <? maxDepth) = false ->
  forall records seen_b seen_d s_b s_d s_b' s_d',
    cache_ok client currentId s_b -> cache_ok client currentId s_d ->
    allRels s_d = List.filter (shows d) (allRels s_b) ->
    (forall oid, oid ++ ":" ++ dir_name d ∈ seen_b <-> oid ++ ":" ++ dir_name d ∈ seen_d) ->
    loop client maxDepth both typeFilter classFilter recurse
         currentId currentDepth records seen_b s_b = Some (Done s_b') ->
    loop client maxDepth d typeFilter classFilter recurse'
         currentId currentDepth records seen_d s_d = Some (Done s_d') ->
    allRels s_d' = List.filter (shows d) (allRels s_b').
Proof.
  intros Hdepth records.
  induction records as [|rec rest IH];
    intros seen_b seen_d s_b s_d s_b' s_d' Hb Hd Hrels Hseen Hrun_b Hrun_d;
    simpl in Hrun_b, Hrun_d.
  - inversion Hrun_b; inversion Hrun_d; by subst.
  - rewrite candidate_single in Hrun_d.
    destruct (candidate both typeFilter currentId rec) as [c|] eqn:Hc;
      [|exact (IH _ _ _ _ _ _ Hb Hd Hrels Hseen Hrun_b Hrun_d)].
    pose proof (candidate_relDir _ _ _ _ _ Hc) as Hdir.
    destruct (candidate_endpoint _ _ _ _ _ Hc) as (_ & _ & _ & _ & Hne).
    rewrite Hdepth in Hrun_b, Hrun_d.
    destruct (report_single currentId currentDepth c s_b Hb Hne)
      as (Hrep_b & Hb2 & Hrels_b).
    destruct (report_single currentId currentDepth c s_d Hd Hne)
      as (Hrep_d & Hd2 & Hrels_d).
    rewrite Hrep_b in Hrun_b. simpl in Hrun_b.
    destruct (String.eqb (relDir c) (dir_name d)) eqn:Edir.
    + assert (pairKey c = otherId c ++ ":" ++ dir_name d) as Hkey
        by (apply String.eqb_eq in Edir; unfold pairKey; by rewrite Edir).
      rewrite Hrep_d in Hrun_d. simpl in Hrun_d.
      destruct (decide (pairKey c ∈ seen_b)) as [Hin|Hnin].
      * destruct (decide (pairKey c ∈ seen_d)) as [_|Hnin'];
          [exact (IH _ _ _ _ _ _ Hb Hd Hrels Hseen Hrun_b Hrun_d)|].
        exfalso. apply Hnin'. rewrite Hkey in Hin |- *. by apply Hseen.
      * destruct (decide (pairKey c ∈ seen_d)) as [Hin'|_].
        { exfalso. apply Hnin. rewrite Hkey in Hin' |- *. by apply Hseen. }
        eapply IH; [exact Hb2 | exact Hd2 | | | exact Hrun_b | exact Hrun_d].
        -- rewrite Hrels_b, Hrels_d, List.filter_app, Hrels. f_equal.
           destruct (class_shown _ _); [|reflexivity]. simpl.
           unfold shows. simpl. by rewrite Edir.
        -- intros oid. rewrite !elem_of_union, !elem_of_singleton, Hseen. tauto.
    + destruct (decide (pairKey c ∈ seen_b)) as [Hin|Hnin]; [exact (IH _ _ _ _ _ _ Hb Hd Hrels Hseen Hrun_b Hrun_d)|].
      eapply IH; [exact Hb2 | exact Hd | | | exact Hrun_b | exact Hrun_d].
      * rewrite Hrels_b, List.filter_app, Hrels.
        destruct (class_shown _ _); simpl; [|by rewrite app_nil_r].
        unfold shows. simpl. rewrite Edir. by rewrite app_nil_r.
      * intros oid. rewrite elem_of_union, elem_of_singleton, <- Hseen.
        split; [|tauto]. intros [Heq|Hin]; [|exact Hin].
        symmetry in Heq. by apply foreign_key in Heq.
Qed.

End SingleDirection.

Lemma walk_single fuel args client config calls rootId rootName rootClass
    d p_b tr_b p_d tr_d :
  d <> both -> arg_impact args = false -> clampDepth (arg_depth args) config = 1 ->
  walk fuel (with_direction both args) client config calls rootId rootName rootClass
    = Some (Content p_b, tr_b) ->
  walk fuel (with_direction d args) client config calls rootId rootName rootClass
    = Some (Content p_d, tr_d) ->
  relationships p_d = List.filter (shows d) (relationships p_b).
Proof.
  intros Hd Himpact Hclamp. unfold walk, effectiveDirection. simpl.
  rewrite Himpact, Hclamp. destruct fuel as [|fuel]; [discriminate|]. simpl.
  destruct (query_rels client (id_text rootId)) as [e| |result].
  - intros Hb Hs. inversion Hb; inversion Hs; by subst.
  - discriminate.
  - destruct (loop client 1 both _ _ _ _ _ _ _ _) as [[s_b|? ?]|] eqn:Hrun_b;
      [|discriminate|discriminate].
    destruct (loop client 1 d _ _ _ _ _ _ _ _) as [[s_d|? ?]|] eqn:Hrun_d;
      [|discriminate|discriminate].
    intros Hb Hs. inversion Hb; inversion Hs; subst; simpl.
    eapply (loop_single client 1 (arg_type args) (arg_class args) d Hd _ _ rootId 1
              eq_refl);
      [ | | | | exact Hrun_b | exact Hrun_d].
    + intros id cls Hl Hid. simpl in Hl. rewrite lookup_singleton_ne in Hl by congruence.
      discriminate.
    + intros id cls Hl Hid. simpl in Hl. rewrite lookup_singleton_ne in Hl by congruence.
      discriminate.
    + reflexivity.
    + tauto.
Qed.

Lemma handler_run_single fuel args client config d p_b tr_b p_d tr_d :
  d <> both -> arg_impact args = false -> clampDepth (arg_depth args) config = 1 ->
  handler_run fuel (with_direction both args) client config = Some (Content p_b, tr_b) ->
  handler_run fuel (with_direction d args) client config = Some (Content p_d, tr_d) ->
  relationships p_d = List.filter (shows d) (relationships p_b).
Proof.
  intros Hd Himpact Hclamp. unfold handler_run, err. simpl.
  destruct (given (arg_ci_name args)) as [name|], (given (arg_sys_id args)) as [id|];
    try discriminate.
  - destruct (get_ci client id) as [e| |[ci|]]; try discriminate.
    destruct (given (ci_name ci)); [|discriminate]. by apply walk_single.
  - destruct (find_ci client name) as [e| |res]; try discriminate.
    destruct (default [] res) as [|ci ?]; [discriminate|]. by apply walk_single.
  - destruct (get_ci client id) as [e| |[ci|]]; try discriminate.
    destruct (given (ci_name ci)); [|discriminate]. by apply walk_single.
Qed.

(** C8, as the code has it.  At depth 1 (only the root is expanded) the
    edges of an upstream run are the upstream edges of the run in both
    directions, in the same order, and likewise downstream; so an edge is
    reported by the run in both directions exactly when one of the two
    single-direction runs reports it. *)
Theorem direction_union_at_depth_one fuel args client config p_b tr_b p_u tr_u p_d tr_d
    (Himpact : arg_impact args = false)
    (Hdepth : clampDepth (arg_depth args) config = 1)
    (Hboth : handler_run fuel (with_direction both args) client config
             = Some (Content p_b, tr_b))
    (Hup : handler_run fuel (with_direction upstream args) client config
           = Some (Content p_u, tr_u))
    (Hdown : handler_run fuel (with_direction downstream args) client config
             = Some (Content p_d, tr_d)) :
  relationships p_u = List.filter (shows upstream) (relationships p_b)
  /\ relationships p_d = List.filter (shows downstream) (relationships p_b)
  /\ forall e, e ∈ relationships p_b <-> e ∈ relationships p_u \/ e ∈ relationships p_d.
Proof.
  assert (relationships p_u = List.filter (shows upstream) (relationships p_b)) as Hu
    by (by eapply handler_run_single; [| | |exact Hboth|exact Hup]).
  assert (relationships p_d = List.filter (shows downstream) (relationships p_b)) as Hd
    by (by eapply handler_run_single; [| | |exact Hboth|exact Hdown]).
  split; [exact Hu|]. split; [exact Hd|].
  intros e. rewrite Hu, Hd, !list_elem_of_In, !List.filter_In, <- !list_elem_of_In.
  split; [|tauto]. intros He.
  destruct (handler_run_sound _ _ _ _ _ _ Hboth)
    as (st & _ & _ & _ & (_ & Hrels & Hp) & Hr & -> & _).
  pose proof He as He0. rewrite Hr, Hrels in He0. apply pushes_elem in He0 as (src & He0).
  destruct (Hp src e He0) as (c & Hfirst & He' & _).
  destruct (first_with_key_row _ _ _ _ _ _ Hfirst) as (rec & _ & Hc).
  apply candidate_relDir in Hc. unfold shows.
  assert (rel_direction e = relDir c) as -> by (by rewrite He').
  destruct Hc as [-> | ->]; [right | left]; by split.
Qed.

(** On the chain X -> A -> Y, from A with depth 2, the run in both
    directions reports four edges, two of them back to A from X and from Y;
    the upstream run reports only X and the downstream run only Y. *)
Lemma direction_union_counterexample :
  (exists p tr,
     handler_run 5 (request "A" 2 both) line default_config = Some (Content p, tr)
     /\ (edge_pair <$> relationships p)
        = [("X", "upstream"); ("A", "downstream"); ("Y", "downstream"); ("A", "upstream")])
  /\ (exists p tr,
        handler_run 5 (request "A" 2 upstream) line default_config = Some (Content p, tr)
        /\ (edge_pair <$> relationships p) = [("X", "upstream")])
  /\ (exists p tr,
        handler_run 5 (request "A" 2 downstream) line default_config = Some (Content p, tr)
        /\ (edge_pair <$> relationships p) = [("Y", "downstream")]).
Proof.
  split; [|split]; eexists; eexists; (split; [vm_compute; reflexivity|]); by vm_compute.
Qed.

Lemma direction_union_at_depth_one_witness :
  exists p_b p_u p_d,
    (edge_pair <$> relationships p_b)
      = [("B", "downstream"); ("C", "upstream")]
    /\ relationships p_u = List.filter (shows upstream) (relationships p_b)
    /\ relationships p_d = List.filter (shows downstream) (relationships p_b)
    /\ forall e, e ∈ relationships p_b <-> e ∈ relationships p_u \/ e ∈ relationships p_d.
Proof.
  eexists. eexists. eexists. split; [|
    eapply (direction_union_at_depth_one 5 (request "A" 1 both) cycle default_config);
      [reflexivity | reflexivity | vm_compute; reflexivity | vm_compute; reflexivity
      | vm_compute; reflexivity]].
  reflexivity.
Defined.

(** ** The general statements at the example runs *)

(** Depth 9 on the cycle: the result reports depth 5 and no edge is deeper. *)
Lemma depth_is_clamped_witness :
  meta_depth (payload (fst cycle_run)) = 5
  /\ forall e, e ∈ relationships (payload (fst cycle_run)) -> 1 <= rel_depth e <= 5.
Proof.
  apply (proj2 (proj2 (proj2 (proj2 (proj2 depth_is_clamped)))) 5%nat
           (request "A" 9 both) cycle default_config (payload (fst cycle_run))
           (snd cycle_run)).
  vm_compute. reflexivity.
Defined.

(** Impact mode with direction downstream on the chain X -> A -> Y: the
    result is an upstream result. *)
Lemma impact_forces_upstream_witness :
  meta_direction (payload (fst impact_run)) = "upstream"
  /\ (true = true ->
      forall e, e ∈ relationships (payload (fst impact_run)) ->
                rel_direction e = "upstream").
Proof.
  apply (proj1 (proj2 impact_forces_upstream) 5%nat
           (with_impact true (request "A" 2 downstream)) line default_config
           (payload (fst impact_run)) (snd impact_run)).
  vm_compute. reflexivity.
Defined.

(** The run on [flaky]: no class is looked up twice and the edges to B and C
    carry the class of a failed lookup. *)
Lemma remote_failures_degrade_witness :
  NoDup (class_lookups (snd flaky_run))
  /\ forall e, e ∈ relationships (payload (fst flaky_run)) ->
       Some (rel_sys_id e) <> Some "A" ->
       rel_class e = Some (class_of flaky (rel_sys_id e)).
Proof.
  split.
  - apply (proj1 (proj2 remote_failures_degrade) 5%nat (request "A" 3 both) flaky
             default_config (fst flaky_run) (snd flaky_run)).
    vm_compute. reflexivity.
  - apply (proj1 (proj2 (proj2 remote_failures_degrade)) 5%nat
             (request "A" 3 both) flaky default_config (payload (fst flaky_run))
             (snd flaky_run)).
    vm_compute. reflexivity.
Defined.

(** The structured and the link-only field of the specification. *)
Lemma reference_resolver_witness :
  extractValue (JObj [("value", JStr "id1")]) = "id1"
  /\ extractValue (JObj [("link", JStr "https://x/y/id2")])
     = last_part (split "/" "https://x/y/id2")
  /\ last_part (split "/" ("https://x/y" ++ String "/" "id2")) = "id2".
Proof.
  split; [|split].
  - apply (proj1 (proj2 reference_resolver) [("value", JStr "id1")] "id1");
      [reflexivity | discriminate].
  - apply (proj1 (proj2 (proj2 reference_resolver))
             [("link", JStr "https://x/y/id2")] "https://x/y/id2");
      [intros v Hv; discriminate Hv | reflexivity | discriminate].
  - apply (proj1 (proj2 (proj2 (proj2 reference_resolver))) "https://x/y" "id2").
    reflexivity.
Defined.

(* ===================================================================== *)
(** * Further properties of the traversal *)
(* ===================================================================== *)

(** ** What [report] adds to the trace *)

Lemma report_events client classFilter currentId currentDepth c st ev :
  ev ∈ trace (reported client classFilter currentId currentDepth c st) ->
  ev ∈ trace st
  \/ ev = CallGetClass (otherId c)
  \/ exists cls, ev = Pushed currentId (relNode c cls currentDepth).
Proof.
  destruct (report_cases client classFilter currentId currentDepth c st)
    as (cls & st1 & Hg & ->).
  assert (ev ∈ trace st1 -> ev ∈ trace st \/ ev = CallGetClass (otherId c)) as H1.
  { destruct (getClass_cases client (otherId c) st) as [(cls' & _ & Hg')|[_ Hg']];
      rewrite Hg' in Hg; inversion Hg; subst; [by left|].
    simpl. intros Hev. apply elem_of_app in Hev as [Hev|Hev]; [by left|].
    apply list_elem_of_singleton in Hev. by right. }
  destruct (class_shown _ _); simpl; [|intros Hev; destruct (H1 Hev); auto].
  intros Hev. apply elem_of_app in Hev as [Hev|Hev]; [destruct (H1 Hev); auto|].
  apply list_elem_of_singleton in Hev. right. right. eauto.
Qed.

Lemma report_allRels client classFilter currentId currentDepth c st e :
  e ∈ allRels (reported client classFilter currentId currentDepth c st) ->
  e ∈ allRels st
  \/ exists cls, class_shown classFilter cls = true /\ e = relNode c cls currentDepth.
Proof.
  destruct (report_cases client classFilter currentId currentDepth c st)
    as (cls & st1 & Hg & ->).
  assert (allRels st1 = allRels st) as Hsame.
  { destruct (getClass_cases client (otherId c) st) as [(cls' & _ & Hg')|[_ Hg']];
      rewrite Hg' in Hg; by inversion Hg. }
  destruct (class_shown classFilter cls) eqn:Hs; simpl; rewrite Hsame; [|by left].
  intros He. apply elem_of_app in He as [He|He]; [by left|].
  apply list_elem_of_singleton in He. right. eauto.
Qed.

(** ** Levels *)

Section Levels.

Variable client : Client.
Variable maxDepth : Z.
Variable direction : Direction.
Variable typeFilter classFilter : option string.
Variable root : option string.

Abbreviation level' := (level client direction typeFilter root).
Abbreviation levels_ok' := (levels_ok client maxDepth direction typeFilter root).

Lemma level_ge_1 d id : level' d id -> 1 <= d.
Proof. induction 1; lia. Qed.

Lemma level_1_root id : level' 1 id -> id = root.
Proof.
  intros H. inversion H as [|d src c Hsrc Hc Hd]; [reflexivity|].
  apply level_ge_1 in Hsrc. lia.
Qed.

Lemma traverse_levels fuel :
  forall id currentDepth st out,
    levels_ok' st -> level' currentDepth id ->
    traverse client maxDepth direction typeFilter classFilter fuel id currentDepth st
      = Some out ->
    levels_ok' (state_of out).
Proof.
  induction fuel as [|fuel IH]; intros id currentDepth st out Hst Hlev Hrun; [discriminate|].
  simpl in Hrun. destruct (currentDepth >? maxDepth) eqn:Hgt; [by inversion Hrun; subst|].
  pose proof (level_ge_1 _ _ Hlev) as Hge.
  assert (currentDepth <= maxDepth) as Hle by lia.
  assert (levels_ok' (observe (CallQueryRels id) st)) as Hst1.
  { destruct Hst as [Hq Hp]. split; simpl.
    - intros i Hi. unfold queried in Hi. rewrite omap_app in Hi. simpl in Hi.
      apply elem_of_app in Hi as [Hi|Hi]; [by apply Hq|].
      apply list_elem_of_singleton in Hi. subst. exists currentDepth. by split.
    - intros src e He. apply elem_of_app in He as [He|He]; [by apply Hp|].
      apply list_elem_of_singleton in He. discriminate. }
  destruct (query_rels client (id_text id)) as [| |result] eqn:Hquery;
    [by inversion Hrun; subst | by inversion Hrun; subst |].
  assert (rows_of client id = default [] result) as Hrows
    by (unfold rows_of; by rewrite Hquery).
  set (I := fun (rest : list Rec) (_ : gset string) (s : TState) =>
              levels_ok' s /\ forall r, r ∈ rest -> r ∈ rows_of client id).
  assert (forall rec rest seen s c,
             I (rec :: rest) seen s ->
             I rest ({[pairKey c]} ∪ seen)
               (reported client classFilter id currentDepth c s)) as Hkeep.
  { intros rec rest seen s c [[Hq Hp] Hin]. split; [split|].
    - intros i Hi. rewrite report_queried in Hi. by apply Hq.
    - intros src e He. apply report_events in He as [He|[He|(cls & He)]];
        [by apply Hp | discriminate |].
      inversion He; subst. simpl. by split.
    - intros r Hr. apply Hin. by apply list_elem_of_further. }
  eapply (loop_invariant _ _ _ _ _ _ _ _ I) in Hrun.
  - by destruct Hrun as (rest' & seen' & (Hs & _) & _).
  - intros rec rest seen s [Hs Hin] _. split; [exact Hs|].
    intros r Hr. apply Hin. by apply list_elem_of_further.
  - intros rec rest seen s c [Hs Hin] _ _. split; [exact Hs|].
    intros r Hr. apply Hin. by apply list_elem_of_further.
  - intros rec rest seen s c HI _ _. by eapply Hkeep.
  - intros rec rest seen s c out' HI Hcand _ Hd _ Hrec.
    destruct (Hkeep _ _ seen _ c HI) as [Hs2 Hin2]. split; [|exact Hin2].
    eapply IH; [| |exact Hrec].
    + destruct Hs2 as [H1 H2]. by split.
    + apply (level_step _ _ _ _ currentDepth id c); [exact Hlev|].
      unfold candidates. apply list_elem_of_omap. exists rec. split; [|exact Hcand].
      destruct HI as [_ Hin]. apply Hin. apply list_elem_of_here.
  - split; [exact Hst1|]. intros r Hr. by rewrite Hrows.
Qed.

End Levels.

(** ** Classes *)

Section Classes.

Variable client : Client.
Variable maxDepth : Z.
Variable direction : Direction.
Variable typeFilter classFilter : option string.
Variable root rootClass : option string.

Abbreviation node_class' := (node_class client root rootClass).
Abbreviation classes_exact' := (classes_exact client root rootClass).

Lemma node_class_other id :
  Some id <> root -> node_class' id = Some (class_of client id).
Proof.
  intros Hne. unfold node_class.
  assert (is_id id root = false) as -> by (apply is_id_neq; congruence). reflexivity.
Qed.

(** Under the invariant, [report] reports the node's class and adds to the
    edges of the node being expanded exactly the edge for [c], if the class
    filter shows it. *)
Lemma report_exact currentId currentDepth c st :
  classes_exact' st ->
  classes_exact' (reported client classFilter currentId currentDepth c st)
  /\ forall src,
       pushed_from src (trace (reported client classFilter currentId currentDepth c st))
       = (pushed_from src (trace st)
          ++ if same_id currentId src
             then if class_shown classFilter (node_class' (otherId c))
                  then [relNode c (node_class' (otherId c)) currentDepth]
                  else []
             else [])%list.
Proof.
  intros (Hroot & Hcache & Hrels & Hlook).
  destruct (report_cases client classFilter currentId currentDepth c st)
    as (cls & st1 & Hg & ->).
  assert (cls = node_class' (otherId c) /\ classes_exact' st1
          /\ forall src, pushed_from src (trace st1) = pushed_from src (trace st))
    as (-> & (Hroot1 & Hcache1 & Hrels1 & Hlook1) & Hpf).
  { destruct (getClass_cases client (otherId c) st) as [(cls' & Hl & Hg')|[Hnone Hg']];
      rewrite Hg' in Hg; inversion Hg; subst.
    - split; [by apply Hcache|]. split; [by repeat split|]. reflexivity.
    - assert (Some (otherId c) <> root) as Hne
        by (intros Heq; rewrite Heq, Hroot in Hnone; discriminate).
      split; [by rewrite node_class_other|]. split; [|].
      + split; [|split; [|split]]; simpl.
        * rewrite lookup_insert_ne by exact Hne. exact Hroot.
        * intros id k Hk. destruct (decide (id = otherId c)) as [->|Hd].
          -- rewrite lookup_insert_eq in Hk. inversion Hk. by rewrite node_class_other.
          -- rewrite lookup_insert_ne in Hk by congruence. by apply Hcache.
        * exact Hrels.
        * intros i Hi. unfold class_lookups. rewrite omap_app. simpl.
          fold (class_lookups (trace st)). intros Hin.
          apply elem_of_app in Hin as [Hin|Hin]; [by eapply Hlook|].
          apply list_elem_of_singleton in Hin. apply Hne. by subst.
      + intros src. simpl. unfold pushed_from. rewrite omap_app. simpl.
        by rewrite app_nil_r. }
  destruct (class_shown _ _).
  - split.
    + split; [exact Hroot1|]. split; [exact Hcache1|]. split; simpl.
      * intros e He. apply elem_of_app in He as [He|He]; [by apply Hrels1|].
        apply list_elem_of_singleton in He. by subst.
      * intros i Hi. unfold class_lookups. rewrite omap_app. simpl. rewrite app_nil_r.
        by eapply Hlook1.
    + intros src. simpl. unfold pushed_from at 1. rewrite omap_app. simpl.
      fold (pushed_from src (trace st1)). rewrite Hpf.
      by destruct (same_id currentId src).
  - split; [by repeat split|]. intros src. rewrite Hpf.
    destruct (same_id currentId src); by rewrite app_nil_r.
Qed.

Lemma classes_exact_query id st :
  classes_exact' st -> classes_exact' (observe (CallQueryRels id) st).
Proof.
  intros (H1 & H2 & H3 & H4). split; [exact H1|]. split; [exact H2|].
  split; [exact H3|]. intros i Hi.
  simpl. unfold class_lookups. rewrite omap_app. simpl. rewrite app_nil_r.
  by eapply H4.
Qed.

Lemma traverse_classes_exact fuel :
  forall id currentDepth st out,
    classes_exact' st ->
    traverse client maxDepth direction typeFilter classFilter fuel id currentDepth st
      = Some out ->
    classes_exact' (state_of out).
Proof.
  induction fuel as [|fuel IH]; intros id currentDepth st out Hst Hrun; [discriminate|].
  simpl in Hrun. destruct (currentDepth >? maxDepth); [by inversion Hrun; subst|].
  pose proof (classes_exact_query id _ Hst) as Hst1.
  destruct (query_rels client (id_text id)) as [| |result];
    [by inversion Hrun; subst | by inversion Hrun; subst |].
  eapply (loop_invariant _ _ _ _ _ _ _ _ (fun _ _ s => classes_exact' s)) in Hrun;
    [by destruct Hrun as (? & ? & ? & _) | | | | | exact Hst1]; simpl.
  - auto.
  - auto.
  - intros rec rest seen s c Hs _ _. by apply report_exact.
  - intros rec rest seen s c out' Hs _ _ _ _ Hrec.
    eapply IH; [|exact Hrec].
    destruct (report_exact id currentDepth c s Hs) as [(H1 & H2 & H3 & H4) _].
    by repeat split.
Qed.

Lemma traverse_shown_only fuel :
  forall id currentDepth st out,
    shown_only classFilter st ->
    traverse client maxDepth direction typeFilter classFilter fuel id currentDepth st
      = Some out ->
    shown_only classFilter (state_of out).
Proof.
  induction fuel as [|fuel IH]; intros id currentDepth st out Hst Hrun; [discriminate|].
  simpl in Hrun. destruct (currentDepth >? maxDepth); [by inversion Hrun; subst|].
  destruct (query_rels client (id_text id)) as [| |result];
    [by inversion Hrun; subst | by inversion Hrun; subst |].
  assert (forall c s, shown_only classFilter s ->
            shown_only classFilter (reported client classFilter id currentDepth c s))
    as Hreport.
  { intros c s Hs e He. apply report_allRels in He as [He|(cls & Hcls & ->)];
      [by apply Hs | exact Hcls]. }
  eapply (loop_invariant _ _ _ _ _ _ _ _ (fun _ _ s => shown_only classFilter s)) in Hrun;
    [by destruct Hrun as (? & ? & ? & _) | | | | | exact Hst]; simpl.
  - auto.
  - auto.
  - intros rec rest seen s c Hs _ _. by apply Hreport.
  - intros rec rest seen s c out' Hs _ _ _ _ Hrec.
    eapply IH; [|exact Hrec]. by apply Hreport.
Qed.

End Classes.

(** ** Each expansion reports exactly its deduplicated, filtered rows *)

Section Expansions.

Variable client : Client.
Variable maxDepth : Z.
Variable direction : Direction.
Variable typeFilter classFilter : option string.
Variable root rootClass : option string.

Abbreviation expansion' := (expansion client direction typeFilter classFilter root rootClass).
Abbreviation edges_of' := (edges_of client classFilter root rootClass).
Abbreviation candidates' := (candidates direction typeFilter).

Lemma dedup_report id currentDepth c (seen : gset string) st :
  dedup st -> id ∈ queried (trace st) ->
  (forall e, e ∈ pushed_from id (trace st) -> edge_key e ∈ seen) ->
  pairKey c ∉ seen ->
  dedup (reported client classFilter id currentDepth c st)
  /\ forall e, e ∈ pushed_from id (trace (reported client classFilter id currentDepth c st)) ->
               edge_key e ∈ {[pairKey c]} ∪ seen.
Proof.
  intros [Hd1 Hd2] Hid Hkeys Hnew.
  destruct (report_pushed_from client classFilter id currentDepth c st) as (l & Hl & Hpf).
  split; [split|].
  - intros src Hsrc. rewrite report_queried in Hsrc. rewrite Hpf, (Hd1 _ Hsrc).
    destruct (same_id id src) eqn:E; [|reflexivity].
    apply same_id_eq in E. subst. contradiction.
  - intros src. rewrite Hpf. destruct (same_id id src) eqn:E;
      [|rewrite app_nil_r; apply Hd2].
    apply same_id_eq in E. subst src.
    destruct Hl as [->|[cls ->]]; [rewrite app_nil_r; apply Hd2|].
    rewrite fmap_app. apply NoDup_app. split; [apply Hd2|].
    split; [|apply NoDup_singleton].
    intros k Hk Hk'. apply list_elem_of_singleton in Hk'. subst k.
    apply list_elem_of_fmap in Hk as (e & He & Hin).
    apply Hnew. rewrite <- edge_key_relNode with (cls := cls) (d := currentDepth).
    rewrite He. by apply Hkeys.
  - intros e He. rewrite Hpf, same_id_refl in He.
    apply elem_of_app in He as [He|He]; [apply elem_of_union_r; by apply Hkeys|].
    destruct Hl as [->|[cls ->]]; [by apply elem_of_nil in He|].
    apply list_elem_of_singleton in He. subst e.
    apply elem_of_union_l, elem_of_singleton. reflexivity.
Qed.

Lemma traverse_expansions fuel :
  forall id currentDepth st st',
    expanded_once st -> dedup st -> classes_exact client root rootClass st ->
    id ∈ visited st -> id ∉ queried (trace st) ->
    level client direction typeFilter root currentDepth id ->
    traverse client maxDepth direction typeFilter classFilter fuel id currentDepth st
      = Some (Done st') ->
    (currentDepth <= maxDepth ->
     id ∈ queried (trace st')
     /\ pushed_from id (trace st') = expansion' id currentDepth)
    /\ forall src, src ∈ queried (trace st') -> src ∉ queried (trace st) ->
         exists d, 1 <= d <= maxDepth
                   /\ level client direction typeFilter root d src
                   /\ pushed_from src (trace st') = expansion' src d.
Proof.
  induction fuel as [|fuel IH];
    intros id currentDepth st st' Hex Hdd Hcl Hv Hnq Hlev Hrun; [discriminate|].
  simpl in Hrun. destruct (currentDepth >? maxDepth) eqn:Hgt.
  { inversion Hrun; subst. split; [lia|]. intros src H1 H2. contradiction. }
  pose proof (level_ge_1 _ _ _ _ _ _ Hlev) as Hge.
  assert (currentDepth <= maxDepth) as Hle by lia.
  pose proof (expanded_once_query _ _ Hex Hv Hnq) as Hex1.
  pose proof (dedup_query id _ Hdd) as Hdd1.
  pose proof (classes_exact_query client root rootClass id _ Hcl) as Hcl1.
  assert (queried (trace (observe (CallQueryRels id) st)) = (queried (trace st) ++ [id])%list)
    as Hq1 by (simpl; unfold queried; by rewrite omap_app).
  assert (forall src, pushed_from src (trace (observe (CallQueryRels id) st))
                      = pushed_from src (trace st)) as Hp1.
  { intros src. simpl. unfold pushed_from. rewrite omap_app. simpl. by rewrite app_nil_r. }
  assert (pushed_from id (trace st) = []) as Hnone by (destruct Hdd as [H _]; by apply H).
  assert (forall src (P : Prop),
             src ∈ (queried (trace st) ++ [id])%list -> src ∉ queried (trace st) ->
             src = id) as Honly.
  { intros src _ Hin Hnin. apply elem_of_app in Hin as [Hin|Hin]; [contradiction|].
    by apply list_elem_of_singleton in Hin. }
  destruct (query_rels client (id_text id)) as [err| |result] eqn:Hquery;
    [|discriminate|].
  { inversion Hrun; subst st'. rewrite Hq1, Hp1, Hnone.
    assert (expansion' id currentDepth = []) as Hempty
      by (unfold expansion, rows_of; by rewrite Hquery).
    split.
    - intros _. split; [apply elem_of_app; right; apply list_elem_of_here|].
      by rewrite Hempty.
    - intros src Hin Hnin. rewrite (Honly src True Hin Hnin), Hp1, Hnone.
      exists currentDepth. split; [lia|]. split; [exact Hlev | by rewrite Hempty]. }
  assert (rows_of client id = default [] result) as Hrows
    by (unfold rows_of; by rewrite Hquery).
  set (I := fun (rest : list Rec) (seen : gset string) (s : TState) =>
              expanded_once s /\ dedup s /\ classes_exact client root rootClass s
              /\ id ∈ queried (trace s)
              /\ (forall e, e ∈ pushed_from id (trace s) -> edge_key e ∈ seen)
              /\ (forall r, r ∈ rest -> r ∈ rows_of client id)
              /\ (pushed_from id (trace s)
                  ++ edges_of' currentDepth (fresh seen (candidates' id rest))
                  = expansion' id currentDepth)%list
              /\ (forall src, src ∈ queried (trace s) -> src ∉ queried (trace st) ->
                    src <> id ->
                    exists d, 1 <= d <= maxDepth
                              /\ level client direction typeFilter root d src
                              /\ pushed_from src (trace s) = expansion' src d)).
  assert (forall rec rest seen s c,
             I (rec :: rest) seen s ->
             candidate direction typeFilter id rec = Some c ->
             pairKey c ∉ seen ->
             I rest ({[pairKey c]} ∪ seen)
               (reported client classFilter id currentDepth c s)) as Hkeep.
  { intros rec rest seen s c (Hes & Hds & Hcs & Hids & Hkeys & Hin & Heq & Hdone) Hcand Hnew.
    destruct (dedup_report id currentDepth c seen s Hds Hids Hkeys Hnew) as [Hds2 Hkeys2].
    destruct (report_exact client classFilter root rootClass id currentDepth c s Hcs)
      as [Hcs2 Hpf].
    split; [by apply expanded_once_report|]. split; [exact Hds2|].
    split; [exact Hcs2|]. split; [by rewrite report_queried|].
    split; [exact Hkeys2|].
    split; [intros r Hr; apply Hin; by apply list_elem_of_further|]. split.
    - rewrite <- Heq, Hpf, same_id_refl, <- app_assoc. f_equal.
      unfold candidates. simpl. rewrite Hcand. simpl.
      destruct (decide (pairKey c ∈ seen)) as [Hyes|_]; [contradiction|].
      unfold edges_of. simpl.
      by destruct (class_shown classFilter
                     (node_class client root rootClass (otherId c))).
    - intros src Hsrc Hnst Hne. rewrite report_queried in Hsrc.
      destruct (Hdone src Hsrc Hnst Hne) as (d & Hd & Hl & Hp).
      exists d. split; [exact Hd|]. split; [exact Hl|].
      rewrite Hpf.
      assert (same_id id src = false) as ->
        by (apply same_id_neq; congruence).
      by rewrite app_nil_r. }
  eapply (loop_rule _ _ _ _ _ _ _ _ I (fun _ => True)) in Hrun.
  - destruct Hrun as (seen' & _ & _ & _ & Hids & _ & _ & Heq & Hdone).
    simpl in Heq. unfold edges_of in Heq. simpl in Heq. rewrite app_nil_r in Heq.
    split; [by intros _|].
    intros src Hsrc Hnst. destruct (decide (src = id)) as [->|Hne].
    + exists currentDepth. split; [lia|]. by split.
    + by apply Hdone.
  - intros rec rest seen s (Hes & Hds & Hcs & Hids & Hkeys & Hin & Heq & Hdone) Hcand.
    repeat (split; [assumption|]).
    split; [intros r Hr; apply Hin; by apply list_elem_of_further|].
    split; [|exact Hdone].
    rewrite <- Heq. unfold candidates. simpl. by rewrite Hcand.
  - intros rec rest seen s c (Hes & Hds & Hcs & Hids & Hkeys & Hin & Heq & Hdone) Hcand Hseen.
    repeat (split; [assumption|]).
    split; [intros r Hr; apply Hin; by apply list_elem_of_further|].
    split; [|exact Hdone].
    rewrite <- Heq. unfold candidates. simpl. rewrite Hcand. simpl.
    by destruct (decide (pairKey c ∈ seen)).
  - intros rec rest seen s c s1 HI Hcand Hnew Hrep _.
    rewrite <- (report_done _ _ _ _ _ _ _ Hrep). by eapply Hkeep.
  - intros rec rest seen s c s1 s' HI Hcand Hnew Hrep Hd Hnv Hrec.
    rewrite <- (report_done _ _ _ _ _ _ _ Hrep) in Hnv, Hrec.
    assert (rec ∈ rows_of client id) as Hrec_in
      by (destruct HI as (_ & _ & _ & _ & _ & Hin & _); apply Hin, list_elem_of_here).
    destruct (Hkeep _ _ _ _ _ HI Hcand Hnew)
      as (Hes & Hds & Hcs & Hids & Hkeys & Hin & Heq & Hdone).
    destruct (expanded_once_enter (Some (otherId c)) _ Hes Hnv) as [Hex2 Hnq2].
    assert (Some (otherId c) ∈ visited (visited_add (Some (otherId c))
              (reported client classFilter id currentDepth c s))) as Hv2
      by (simpl; apply elem_of_union_l, elem_of_singleton; reflexivity).
    assert (level client direction typeFilter root (currentDepth + 1) (Some (otherId c)))
      as Hlev2.
    { apply (level_step _ _ _ _ currentDepth id c); [exact Hlev|].
      unfold candidates. apply list_elem_of_omap. by exists rec. }
    assert (classes_exact client root rootClass
              (visited_add (Some (otherId c))
                 (reported client classFilter id currentDepth c s)))
      as Hcs2 by exact Hcs.
    destruct (IH _ _ _ _ Hex2 Hds Hcs2 Hv2 Hnq2 Hlev2 Hrec) as [_ Hnew_done].
    destruct (traverse_dedup _ _ _ _ _ _ _ _ _ _ Hex2 Hds Hv2 Hnq2 Hrec) as [Hds' Hfr'].
    pose proof (traverse_expanded_once _ _ _ _ _ _ _ _ _ _ Hex2 Hv2 Hnq2 Hrec) as Hes'.
    pose proof (traverse_classes_exact _ _ _ _ _ _ _ _ _ _ _ _ Hcs2 Hrec) as Hcs'.
    simpl in Hds', Hfr', Hes', Hcs'.
    destruct (Hfr' id Hids) as [Hids' Hpid'].
    split; [exact Hes'|]. split; [exact Hds'|]. split; [exact Hcs'|].
    split; [exact Hids'|].
    split; [intros e He; rewrite Hpid' in He; by apply Hkeys|].
    split; [exact Hin|]. split; [by rewrite Hpid'|].
    intros src Hsrc Hnst Hne.
    destruct (decide (src ∈ queried
                        (trace (reported client classFilter id currentDepth c s))))
      as [Hold|Hfresh].
    + destruct (Hdone src Hold Hnst Hne) as (d & Hdr & Hl & Hp).
      destruct (Hfr' src Hold) as [_ Hsame].
      exists d. split; [exact Hdr|]. split; [exact Hl|]. by rewrite Hsame.
    + by apply Hnew_done.
  - done.
  - done.
  - split; [exact Hex1|]. split; [exact Hdd1|]. split; [exact Hcl1|].
    split; [rewrite Hq1; apply elem_of_app; right; apply list_elem_of_here|].
    split; [intros e He; rewrite Hp1, Hnone in He; by apply elem_of_nil in He|].
    split; [intros r Hr; by rewrite Hrows|].
    split; [rewrite Hp1, Hnone; unfold expansion; by rewrite Hrows|].
    intros src Hsrc Hnst Hne. rewrite Hq1 in Hsrc.
    by pose proof (Honly src True Hsrc Hnst).
Qed.

End Expansions.

(** The first candidate with each key survives the dedup set. *)
Lemma fresh_covers (seen : gset string) cands c :
  c ∈ cands ->
  pairKey c ∈ seen \/ exists c', c' ∈ fresh seen cands /\ pairKey c' = pairKey c.
Proof.
  revert seen. induction cands as [|a cands IH]; intros seen Hc;
    [by apply elem_of_nil in Hc|].
  simpl. apply elem_of_cons in Hc as [->|Hc].
  - destruct (decide (pairKey a ∈ seen)); [by left|].
    right. exists a. split; [apply list_elem_of_here | reflexivity].
  - destruct (decide (pairKey a ∈ seen)) as [Hin|Hnin]; [by apply IH|].
    destruct (IH ({[pairKey a]} ∪ seen) Hc) as [Hk|(c' & Hc' & Hk)].
    + apply elem_of_union in Hk as [Hk|Hk]; [|by left].
      apply elem_of_singleton in Hk. right. exists a.
      split; [apply list_elem_of_here | by symmetry].
    + right. exists c'. split; [by apply list_elem_of_further | exact Hk].
Qed.

Lemma fresh_subset (seen : gset string) cands c : c ∈ fresh seen cands -> c ∈ cands.
Proof.
  revert seen. induction cands as [|a cands IH]; intros seen Hc; simpl in Hc;
    [exact Hc|].
  destruct (decide (pairKey a ∈ seen)).
  - apply list_elem_of_further. by eapply IH.
  - apply elem_of_cons in Hc as [->|Hc]; [apply list_elem_of_here|].
    apply list_elem_of_further. by eapply IH.
Qed.

(** ** The result of [handler], continued *)

Lemma handler_run_facts fuel args client config p tr :
  handler_run fuel args client config = Some (Content p, tr) ->
  exists st,
    relationships p = allRels st /\ tr = trace st
    /\ classes_exact client (root_sys_id p) (root_class p) st
    /\ levels_ok client (clampDepth (arg_depth args) config) (effectiveDirection args)
                 (arg_type args) (root_sys_id p) st
    /\ shown_only (arg_class args) st
    /\ (root_sys_id p ∈ queried tr
        /\ pushed_from (root_sys_id p) tr
           = expansion client (effectiveDirection args) (arg_type args) (arg_class args)
                       (root_sys_id p) (root_class p) (root_sys_id p) 1)
    /\ forall src, src ∈ queried tr ->
         exists d, 1 <= d <= clampDepth (arg_depth args) config
                   /\ level client (effectiveDirection args) (arg_type args)
                            (root_sys_id p) d src
                   /\ pushed_from src tr
                      = expansion client (effectiveDirection args) (arg_type args)
                                  (arg_class args) (root_sys_id p) (root_class p) src d.
Proof.
  intros Hrun.
  destruct (handler_run_content _ _ _ _ _ _ Hrun)
    as (call & rootId & rootName & rootClass & st & Hcall & Htr & -> & ->).
  simpl. exists st.
  pose proof (clampDepth_range (arg_depth args) config) as Hclamp.
  destruct (root_call_observations call Hcall) as (Hq0 & Hc0 & Hp0 & Hpf0 & Hno0).
  destruct (initial_expanded_once call rootId rootClass Hcall) as (H1 & H2 & H3).
  pose proof (initial_dedup call rootId rootClass Hcall) as Hdd.
  assert (classes_exact client rootId rootClass (initial_state [call] rootId rootClass))
    as Hcl.
  { unfold classes_exact, initial_state. cbn [classCache allRels trace]. rewrite Hc0.
    split; [apply lookup_singleton_eq|]. split; [|split].
    - intros id cls Hl. destruct (decide (Some id = rootId)) as [<-|Hne].
      + rewrite lookup_singleton_eq in Hl. inversion Hl. unfold node_class.
        by rewrite is_id_refl.
      + rewrite lookup_singleton_ne in Hl by congruence. discriminate.
    - intros e He. by apply elem_of_nil in He.
    - intros id _. apply not_elem_of_nil. }
  assert (levels_ok client (clampDepth (arg_depth args) config) (effectiveDirection args)
            (arg_type args) rootId (initial_state [call] rootId rootClass)) as Hlv.
  { unfold levels_ok, initial_state. cbn [trace]. rewrite Hq0. split.
    - intros id Hid. by apply elem_of_nil in Hid.
    - intros src e He. by apply Hno0 in He. }
  assert (shown_only (arg_class args) (initial_state [call] rootId rootClass)) as Hsh
    by (intros e He; by apply elem_of_nil in He).
  pose proof (level_root client (effectiveDirection args) (arg_type args) rootId) as Hroot.
  destruct (traverse_expansions _ _ _ _ _ _ _ _ _ _ _ _ H1 Hdd Hcl H2 H3 Hroot Htr)
    as [Hfirst Hall].
  split; [reflexivity|]. split; [reflexivity|].
  split; [exact (traverse_classes_exact _ _ _ _ _ _ _ _ _ _ _ _ Hcl Htr)|].
  split; [exact (traverse_levels _ _ _ _ _ _ _ _ _ _ _ Hlv Hroot Htr)|].
  split; [exact (traverse_shown_only _ _ _ _ _ _ _ _ _ _ Hsh Htr)|].
  split; [apply Hfirst; lia|].
  intros src Hsrc. apply Hall; [exact Hsrc|].
  unfold initial_state. cbn [trace]. rewrite Hq0. apply not_elem_of_nil.
Qed.

Lemma relationships_pushed fuel args client config p tr e :
  handler_run fuel args client config = Some (Content p, tr) ->
  e ∈ relationships p <-> exists src, e ∈ pushed_from src tr.
Proof.
  intros Hrun.
  destruct (handler_run_sound _ _ _ _ _ _ Hrun)
    as (st & _ & _ & _ & (_ & Hrels & _) & Hr & -> & _).
  rewrite Hr, Hrels, pushes_elem. split; intros (src & H); exists src;
    by apply pushed_from_elem.
Qed.

(** What a reported edge owes to the row it was built from. *)
Lemma pushed_candidate fuel args client config p tr src e :
  handler_run fuel args client config = Some (Content p, tr) ->
  e ∈ pushed_from src tr ->
  exists rec c,
    rec ∈ rows_of client src
    /\ candidate (effectiveDirection args) (arg_type args) src rec = Some c
    /\ e = relNode c (rel_class e) (rel_depth e).
Proof.
  intros Hrun He.
  destruct (handler_run_sound _ _ _ _ _ _ Hrun)
    as (st & _ & _ & _ & (_ & _ & Hp) & _ & -> & _).
  apply pushed_from_elem in He. destruct (Hp src e He) as (c & Hfirst & He' & _).
  destruct (first_with_key_row _ _ _ _ _ _ Hfirst) as (rec & Hrec & Hc).
  by exists rec, c.
Qed.

Lemma candidate_type direction typeFilter currentId rec c :
  candidate direction typeFilter currentId rec = Some c ->
  typeName c = str_or (extractDisplay (rec_type rec)) "Related to"
  /\ forall t, given typeFilter = Some t ->
       includes (toLowerCase (typeName c)) (toLowerCase t) = true.
Proof.
  unfold candidate.
  destruct (is_id (extractValue (rec_parent rec)) currentId);
    [|destruct (is_id (extractValue (rec_child rec)) currentId)];
    try (intros H; discriminate H).
  all: destruct (is_id _ currentId); try (intros H; discriminate H).
  all: destruct (_ && _)%bool; try (intros H; discriminate H).
  all: destruct (given typeFilter) as [t0|];
    [destruct (includes _ _) eqn:E; simpl|]; try (intros H; discriminate H).
  all: intros H; inversion H; subst; simpl; split; try reflexivity.
  all: intros t Ht; inversion Ht; by subst.
Qed.

Lemma str_or_nonempty (s d : string) : d <> "" -> str_or s d <> "".
Proof.
  intros Hd. unfold str_or. destruct (String.eqb s "") eqn:E; [exact Hd|].
  by apply String.eqb_neq in E.
Qed.

Lemma nodup_all_eq {A} (l : list A) (r : A) :
  NoDup l -> (forall x, x ∈ l -> x = r) -> r ∈ l -> l = [r].
Proof.
  intros Hn Hall Hr. destruct l as [|a l]; [by apply elem_of_nil in Hr|].
  rewrite (Hall a) by apply list_elem_of_here. f_equal.
  destruct l as [|b l]; [reflexivity|].
  apply NoDup_cons in Hn as [Hnin _]. exfalso. apply Hnin.
  rewrite (Hall a) by apply list_elem_of_here.
  rewrite <- (Hall b) at 1 by (apply list_elem_of_further, list_elem_of_here).
  apply list_elem_of_here.
Qed.

Lemma edges_of_elem client classFilter root rootClass d cands e :
  e ∈ edges_of client classFilter root rootClass d cands <->
  exists c, c ∈ cands
            /\ class_shown classFilter (node_class client root rootClass (otherId c)) = true
            /\ e = relNode c (node_class client root rootClass (otherId c)) d.
Proof.
  unfold edges_of. rewrite list_elem_of_omap. split.
  - intros (c & Hc & H). exists c. split; [exact Hc|].
    simpl in H. destruct (class_shown _ _); [|discriminate]. inversion H. by split.
  - intros (c & Hc & Hs & ->). exists c. split; [exact Hc|]. simpl. by rewrite Hs.
Qed.

(** ** Self-loop guard *)

(** X1. No reported edge leads from a node to itself: the endpoint of an edge
    is never the node that was being expanded when the edge was reported, and
    so no edge at depth 1 leads to the root. *)
Theorem no_self_loop_edges fuel args client config p tr
    (Hrun : handler_run fuel args client config = Some (Content p, tr)) :
  (forall src e, e ∈ pushed_from src tr -> Some (rel_sys_id e) <> src)
  /\ (forall e, e ∈ relationships p -> rel_depth e = 1 ->
        Some (rel_sys_id e) <> root_sys_id p).
Proof.
  assert (forall src e, e ∈ pushed_from src tr -> Some (rel_sys_id e) <> src) as Hfirst.
  { intros src e He.
    destruct (pushed_candidate _ _ _ _ _ _ _ _ Hrun He) as (rec & c & _ & Hc & ->).
    simpl. by destruct (candidate_endpoint _ _ _ _ _ Hc) as (_ & _ & _ & _ & Hne). }
  split; [exact Hfirst|]. intros e He Hd.
  apply (relationships_pushed _ _ _ _ _ _ _ Hrun) in He as (src & He).
  destruct (handler_run_facts _ _ _ _ _ _ Hrun) as (st & _ & -> & _ & [_ Hlv] & _).
  pose proof He as He'. apply pushed_from_elem in He'.
  destruct (Hlv src e He') as [_ Hlevel]. rewrite Hd in Hlevel.
  apply level_1_root in Hlevel. subst src. by apply Hfirst.
Qed.

Lemma no_self_loop_edges_witness :
  (forall src e, e ∈ pushed_from src (snd cycle_run) -> Some (rel_sys_id e) <> src)
  /\ (forall e, e ∈ relationships (payload (fst cycle_run)) -> rel_depth e = 1 ->
        Some (rel_sys_id e) <> root_sys_id (payload (fst cycle_run))).
Proof.
  apply (no_self_loop_edges 5%nat (request "A" 9 both) cycle default_config
           (payload (fst cycle_run)) (snd cycle_run)).
  vm_compute. reflexivity.
Defined.

(** ** Directions and filters of the reported edges *)

(** X2. Every reported edge is an upstream or a downstream edge, and when the
    effective direction is not "both" every reported edge has that
    direction. *)
Theorem edge_directions fuel args client config p tr
    (Hrun : handler_run fuel args client config = Some (Content p, tr)) :
  forall e, e ∈ relationships p ->
    (rel_direction e = "downstream" \/ rel_direction e = "upstream")
    /\ (effectiveDirection args <> both ->
        rel_direction e = dir_name (effectiveDirection args)).
Proof.
  intros e He.
  apply (relationships_pushed _ _ _ _ _ _ _ Hrun) in He as (src & He).
  destruct (pushed_candidate _ _ _ _ _ _ _ _ Hrun He) as (rec & c & _ & Hc & ->).
  simpl. split; [by eapply candidate_relDir | by eapply candidate_direction].
Qed.

Lemma edge_directions_witness :
  (forall e, e ∈ relationships (payload (fst parallel_run)) ->
     (rel_direction e = "downstream" \/ rel_direction e = "upstream")
     /\ (effectiveDirection (request "A" 2 downstream) <> both ->
         rel_direction e = dir_name (effectiveDirection (request "A" 2 downstream))))
  /\ rel_direction <$> relationships (payload (fst parallel_run))
     = ["downstream"; "downstream"; "downstream"].
Proof.
  split; [|by vm_compute].
  apply (edge_directions 5%nat (request "A" 2 downstream) parallel default_config
           (payload (fst parallel_run)) (snd parallel_run)).
  vm_compute. reflexivity.
Defined.

(** X3. The type text of a reported edge is never empty: it is the type
    display of a row of a fetched response, or "Related to" when that row has
    no type display.  With a type filter every reported type contains the
    filter, and with a class filter every reported class contains the filter,
    both case-insensitively. *)
Theorem filters_are_sound fuel args client config p tr
    (Hrun : handler_run fuel args client config = Some (Content p, tr)) :
  forall e, e ∈ relationships p ->
    rel_type e <> ""
    /\ (exists src rec,
          rec ∈ rows_of client src
          /\ rel_type e = str_or (extractDisplay (rec_type rec)) "Related to")
    /\ (forall t, given (arg_type args) = Some t ->
          includes (toLowerCase (rel_type e)) (toLowerCase t) = true)
    /\ (forall k, given (arg_class args) = Some k ->
          exists cls, rel_class e = Some cls
                      /\ includes (toLowerCase cls) (toLowerCase k) = true).
Proof.
  intros e He.
  destruct (handler_run_facts _ _ _ _ _ _ Hrun) as (st & Hr & _ & _ & _ & Hsh & _).
  assert (class_shown (arg_class args) (rel_class e) = true) as Hclass
    by (apply Hsh; by rewrite <- Hr).
  apply (relationships_pushed _ _ _ _ _ _ _ Hrun) in He as (src & He).
  destruct (pushed_candidate _ _ _ _ _ _ _ _ Hrun He) as (rec & c & Hrec & Hc & He').
  destruct (candidate_type _ _ _ _ _ Hc) as [Hname Hfilter].
  assert (rel_type e = typeName c) as -> by (by rewrite He').
  split; [rewrite Hname; by apply str_or_nonempty|].
  split; [by exists src, rec|]. split; [exact Hfilter|].
  intros k Hk. unfold class_shown, class_test in Hclass. rewrite Hk in Hclass.
  destruct (rel_class e) as [cls|]; [|discriminate]. by exists cls.
Qed.

(** ** Levels of the expanded nodes *)

(** X4. Every node whose rows are fetched is reached from the root along rows
    that pass the self-loop guard and the direction and type filters, at a
    level between 1 and the effective depth; the depth of every edge lies
    between 1 and the effective depth and is such a level of the node the
    edge was found from.  With effective depth 1 the root is the only node
    fetched. *)
Theorem expanded_nodes_are_reachable fuel args client config p tr
    (Hrun : handler_run fuel args client config = Some (Content p, tr)) :
  (forall id, id ∈ queried tr ->
     exists d, 1 <= d <= clampDepth (arg_depth args) config
               /\ level client (effectiveDirection args) (arg_type args)
                        (root_sys_id p) d id)
  /\ (forall src e, e ∈ pushed_from src tr ->
        1 <= rel_depth e <= clampDepth (arg_depth args) config
        /\ level client (effectiveDirection args) (arg_type args) (root_sys_id p)
                 (rel_depth e) src)
  /\ (clampDepth (arg_depth args) config = 1 -> queried tr = [root_sys_id p]).
Proof.
  pose proof (handler_run_depth_bound _ _ _ _ _ _ Hrun) as Hbound.
  destruct (handler_run_sound _ _ _ _ _ _ Hrun)
    as (st0 & _ & _ & _ & (_ & Hpushes & _) & Hrel & Htr0 & _).
  rewrite Hrel, Hpushes, <- Htr0 in Hbound. clear st0 Hpushes Hrel Htr0.
  destruct (handler_run_facts _ _ _ _ _ _ Hrun)
    as (st & _ & -> & _ & [Hq Hp] & _ & [Hroot _] & _).
  split; [exact Hq|]. split.
  - intros src e He. apply pushed_from_elem in He. split; [|by apply Hp].
    apply Hbound. apply pushes_elem. by exists src.
  - intros Hone.
    destruct (handler_run_sound _ _ _ _ _ _ Hrun) as (st' & [_ Hn] & _ & _ & _ & _ & Htr & _).
    apply nodup_all_eq; [by rewrite Htr | | exact Hroot].
    intros id Hid. destruct (Hq id Hid) as (d & Hd & Hl).
    assert (d = 1) as -> by lia. by apply level_1_root in Hl.
Qed.

(** ** Classes of the reported edges *)

(** X5. The class of the root is never looked up again: an edge that leads
    back to the root carries the class found when the root was resolved, any
    other edge the class computed from the lookup of its endpoint; so two
    edges to the same node report the same class. *)
Theorem classes_are_consistent fuel args client config p tr
    (Hrun : handler_run fuel args client config = Some (Content p, tr)) :
  (forall id, root_sys_id p = Some id -> id ∉ class_lookups tr)
  /\ (forall e, e ∈ relationships p ->
        rel_class e = node_class client (root_sys_id p) (root_class p) (rel_sys_id e))
  /\ (forall e1 e2, e1 ∈ relationships p -> e2 ∈ relationships p ->
        rel_sys_id e1 = rel_sys_id e2 -> rel_class e1 = rel_class e2).
Proof.
  destruct (handler_run_facts _ _ _ _ _ _ Hrun)
    as (st & Hr & -> & (_ & _ & Hrels & Hlook) & _).
  split; [exact Hlook|]. rewrite Hr. split; [exact Hrels|].
  intros e1 e2 H1 H2 Heq. by rewrite (Hrels e1 H1), (Hrels e2 H2), Heq.
Qed.

(** ** What each expansion reports *)

(** X6. For every node whose rows are fetched, the edges reported from it
    are, in row order, exactly the edges of its expansion at one level: one
    edge for the first row with each (other endpoint, direction) key among
    the rows that pass the self-loop guard and the direction and type
    filters, left out when the class filter hides the class of the endpoint.
    The root is expanded at level 1. *)
Theorem expansions_are_exact fuel args client config p tr
    (Hrun : handler_run fuel args client config = Some (Content p, tr)) :
  (root_sys_id p ∈ queried tr
   /\ pushed_from (root_sys_id p) tr
      = expansion client (effectiveDirection args) (arg_type args) (arg_class args)
                  (root_sys_id p) (root_class p) (root_sys_id p) 1)
  /\ forall src, src ∈ queried tr ->
       exists d, 1 <= d <= clampDepth (arg_depth args) config
                 /\ pushed_from src tr
                    = expansion client (effectiveDirection args) (arg_type args)
                                (arg_class args) (root_sys_id p) (root_class p) src d.
Proof.
  destruct (handler_run_facts _ _ _ _ _ _ Hrun)
    as (st & _ & _ & _ & _ & _ & Hroot & Hall).
  split; [exact Hroot|]. intros src Hsrc.
  destruct (Hall src Hsrc) as (d & Hd & _ & Hexp). by exists d.
Qed.

(** X7. No row of a fetched response is dropped: when a node is expanded,
    every row of its response that passes the self-loop guard and the
    direction and type filters has its other endpoint reported from that
    node, in the row's direction, unless the class filter hides the class of
    that endpoint. *)
Theorem expansion_is_complete fuel args client config p tr
    (Hrun : handler_run fuel args client config = Some (Content p, tr)) :
  forall src rec c,
    src ∈ queried tr -> rec ∈ rows_of client src ->
    candidate (effectiveDirection args) (arg_type args) src rec = Some c ->
    class_shown (arg_class args)
                (node_class client (root_sys_id p) (root_class p) (otherId c)) = true ->
    exists e,
      e ∈ pushed_from src tr /\ e ∈ relationships p
      /\ rel_sys_id e = otherId c /\ rel_direction e = relDir c.
Proof.
  intros src rec c Hsrc Hrec Hc Hshown.
  destruct (handler_run_facts _ _ _ _ _ _ Hrun)
    as (st & _ & _ & _ & _ & _ & _ & Hall).
  destruct (Hall src Hsrc) as (d & _ & _ & Hexp).
  assert (c ∈ candidates (effectiveDirection args) (arg_type args) src (rows_of client src))
    as Hin by (unfold candidates; apply list_elem_of_omap; by exists rec).
  destruct (fresh_covers ∅ _ c Hin) as [Hk|(c' & Hc' & Hk)];
    [by apply not_elem_of_empty in Hk|].
  pose proof (fresh_subset _ _ _ Hc') as Hc'in.
  destruct (pairKey_inj c' c (candidates_relDir _ _ _ _ _ Hc'in)
              (candidates_relDir _ _ _ _ _ Hin) Hk) as [Hid Hdir].
  exists (relNode c' (node_class client (root_sys_id p) (root_class p) (otherId c')) d).
  assert (relNode c' (node_class client (root_sys_id p) (root_class p) (otherId c')) d
          ∈ pushed_from src tr) as He.
  { rewrite Hexp. unfold expansion. apply edges_of_elem. exists c'.
    split; [exact Hc'|]. split; [by rewrite Hid | reflexivity]. }
  split; [exact He|].
  split; [apply (relationships_pushed _ _ _ _ _ _ _ Hrun); by exists src|].
  by split.
Qed.

(** X8. All edges reported from one node carry the same depth; the edges
    reported from the root are the edges of depth 1. *)
Theorem depth_is_the_level_of_the_source fuel args client config p tr
    (Hrun : handler_run fuel args client config = Some (Content p, tr)) :
  (forall src e1 e2, e1 ∈ pushed_from src tr -> e2 ∈ pushed_from src tr ->
     rel_depth e1 = rel_depth e2)
  /\ (forall e, e ∈ relationships p ->
        rel_depth e = 1 <-> e ∈ pushed_from (root_sys_id p) tr).
Proof.
  destruct (handler_run_facts _ _ _ _ _ _ Hrun)
    as (st & _ & Htr & _ & [_ Hlv] & _ & [_ Hroot] & Hall).
  destruct (handler_run_sound _ _ _ _ _ _ Hrun)
    as (st' & _ & _ & [Hnone _] & _ & _ & Htr' & _).
  assert (forall src e, e ∈ pushed_from src tr -> src ∈ queried tr) as Hsrc.
  { intros src e He. destruct (decide (src ∈ queried tr)) as [|Hn]; [assumption|].
    rewrite Htr' in Hn, He. rewrite (Hnone src Hn) in He. by apply elem_of_nil in He. }
  assert (forall src d e,
             e ∈ expansion client (effectiveDirection args) (arg_type args)
                   (arg_class args) (root_sys_id p) (root_class p) src d ->
             rel_depth e = d) as Hdepth.
  { intros src d e He. unfold expansion in He.
    apply edges_of_elem in He as (c & _ & _ & ->). reflexivity. }
  split.
  - intros src e1 e2 H1 H2. destruct (Hall src (Hsrc _ _ H1)) as (d & _ & _ & Hexp).
    rewrite Hexp in H1, H2. by rewrite (Hdepth _ _ _ H1), (Hdepth _ _ _ H2).
  - intros e He. split.
    + intros Hd. apply (relationships_pushed _ _ _ _ _ _ _ Hrun) in He as (src & He).
      pose proof He as He'. rewrite Htr in He'. apply pushed_from_elem in He'.
      destruct (Hlv src e He') as [_ Hl]. rewrite Hd in Hl.
      apply level_1_root in Hl. by subst.
    + intros Hin. rewrite Hroot in Hin. by apply Hdepth in Hin.
Qed.

(** The statements above at example runs. *)

Lemma filters_are_sound_witness :
  (forall e, e ∈ relationships (payload (fst filtered_run)) ->
     rel_type e <> ""
     /\ (exists src rec,
           rec ∈ rows_of parallel src
           /\ rel_type e = str_or (extractDisplay (rec_type rec)) "Related to")
     /\ (forall t, given (arg_type filtered_request) = Some t ->
           includes (toLowerCase (rel_type e)) (toLowerCase t) = true)
     /\ (forall k, given (arg_class filtered_request) = Some k ->
           exists cls, rel_class e = Some cls
                       /\ includes (toLowerCase cls) (toLowerCase k) = true))
  /\ ((fun e => (rel_sys_id e, rel_type e, rel_class e, rel_depth e))
        <$> relationships (payload (fst filtered_run)))
     = [("B", "Depends on::Used by", Some "cmdb_ci_server", 1);
        ("B", "Depends on::Used by", Some "cmdb_ci_server", 2)].
Proof.
  split; [|by vm_compute].
  apply (filters_are_sound 5%nat filtered_request parallel default_config
           (payload (fst filtered_run)) (snd filtered_run)).
  vm_compute. reflexivity.
Defined.

Lemma expanded_nodes_are_reachable_witness :
  (forall id, id ∈ queried (snd cycle_run) ->
     exists d, 1 <= d <= clampDepth (arg_depth (request "A" 9 both)) default_config
               /\ level cycle (effectiveDirection (request "A" 9 both))
                        (arg_type (request "A" 9 both))
                        (root_sys_id (payload (fst cycle_run))) d id)
  /\ (forall src e, e ∈ pushed_from src (snd cycle_run) ->
        1 <= rel_depth e <= clampDepth (arg_depth (request "A" 9 both)) default_config
        /\ level cycle (effectiveDirection (request "A" 9 both))
                 (arg_type (request "A" 9 both))
                 (root_sys_id (payload (fst cycle_run))) (rel_depth e) src)
  /\ (clampDepth (arg_depth (request "A" 9 both)) default_config = 1 ->
      queried (snd cycle_run) = [root_sys_id (payload (fst cycle_run))]).
Proof.
  apply (expanded_nodes_are_reachable 5%nat (request "A" 9 both) cycle default_config
           (payload (fst cycle_run)) (snd cycle_run)).
  vm_compute. reflexivity.
Defined.

Lemma classes_are_consistent_witness :
  (forall id, root_sys_id (payload (fst flaky_run)) = Some id ->
     id ∉ class_lookups (snd flaky_run))
  /\ (forall e, e ∈ relationships (payload (fst flaky_run)) ->
        rel_class e = node_class flaky (root_sys_id (payload (fst flaky_run)))
                                 (root_class (payload (fst flaky_run))) (rel_sys_id e))
  /\ (forall e1 e2, e1 ∈ relationships (payload (fst flaky_run)) ->
        e2 ∈ relationships (payload (fst flaky_run)) ->
        rel_sys_id e1 = rel_sys_id e2 -> rel_class e1 = rel_class e2).
Proof.
  apply (classes_are_consistent 5%nat (request "A" 3 both) flaky default_config
           (payload (fst flaky_run)) (snd flaky_run)).
  vm_compute. reflexivity.
Defined.

Lemma expansions_are_exact_witness :
  (root_sys_id (payload (fst filtered_run)) ∈ queried (snd filtered_run)
   /\ pushed_from (root_sys_id (payload (fst filtered_run))) (snd filtered_run)
      = expansion parallel (effectiveDirection filtered_request)
                  (arg_type filtered_request) (arg_class filtered_request)
                  (root_sys_id (payload (fst filtered_run)))
                  (root_class (payload (fst filtered_run)))
                  (root_sys_id (payload (fst filtered_run))) 1)
  /\ forall src, src ∈ queried (snd filtered_run) ->
       exists d, 1 <= d <= clampDepth (arg_depth filtered_request) default_config
                 /\ pushed_from src (snd filtered_run)
                    = expansion parallel (effectiveDirection filtered_request)
                                (arg_type filtered_request) (arg_class filtered_request)
                                (root_sys_id (payload (fst filtered_run)))
                                (root_class (payload (fst filtered_run))) src d.
Proof.
  apply (expansions_are_exact 5%nat filtered_request parallel default_config
           (payload (fst filtered_run)) (snd filtered_run)).
  vm_compute. reflexivity.
Defined.

Lemma expansion_is_complete_witness :
  exists e,
    e ∈ pushed_from (Some "A") (snd parallel_run)
    /\ e ∈ relationships (payload (fst parallel_run))
    /\ rel_sys_id e = "B" /\ rel_direction e = "downstream".
Proof.
  apply (expansion_is_complete 5%nat (request "A" 2 downstream) parallel default_config
           (payload (fst parallel_run)) (snd parallel_run)
           ltac:(vm_compute; reflexivity)
           (Some "A") (row "A" "B" "Depends on::Used by")
           (mkCandidate "B" "B" "downstream" "Depends on::Used by")).
  - vm_compute. apply list_elem_of_here.
  - vm_compute. apply list_elem_of_further, list_elem_of_here.
  - vm_compute. reflexivity.
  - vm_compute. reflexivity.
Defined.

Lemma depth_is_the_level_of_the_source_witness :
  (forall src e1 e2, e1 ∈ pushed_from src (snd cycle_run) ->
     e2 ∈ pushed_from src (snd cycle_run) -> rel_depth e1 = rel_depth e2)
  /\ (forall e, e ∈ relationships (payload (fst cycle_run)) ->
        rel_depth e = 1
        <-> e ∈ pushed_from (root_sys_id (payload (fst cycle_run))) (snd cycle_run)).
Proof.
  apply (depth_is_the_level_of_the_source 5%nat (request "A" 9 both) cycle
           default_config (payload (fst cycle_run)) (snd cycle_run)).
  vm_compute. reflexivity.
Defined.

(** ** Root resolution by name, and empty arguments *)

Section SameRemote.

Variable client client' : Client.
Variable maxDepth : Z.
Variable direction : Direction.
Variable typeFilter classFilter typeFilter' classFilter' : option string.
Hypothesis same_class : forall id, get_class client id = get_class client' id.
Hypothesis same_rows : forall id, query_rels client id = query_rels client' id.
Hypothesis same_type : given typeFilter = given typeFilter'.
Hypothesis same_filter : given classFilter = given classFilter'.

Lemma candidate_same currentId rec :
  candidate direction typeFilter currentId rec
  = candidate direction typeFilter' currentId rec.
Proof. unfold candidate. by rewrite same_type. Qed.

Lemma report_same currentId currentDepth c st :
  report client classFilter currentId currentDepth c st
  = report client' classFilter' currentId currentDepth c st.
Proof. unfold report, getClass, class_test. by rewrite same_class, same_filter. Qed.

Lemma loop_same recurse recurse' currentId currentDepth :
  (forall id st, recurse id st = recurse' id st) ->
  forall records seen st,
    loop client maxDepth direction typeFilter classFilter
         recurse currentId currentDepth records seen st
    = loop client' maxDepth direction typeFilter' classFilter'
           recurse' currentId currentDepth records seen st.
Proof.
  intros Hrec records. induction records as [|rec rest IH]; intros seen st; simpl;
    [reflexivity|].
  rewrite candidate_same. destruct (candidate _ _ _ _); [|apply IH].
  destruct (decide _); [apply IH|].
  rewrite report_same. destruct (report client' _ _ _ _ _) as [st1|error st1];
    [|reflexivity].
  destruct (_ && _)%bool; [|apply IH].
  rewrite Hrec. destruct (recurse' _ _) as [[st2|error st2]|];
    [apply IH | reflexivity | reflexivity].
Qed.

Lemma traverse_same fuel :
  forall id currentDepth st,
    traverse client maxDepth direction typeFilter classFilter fuel id currentDepth st
    = traverse client' maxDepth direction typeFilter' classFilter'
               fuel id currentDepth st.
Proof.
  induction fuel as [|fuel IH]; intros id currentDepth st; simpl; [reflexivity|].
  destruct (currentDepth >? maxDepth); [reflexivity|].
  rewrite same_rows. destruct (query_rels client' (id_text id)) as [e| |result];
    [reflexivity | reflexivity |].
  apply loop_same. intros. apply IH.
Qed.

End SameRemote.

Lemma given_idem (o : option string) : given (given o) = given o.
Proof.
  unfold given. destruct o as [s|]; [|reflexivity].
  destruct (String.eqb s "") eqn:E; [reflexivity | by rewrite E].
Qed.

(** X9. A root named by [ci_name] is the first record the remote lists for
    that name; the records after the first have no effect on the result or
    on the calls. *)
Theorem root_by_name_is_the_first_record fuel args client config :
  handler_run fuel args client config = handler_run fuel args (first_only client) config.
Proof.
  unfold handler_run. simpl.
  destruct (given (arg_ci_name args)) as [name|], (given (arg_sys_id args)) as [id|];
    try reflexivity.
  by destruct (find_ci client name) as [e| |[[|ci more]|]].
Qed.

(** X10. An argument given as the empty string is an absent argument: the
    handler returns what it returns for the request without the empty
    [ci_name], [sys_id], [type] and [class]. *)
Theorem empty_arguments_are_absent fuel args client config :
  handler_run fuel args client config
  = handler_run fuel (blank_as_absent args) client config.
Proof.
  unfold handler_run, blank_as_absent. simpl. rewrite !given_idem.
  assert (forall calls rootId rootName rootClass,
             walk fuel args client config calls rootId rootName rootClass
             = walk fuel (blank_as_absent args) client config calls
                    rootId rootName rootClass) as Hwalk.
  { intros. unfold walk, blank_as_absent, effectiveDirection. simpl.
    rewrite (traverse_same client client _ _ (arg_type args) (arg_class args)
               (given (arg_type args)) (given (arg_class args)));
      [reflexivity | reflexivity | reflexivity
      | by rewrite given_idem | by rewrite given_idem]. }
  destruct (given (arg_ci_name args)) as [name|], (given (arg_sys_id args)) as [id|];
    try reflexivity.
  - destruct (get_ci client id) as [e| |[ci|]]; try reflexivity.
    destruct (given (ci_name ci)); [|reflexivity]. apply Hwalk.
  - destruct (find_ci client name) as [e| |res]; try reflexivity.
    destruct (default [] res) as [|ci ?]; [reflexivity|]. apply Hwalk.
  - destruct (get_ci client id) as [e| |[ci|]]; try reflexivity.
    destruct (given (ci_name ci)); [|reflexivity]. apply Hwalk.
Qed.


(* ===================================================================== *)
(** * Properties of the configuration *)
(* ===================================================================== *)

Lemma app_empty_l (s : string) : "" ++ s = s.
Proof. reflexivity. Qed.

Lemma strip_spec (s : string) :
  exists slashes,
    s = strip_trailing_slashes s ++ slashes
    /\ all_chars (fun c => Ascii.eqb c "/") slashes = true
    /\ forall body, strip_trailing_slashes s <> body ++ "/".
Proof.
  induction s as [|c s (slashes & Heq & Hall & Hend)].
  - exists "". split; [reflexivity|]. split; [reflexivity|].
    intros [|b body] H; discriminate H.
  - simpl. destruct (strip_trailing_slashes s) as [|c' stripped] eqn:Hs.
    + rewrite app_empty_l in Heq. subst s.
      destruct (Ascii.eqb c "/") eqn:Hc.
      * apply Ascii.eqb_eq in Hc. subst c. exists (String "/" slashes).
        split; [by rewrite app_empty_l|]. split; [exact Hall|].
        intros [|b body] H; discriminate H.
      * exists slashes. split; [by rewrite app_cons, app_empty_l|].
        split; [exact Hall|].
        intros [|b body] H.
        -- rewrite app_empty_l in H. inversion H. subst.
           by rewrite Ascii.eqb_refl in Hc.
        -- rewrite app_cons in H. inversion H as [[Hb Hrest]].
           destruct body; discriminate Hrest.
    + exists slashes. split; [rewrite app_cons; by rewrite <- Heq|].
      split; [exact Hall|].
      intros [|b body] H; [rewrite app_empty_l in H; discriminate H|].
      rewrite app_cons in H. inversion H as [[Hb Hrest]]. by eapply Hend.
Qed.

Lemma given_default (o : option string) :
  given o <> None -> o = Some (default "" o) /\ default "" o <> "".
Proof.
  intros H. apply (proj1 (not_eq_None_Some _)) in H as [s Hs].
  apply given_Some in Hs as [-> Hne]. by split.
Qed.

Section LoadConfigProperties.

Variable Number : Type.
Variable parseInt10 : string -> Number.
Variable isNaN : Number -> bool.
Variable three : Number.

Abbreviation loadConfig' := (loadConfig Number parseInt10 isNaN three).

Lemma loadConfig_cases env :
  (missing_variables env = []
   /\ given (SN_INSTANCE env) <> None /\ given (SN_USER env) <> None
   /\ given (SN_PASSWORD env) <> None
   /\ exists cfg, loadConfig' env = inr cfg)
  \/ (missing_variables env <> []
      /\ loadConfig' env
         = inl ("Missing required environment variable(s): "
                ++ join ", " (missing_variables env) ++ missing_help)).
Proof.
  unfold loadConfig, missing_variables.
  destruct (given (SN_INSTANCE env)), (given (SN_USER env)), (given (SN_PASSWORD env));
    simpl; (left; repeat split; try discriminate; eauto; fail) || (right; by split).
Qed.

(** X11. [loadConfig] succeeds exactly when instance, user and password are
    all set and non-empty, and then returns user and password as they are
    and "true" for an unset display-value mode.  Otherwise it fails with the
    message that lists, in the order instance, user, password and separated
    by commas, exactly the names of the variables that are unset or empty. *)
Theorem config_requires_credentials env :
  ((exists cfg, loadConfig' env = inr cfg)
   <-> given (SN_INSTANCE env) <> None /\ given (SN_USER env) <> None
       /\ given (SN_PASSWORD env) <> None)
  /\ (forall cfg, loadConfig' env = inr cfg ->
        SN_USER env = Some (cfg_user cfg) /\ SN_PASSWORD env = Some (cfg_password cfg)
        /\ cfg_displayValue cfg = default "true" (SN_DISPLAY_VALUE env))
  /\ (forall message, loadConfig' env = inl message ->
        message = "Missing required environment variable(s): "
                  ++ join ", " (fst <$> List.filter (fun v => negb (bool_decide (given (snd v) <> None)))
                                        [("SN_INSTANCE", SN_INSTANCE env);
                                         ("SN_USER", SN_USER env);
                                         ("SN_PASSWORD", SN_PASSWORD env)])
                  ++ missing_help).
Proof.
  split; [|split].
  - destruct (loadConfig_cases env) as [(_ & Hi & Hu & Hp & Hcfg)|[Hm Hfail]].
    + split; [by intros _ | by intros _].
    + split; [intros [cfg Hcfg]; rewrite Hfail in Hcfg; discriminate|].
      intros (Hi & Hu & Hp). exfalso. apply Hm. unfold missing_variables.
      destruct (given (SN_INSTANCE env)), (given (SN_USER env)),
        (given (SN_PASSWORD env)); try reflexivity; contradiction.
  - intros cfg Hcfg.
    destruct (loadConfig_cases env) as [(Hm & _ & Hu & Hp & _)|[_ Hfail]];
      [|rewrite Hfail in Hcfg; discriminate].
    unfold loadConfig in Hcfg. rewrite Hm in Hcfg. simpl in Hcfg.
    inversion Hcfg; subst; simpl.
    split; [by apply given_default|]. split; [by apply given_default | reflexivity].
  - intros message Hmsg.
    destruct (loadConfig_cases env) as [(_ & _ & _ & _ & cfg & Hcfg)|[_ Hfail]];
      [rewrite Hcfg in Hmsg; discriminate|].
    rewrite Hfail in Hmsg. inversion Hmsg. f_equal. f_equal. f_equal.
    unfold missing_variables. simpl.
    destruct (given (SN_INSTANCE env)), (given (SN_USER env)),
      (given (SN_PASSWORD env)); reflexivity.
Qed.



(** X12. The instance of a loaded configuration is the configured instance
    without its trailing slashes, with "https://" put in front unless what
    is left starts with "http"; so it always starts with "http", and it ends
    with a slash only when the configured instance consisted of slashes. *)
Theorem instance_is_normalized env cfg (Hload : loadConfig' env = inr cfg) :
  exists body slashes,
    SN_INSTANCE env = Some (body ++ slashes)
    /\ all_chars (fun c => Ascii.eqb c "/") slashes = true
    /\ (forall b, body <> b ++ "/")
    /\ cfg_instance cfg = (if String.prefix "http" body then body else "https://" ++ body)
    /\ String.prefix "http" (cfg_instance cfg) = true
    /\ (forall b, cfg_instance cfg = b ++ "/" -> body = "").
Proof.
  destruct (loadConfig_cases env) as [(Hm & Hi & _ & _ & _)|[_ Hfail]];
    [|rewrite Hfail in Hload; discriminate].
  unfold loadConfig in Hload. rewrite Hm in Hload. simpl in Hload.
  inversion Hload; subst; simpl. clear Hload.
  destruct (given_default _ Hi) as [Hinst _].
  destruct (strip_spec (default "" (SN_INSTANCE env))) as (slashes & Heq & Hall & Hend).
  exists (strip_trailing_slashes (default "" (SN_INSTANCE env))), slashes.
  split; [by rewrite <- Heq|]. split; [exact Hall|]. split; [exact Hend|].
  destruct (String.prefix "http" (strip_trailing_slashes (default "" (SN_INSTANCE env))))
    eqn:Hp; simpl.
  - split; [reflexivity|]. split; [exact Hp|]. intros b Hb. by apply Hend in Hb.
  - split; [reflexivity|]. split; [reflexivity|].
    intros b Hb.
    destruct (strip_trailing_slashes (default "" (SN_INSTANCE env))) as [|c body];
      [reflexivity|].
    exfalso.
    do 8 (destruct b as [|? b]; [discriminate Hb|]; rewrite !app_cons in Hb;
          injection Hb as _ Hb).
    by apply Hend in Hb.
Qed.

End LoadConfigProperties.

Lemma config_requires_credentials_witness :
  (exists cfg, example_load example_env = inr cfg)
  /\ example_load (mkEnv (Some "dev12345.service-now.com") None (Some "") None None)
     = inl ("Missing required environment variable(s): SN_USER, SN_PASSWORD"
            ++ missing_help).
Proof.
  split.
  - apply (proj1 (config_requires_credentials unit (fun _ => tt) (fun _ => false) tt
                    example_env)).
    repeat split; discriminate.
  - reflexivity.
Defined.

Lemma instance_is_normalized_witness :
  exists body slashes,
    SN_INSTANCE example_env = Some (body ++ slashes)
    /\ all_chars (fun c => Ascii.eqb c "/") slashes = true
    /\ (forall b, body <> b ++ "/")
    /\ "https://dev12345.service-now.com"
       = (if String.prefix "http" body then body else "https://" ++ body)
    /\ String.prefix "http" "https://dev12345.service-now.com" = true
    /\ (forall b, "https://dev12345.service-now.com" = b ++ "/" -> body = "").
Proof.
  apply (instance_is_normalized unit (fun _ => tt) (fun _ => false) tt example_env
           (mkLoaded "https://dev12345.service-now.com" "admin" "secret" "true" tt)).
  reflexivity.
Defined.

(* ===================================================================== *)
(* ===================================================================== *)
(** * The number of remote calls *)
(* ===================================================================== *)

Section CallBound.

Variable client : Client.
Variable maxDepth : Z.
Variable direction : Direction.
Variable typeFilter classFilter : option string.
Variable n : nat.
Hypothesis few_rows : forall id, (List.length (rows_of client id) <= n)%nat.

Abbreviation fetches st := (List.length (queried (trace st))).
Abbreviation lookups st := (List.length (class_lookups (trace st))).

Lemma report_lookups currentId currentDepth c st :
  (lookups (reported client classFilter currentId currentDepth c st) <= S (lookups st))%nat.
Proof.
  destruct (report_cases client classFilter currentId currentDepth c st)
    as (cls & st1 & Hg & ->).
  assert (lookups st1 <= S (lookups st))%nat as H1.
  { destruct (getClass_cases client (otherId c) st) as [(cls' & _ & Hg')|[_ Hg']];
      rewrite Hg' in Hg; inversion Hg; subst; [lia|].
    simpl. unfold class_lookups. rewrite omap_app, List.length_app. simpl. lia. }
  destruct (class_shown _ _); [|exact H1].
  simpl. unfold class_lookups in *. rewrite omap_app, List.length_app. simpl. lia.
Qed.

Lemma traverse_call_bound fuel :
  forall id currentDepth st out levels,
    maxDepth - currentDepth + 1 <= Z.of_nat levels ->
    traverse client maxDepth direction typeFilter classFilter fuel id currentDepth st
      = Some out ->
    (fetches st <= fetches (state_of out))%nat
    /\ (fetches (state_of out) <= fetches st + fetch_bound n levels)%nat
    /\ (lookups (state_of out) + n * fetches st
        <= lookups st + n * fetches (state_of out))%nat.
Proof.
  induction fuel as [|fuel IH]; intros id currentDepth st out levels Hlev Hrun;
    [discriminate|].
  simpl in Hrun. destruct (currentDepth >? maxDepth) eqn:Hgt;
    [inversion Hrun; subst; cbn [state_of]; lia|].
  destruct levels as [|levels]; [lia|].
  assert (fetches (observe (CallQueryRels id) st) = S (fetches st)) as Hq1
    by (simpl; unfold queried; rewrite omap_app, List.length_app; simpl; lia).
  assert (lookups (observe (CallQueryRels id) st) = lookups st) as Hl1
    by (simpl; unfold class_lookups; rewrite omap_app, List.length_app; simpl; lia).
  destruct (query_rels client (id_text id)) as [err| |result] eqn:Hquery.
  { inversion Hrun; subst out. cbn [state_of]. rewrite Hq1, Hl1. simpl. lia. }
  { inversion Hrun; subst out. cbn [state_of]. rewrite Hq1, Hl1. simpl. lia. }
  assert (List.length (default [] result) <= n)%nat as Hrows
    by (specialize (few_rows id); unfold rows_of in few_rows; by rewrite Hquery in few_rows).
  set (B := fetch_bound n levels).
  set (I := fun (rest : list Rec) (_ : gset string) (s : TState) =>
              (S (fetches st) <= fetches s)%nat
              /\ (fetches s + List.length rest * B
                  <= S (fetches st) + List.length (default [] result) * B)%nat
              /\ (lookups s + List.length rest + n * S (fetches st)
                  <= lookups st + List.length (default [] result) + n * fetches s)%nat).
  eapply (loop_invariant _ _ _ _ _ _ _ _ I) in Hrun.
  - destruct Hrun as (rest' & seen' & (H1 & H2 & H3) & _).
    assert (List.length (default [] result) * B <= n * B)%nat
      by (apply Nat.mul_le_mono_r; exact Hrows).
    simpl. fold B. split; [lia|]. split; [nia|]. nia.
  - intros rec rest seen s (H1 & H2 & H3) _. simpl in H2, H3. repeat split; lia.
  - intros rec rest seen s c (H1 & H2 & H3) _ _. simpl in H2, H3. repeat split; lia.
  - intros rec rest seen s c (H1 & H2 & H3) _ _. simpl in H2, H3.
    pose proof (report_lookups id currentDepth c s) as Hl.
    unfold I. rewrite report_queried. repeat split; lia.
  - intros rec rest seen s c out' (H1 & H2 & H3) _ _ Hd _ Hrec. simpl in H2, H3.
    pose proof (report_lookups id currentDepth c s) as Hl.
    assert (maxDepth - (currentDepth + 1) + 1 <= Z.of_nat levels) as Hlev' by lia.
    destruct (IH _ _ _ _ levels Hlev' Hrec) as (G1 & G2 & G3).
    change (trace (visited_add (Some (otherId c))
                     (reported client classFilter id currentDepth c s)))
      with (trace (reported client classFilter id currentDepth c s)) in G1, G2, G3.
    rewrite report_queried in G1, G2, G3. fold B in G2.
    unfold I. repeat split; lia.
  - unfold I. rewrite Hq1, Hl1. repeat split; lia.
Qed.

End CallBound.

(** X14. When no response to a row fetch has more than [n] rows, [handler]
    fetches the rows of at most [1 + n + n^2 + n^3 + n^4] nodes (at most
    [1 + n + ... + n^(d-1)] for effective depth [d]) and looks up at most [n]
    classes per node fetched. *)
Theorem remote_calls_are_bounded fuel args client config n r tr
    (Hrows : forall id, (List.length (rows_of client id) <= n)%nat)
    (Hrun : handler_run fuel args client config = Some (r, tr)) :
  (List.length (queried tr)
   <= fetch_bound n (Z.to_nat (clampDepth (arg_depth args) config)))%nat
  /\ (List.length (queried tr) <= fetch_bound n 5)%nat
  /\ (List.length (class_lookups tr) <= n * List.length (queried tr))%nat.
Proof.
  assert (forall a b, (a <= b)%nat -> (fetch_bound n a <= fetch_bound n b)%nat) as Hmono.
  { intros a. induction a as [|a IH]; intros b Hab; [simpl; lia|].
    destruct b as [|b]; [lia|]. simpl. apply le_n_S, Nat.mul_le_mono_l, IH. lia. }
  pose proof (clampDepth_range (arg_depth args) config) as Hclamp.
  assert ((List.length (queried tr)
           <= fetch_bound n (Z.to_nat (clampDepth (arg_depth args) config)))%nat
          /\ (List.length (class_lookups tr) <= n * List.length (queried tr))%nat)
    as [H1 H2].
  { destruct (handler_run_cases _ _ _ _ _ _ Hrun)
      as [(text & _ & [->|(call & -> & Hcall)])
         |(call & rootId & rootName & rootClass & out & Hcall & Htr & -> & _)].
    - simpl. lia.
    - destruct (root_call_observations call Hcall) as (-> & -> & _). simpl. lia.
    - destruct (root_call_observations call Hcall) as (Hq0 & Hc0 & _).
      assert (clampDepth (arg_depth args) config - 1 + 1
              <= Z.of_nat (Z.to_nat (clampDepth (arg_depth args) config))) as Hlev by lia.
      destruct (traverse_call_bound client _ _ _ _ n Hrows _ _ _ _ _ _ Hlev Htr)
        as (_ & G2 & G3).
      unfold initial_state in G2, G3. cbn [trace] in G2, G3.
      rewrite Hq0 in G2, G3. rewrite Hc0 in G3. simpl in G2, G3. split; lia. }
  split; [exact H1|]. split; [|exact H2].
  etransitivity; [exact H1|]. apply Hmono. lia.
Qed.

Lemma remote_calls_are_bounded_witness :
  (List.length (queried (snd cycle_run))
   <= fetch_bound 2 (Z.to_nat (clampDepth (arg_depth (request "A" 9 both)) default_config)))%nat
  /\ (List.length (queried (snd cycle_run)) <= fetch_bound 2 5)%nat
  /\ (List.length (class_lookups (snd cycle_run))
      <= 2 * List.length (queried (snd cycle_run)))%nat.
Proof.
  apply (remote_calls_are_bounded 5%nat (request "A" 9 both) cycle default_config 2%nat
           (fst cycle_run) (snd cycle_run)).
  - intros id. unfold rows_of. generalize (id_text id). clear id. intros id.
    destruct (String.eqb_spec "A" id) as [<-|HA]; [vm_compute; lia|].
    destruct (String.eqb_spec "B" id) as [<-|HB]; [vm_compute; lia|].
    destruct (String.eqb_spec "C" id) as [<-|HC]; [vm_compute; lia|].
    apply String.eqb_neq in HA, HB, HC.
    change (query_rels cycle id)
      with (Returned (A := option (list Rec))
              (Some (List.filter
                       (fun r => (String.eqb (extractValue (rec_parent r)) id
                                  || String.eqb (extractValue (rec_child r)) id)%bool)
                       [row "A" "B" "Depends on::Used by";
                        row "B" "C" "Depends on::Used by";
                        row "C" "A" "Depends on::Used by"]))).
    cbn [default List.filter].
    change (extractValue (rec_parent (row "A" "B" "Depends on::Used by"))) with "A".
    change (extractValue (rec_child (row "A" "B" "Depends on::Used by"))) with "B".
    change (extractValue (rec_parent (row "B" "C" "Depends on::Used by"))) with "B".
    change (extractValue (rec_child (row "B" "C" "Depends on::Used by"))) with "C".
    change (extractValue (rec_parent (row "C" "A" "Depends on::Used by"))) with "C".
    change (extractValue (rec_child (row "C" "A" "Depends on::Used by"))) with "A".
    rewrite HA, HB, HC. simpl. lia.
  - vm_compute. reflexivity.
Defined.

(* ===================================================================== *)
(** * What ends a call with an error after the root is resolved *)
(* ===================================================================== *)

Section Bodies.

Variable client : Client.
Variable maxDepth : Z.
Variable direction : Direction.
Variable typeFilter classFilter : option string.

(** Every row fetch so far was answered with a body or with an error. *)
Abbreviation answered st :=
  (forall id, id ∈ queried (trace st) -> query_rels client (id_text id) <> NoBody).

Lemma traverse_answered fuel :
  forall id currentDepth st st',
    answered st ->
    traverse client maxDepth direction typeFilter classFilter fuel id currentDepth st
      = Some (Done st') ->
    answered st'.
Proof.
  induction fuel as [|fuel IH]; intros id currentDepth st st' Hst Hrun; [discriminate|].
  simpl in Hrun. destruct (currentDepth >? maxDepth); [by inversion Hrun; subst|].
  assert (query_rels client (id_text id) <> NoBody ->
          answered (observe (CallQueryRels id) st)) as Hst1.
  { intros Hid i Hi. simpl in Hi. unfold queried in Hi. rewrite omap_app in Hi.
    apply elem_of_app in Hi as [Hi|Hi]; [by apply Hst|].
    apply list_elem_of_singleton in Hi. by subst. }
  destruct (query_rels client (id_text id)) as [e| |result] eqn:Hquery;
    [inversion Hrun; subst; by apply Hst1 | discriminate |].
  assert (answered (observe (CallQueryRels id) st)) as Hst2 by (by apply Hst1).
  eapply (loop_rule _ _ _ _ _ _ _ _ (fun _ _ s => answered s) (fun _ => True)) in Hrun;
    [by destruct Hrun | | | | | | | exact Hst2]; simpl.
  - auto.
  - auto.
  - intros rec rest seen s c s1 Hs _ _ Hrep _ i Hi.
    rewrite <- (report_done _ _ _ _ _ _ _ Hrep), report_queried in Hi. by apply Hs.
  - intros rec rest seen s c s1 s' Hs _ _ Hrep _ _ Hrec.
    eapply IH; [|exact Hrec]. intros i Hi. simpl in Hi.
    rewrite <- (report_done _ _ _ _ _ _ _ Hrep), report_queried in Hi. by apply Hs.
  - done.
  - done.
Qed.

(** Nothing in the state makes the class test raise: there is no class
    filter, or no class in the cache is undefined. *)
Abbreviation safe st := (given classFilter = None \/ classes_defined st).

Hypothesis bodies : forall id, query_rels client id <> NoBody.

Lemma report_safe currentId currentDepth c st :
  safe st ->
  report client classFilter currentId currentDepth c st
  = Done (reported client classFilter currentId currentDepth c st)
  /\ safe (reported client classFilter currentId currentDepth c st).
Proof.
  intros [Hnone|Hdef].
  - split; [|by left]. rewrite report_outcome. unfold class_test. by rewrite Hnone.
  - split; [by apply report_defined|]. right. by apply reported_defined.
Qed.

Lemma traverse_safe fuel :
  forall id currentDepth st out,
    safe st ->
    traverse client maxDepth direction typeFilter classFilter fuel id currentDepth st
      = Some out ->
    (exists st', out = Done st') /\ safe (state_of out).
Proof.
  induction fuel as [|fuel IH]; intros id currentDepth st out Hst Hrun; [discriminate|].
  simpl in Hrun. destruct (currentDepth >? maxDepth); [inversion Hrun; subst; eauto|].
  pose proof (bodies (id_text id)) as Hbody.
  destruct (query_rels client (id_text id)) as [e| |result];
    [inversion Hrun; subst; eauto | contradiction |].
  eapply (loop_rule _ _ _ _ _ _ _ _ (fun _ _ s => safe s) (fun _ => False)) in Hrun;
    [ | | | | | | | exact Hst].
  - destruct out as [st'|error st']; [|contradiction].
    destruct Hrun as (_ & Hs). eauto.
  - auto.
  - auto.
  - intros rec rest seen s c s1 Hs _ _ Hrep _.
    rewrite <- (report_done _ _ _ _ _ _ _ Hrep). by apply report_safe.
  - intros rec rest seen s c s1 s' Hs _ _ Hrep _ _ Hrec.
    assert (safe (visited_add (Some (otherId c)) s1)) as Hs1.
    { rewrite <- (report_done _ _ _ _ _ _ _ Hrep).
      exact (proj2 (report_safe id currentDepth c s Hs)). }
    exact (proj2 (IH _ _ _ _ Hs1 Hrec)).
  - intros rec rest seen s c error s1 Hs _ _ Hrep.
    destruct (report_safe id currentDepth c s Hs) as [Hdone _].
    rewrite Hdone in Hrep. discriminate.
  - intros rec rest seen s c s1 error s' Hs _ _ Hrep _ _ Hrec.
    assert (safe (visited_add (Some (otherId c)) s1)) as Hs1.
    { rewrite <- (report_done _ _ _ _ _ _ _ Hrep).
      exact (proj2 (report_safe id currentDepth c s Hs)). }
    destruct (IH _ _ _ _ Hs1 Hrec) as [[st' Habs] _]. discriminate.
Qed.

End Bodies.

Lemma walk_never_raises fuel args client config call rootId rootName rootClass text tr :
  (forall id, query_rels client id <> NoBody) ->
  given (arg_class args) = None \/ is_Some rootClass ->
  walk fuel args client config [call] rootId rootName rootClass
    = Some (IsError text, tr) ->
  False.
Proof.
  intros Hbodies Hclass. unfold walk.
  destruct (traverse _ _ _ _ _ _ _ _ _) as [[st|error st]|] eqn:Htr;
    [discriminate | | discriminate].
  intros _.
  eapply traverse_safe in Htr as [[st' Habs] _]; [discriminate | exact Hbodies |].
  destruct Hclass as [Hnone|Hsome]; [by left|]. right.
  intros id cls Hl. unfold initial_state in Hl. cbn [classCache] in Hl.
  destruct (decide (id = rootId)) as [->|Hne].
  - rewrite lookup_singleton_eq in Hl. by inversion Hl; subst.
  - rewrite lookup_singleton_ne in Hl by congruence. discriminate.
Qed.

(** X16. A result with content means that every row fetch of the run was
    answered with a body or failed: a row fetch that is answered without a
    body (HTTP 204) turns the result into an error. *)
Theorem content_needs_bodies fuel args client config p tr
    (Hrun : handler_run fuel args client config = Some (Content p, tr)) :
  forall id, id ∈ queried tr -> query_rels client (id_text id) <> NoBody.
Proof.
  destruct (handler_run_content _ _ _ _ _ _ Hrun)
    as (call & rootId & rootName & rootClass & st & Hcall & Htr & _ & ->).
  eapply traverse_answered; [|exact Htr].
  destruct (root_call_observations call Hcall) as (Hq & _).
  intros id Hid. unfold initial_state in Hid. cbn [trace] in Hid. rewrite Hq in Hid.
  by apply elem_of_nil in Hid.
Qed.

(** The run on the cycle, and the run on [silent], which fails after the
    fetch for B. *)
Lemma content_needs_bodies_witness :
  (forall id, id ∈ queried (snd cycle_run) -> query_rels cycle (id_text id) <> NoBody)
  /\ exists text tr,
       handler_run 5 (request "A" 3 both) silent default_config
         = Some (IsError text, tr)
       /\ queried tr = [Some "A"; Some "B"]
       /\ query_rels silent "B" = NoBody.
Proof.
  split.
  - apply (content_needs_bodies 5%nat (request "A" 9 both) cycle default_config
             (payload (fst cycle_run)) (snd cycle_run)).
    vm_compute. reflexivity.
  - eexists. eexists. split; [vm_compute; reflexivity|]. by vm_compute.
Defined.

(** X17. On an instance that answers every row fetch with a body or with an
    error, a request without class filter, or whose root record carries a
    class, fails only while the root is resolved: an error result has no row
    fetch and no class lookup in its trace, whatever fetch or lookup fails
    during the traversal. *)
Theorem failures_never_abort fuel args client config text tr
    (Hbodies : forall id, query_rels client id <> NoBody)
    (Hclass : given (arg_class args) = None
              \/ forall ci, root_record args client = Some ci ->
                            is_Some (ci_sys_class_name ci))
    (Hrun : handler_run fuel args client config = Some (IsError text, tr)) :
  queried tr = [] /\ class_lookups tr = [].
Proof.
  assert (forall call rootId rootName ci,
             root_record args client = Some ci ->
             walk fuel args client config [call] rootId rootName (ci_sys_class_name ci)
               = Some (IsError text, tr) -> False) as Hwalk.
  { intros call rootId rootName ci Hci. apply walk_never_raises; [exact Hbodies|].
    destruct Hclass as [Hnone|Hsome]; [by left | right; by apply Hsome]. }
  revert Hwalk Hrun. unfold root_record, handler_run, err.
  destruct (given (arg_ci_name args)) as [name|], (given (arg_sys_id args)) as [id|];
    intros Hwalk Hrun.
  - destruct (get_ci client id) as [e| |[ci|]]; try (by inversion Hrun).
    destruct (given (ci_name ci)); [|by inversion Hrun].
    exfalso. by eapply Hwalk.
  - destruct (find_ci client name) as [e| |res]; try (by inversion Hrun).
    destruct (default [] res) as [|ci more]; [by inversion Hrun|].
    exfalso. by eapply Hwalk.
  - destruct (get_ci client id) as [e| |[ci|]]; try (by inversion Hrun).
    destruct (given (ci_name ci)); [|by inversion Hrun].
    exfalso. by eapply Hwalk.
  - by inversion Hrun.
Qed.

(** A request for a root that the cycle does not have fails before any row
    fetch. *)
Lemma failures_never_abort_witness :
  queried [CallGetCi "Z"] = [] /\ class_lookups [CallGetCi "Z"] = [].
Proof.
  apply (failures_never_abort 5%nat (request "Z" 2 both) cycle default_config
           "ERROR: CI not found with sys_id: Z" [CallGetCi "Z"]).
  - intros id. discriminate.
  - by left.
  - vm_compute. reflexivity.
Defined.
